(** * Stash GraphQL tagger: query building, record normalisation, bulk
      mutation workers and the selection table, embedded from the Python
      sources and checked against the written specification.

    Layout:
    - [Py]: the Python built-ins the sources rely on ([str.strip],
      [str.split], [int()], [float()], [max], [list.sort], exceptions);
    - [Helpers]: [utils/helpers.py];
    - [Graph]: scenes, JSON responses and the transport client;
    - [Workers]: the search worker and the four bulk mutation workers;
    - [SceneTableModel]: [models/scene_table_model.py];
    - [MainWindow]: the two handlers of [stashapp_graphgl.py] that build the
      query and post-filter its result;
    - [Spec]: the vocabulary of the specification;
    - [Scenarios]: concrete forms, scenes and clients;
    - [Builtins]: further built-ins ([str.split] with a limit, list
      methods, the format [.2f]);
    - [Display]: [human_size], [human_duration] and the cells of the table;
    - [Lookup]: the tag lookup worker, [GraphQLClient.create_tag] and the
      handler of a failed lookup;
    - [Settings]: the client of the settings, the column dialog and the
      start of a tag run;
    - [Properties]: the vocabulary of the further properties;
    - [Examples]: more concrete tables.

    Left out of the model: the Qt signals (status lines and progress
    percentages), which no statement below is about, and the widgets other
    than the fields the two handlers read. *)

From Stdlib Require Import ZArith List String Ascii Bool Lia PeanoNat.
From Stdlib Require Import Permutation.
From Stdlib Require Import Sorting.Sorted.
From Stdlib Require Import Floats.SpecFloat.
From Stdlib Require Import Numbers.DecimalString.
Import ListNotations.

Set Implicit Arguments.
Open Scope Z_scope.

(* ================================================================== *)
(** ** Python built-ins *)
(* ================================================================== *)

Module Py.

(** Exceptions that the modelled code can meet.  Only the class matters:
    the sources select handlers by class ([except ValueError],
    [except Exception]). *)
Inductive pyexn : Set :=
| ValueError | OverflowError | TypeError | AttributeError
| KeyError | IndexError | RuntimeError | HTTPError.

(** A computation that returns or raises. *)
Inductive result (A : Type) : Type :=
| Ok (a : A)
| Raise (e : pyexn).
Arguments Ok {A} a.
Arguments Raise {A} e.

Definition bind {A B} (c : result A) (k : A -> result B) : result B :=
  match c with
  | Ok a => k a
  | Raise e => Raise e
  end.

(** [try: c  except cls: h] for a single exception class. *)
Definition pyexn_eqb (a b : pyexn) : bool :=
  match a, b with
  | ValueError, ValueError | OverflowError, OverflowError
  | TypeError, TypeError | AttributeError, AttributeError
  | KeyError, KeyError | IndexError, IndexError
  | RuntimeError, RuntimeError | HTTPError, HTTPError => true
  | _, _ => false
  end.

Definition try_except {A} (c : result A) (cls : pyexn) (h : result A) : result A :=
  match c with
  | Ok a => Ok a
  | Raise e => if pyexn_eqb e cls then h else Raise e
  end.

(** [try: c  except Exception: h] catches every class above. *)
Definition try_except_all {A} (c : result A) (h : A) : A :=
  match c with
  | Ok a => a
  | Raise _ => h
  end.

Declare Scope py_scope.
Delimit Scope py_scope with py.
Notation "x <- c ;; k" := (bind c (fun x => k))
  (at level 61, c at next level, right associativity) : py_scope.
Open Scope py_scope.

(** *** Characters and strings

    Strings are taken in the ASCII range: a character is its code, and the
    codes of 128 and more are left alone by [upper], [lower] and [strip] and
    are no digits. *)

Definition chars := list ascii.

Definition code (c : ascii) : nat := nat_of_ascii c.

(** [str.isspace] on the ASCII range: TAB..CR, FS..US and the blank. *)
Definition is_space (c : ascii) : bool :=
  (((9 <=? code c) && (code c <=? 13)) || ((28 <=? code c) && (code c <=? 32)))%nat.

Definition is_digit (c : ascii) : bool :=
  ((48 <=? code c) && (code c <=? 57))%nat.

Definition digit_val (c : ascii) : Z := Z.of_nat (code c) - 48.

Definition to_upper (c : ascii) : ascii :=
  if ((97 <=? code c) && (code c <=? 122))%nat then ascii_of_nat (code c - 32) else c.

Definition to_lower (c : ascii) : ascii :=
  if ((65 <=? code c) && (code c <=? 90))%nat then ascii_of_nat (code c + 32) else c.

Fixpoint lstrip_chars (l : chars) : chars :=
  match l with
  | c :: tl => if is_space c then lstrip_chars tl else l
  | [] => []
  end.

Definition strip_chars (l : chars) : chars :=
  rev (lstrip_chars (rev (lstrip_chars l))).

(** The white space that [int()] and [float()] skip around an ASCII
    string: the C locale's [isspace], TAB..CR and the blank.  FS..US, which
    [str.strip] removes, are no white space to them. *)
Definition is_c_space (c : ascii) : bool :=
  (((9 <=? code c) && (code c <=? 13)) || (code c =? 32))%nat.

Fixpoint lskip_chars (l : chars) : chars :=
  match l with
  | c :: tl => if is_c_space c then lskip_chars tl else l
  | [] => []
  end.

Definition skip_chars (l : chars) : chars :=
  rev (lskip_chars (rev (lskip_chars l))).

Definition of_string : string -> chars := list_ascii_of_string.
Definition to_string : chars -> string := string_of_list_ascii.

(** [s.strip()] *)
Definition strip (s : string) : string := to_string (strip_chars (of_string s)).

(** [s.upper()], [s.lower()] on ASCII text: the letters A..Z and a..z change
    case.  Python's methods know all of Unicode; a string with a character
    of code 128 or more is outside what these two model. *)
Definition upper (s : string) : string := to_string (map to_upper (of_string s)).
Definition lower (s : string) : string := to_string (map to_lower (of_string s)).

(** Truthiness of a string: [not s] is [is_empty s]. *)
Definition is_empty (s : string) : bool :=
  match s with EmptyString => true | _ => false end.

Fixpoint prefix_chars (p l : chars) : bool :=
  match p, l with
  | [], _ => true
  | a :: p', b :: l' => Ascii.eqb a b && prefix_chars p' l'
  | _ :: _, [] => false
  end.

Fixpoint contains_chars (p l : chars) : bool :=
  prefix_chars p l ||
  match l with
  | [] => false
  | _ :: tl => contains_chars p tl
  end.

(** [needle in hay] for two strings. *)
Definition str_in (needle hay : string) : bool :=
  contains_chars (of_string needle) (of_string hay).

(** [c in s] for a single character. *)
Definition char_in (c : ascii) (s : string) : bool :=
  existsb (Ascii.eqb c) (of_string s).

Fixpoint split_chars (sep : ascii) (l : chars) : list chars :=
  match l with
  | [] => [[]]
  | c :: tl =>
      if Ascii.eqb c sep then [] :: split_chars sep tl
      else match split_chars sep tl with
           | h :: t => (c :: h) :: t
           | [] => [[c]]
           end
  end.

(** [s.split(sep)] for a one-character separator. *)
Definition split (sep : ascii) (s : string) : list string :=
  map to_string (split_chars sep (of_string s)).

(** [s.replace(c, by)] for a one-character pattern. *)
Definition replace (c : ascii) (by_ : string) (s : string) : string :=
  to_string (flat_map (fun x => if Ascii.eqb x c then of_string by_ else [x]) (of_string s)).

(** [sep.join(l)] *)
Fixpoint join (sep : string) (l : list string) : string :=
  match l with
  | [] => EmptyString
  | [x] => x
  | x :: tl => (x ++ sep ++ join sep tl)%string
  end.

(** *** [int(str)] *)

(** The tail of a digit part: [(["_"] digit)*].  Returns the digits read and
    the unread rest. *)
Fixpoint scan_more (l : chars) : chars * chars :=
  match l with
  | c :: tl =>
      if is_digit c then
        let '(ds, r) := scan_more tl in (c :: ds, r)
      else if Ascii.eqb c "_" then
        match tl with
        | d :: tl' =>
            if is_digit d then
              let '(ds, r) := scan_more tl' in (d :: ds, r)
            else ([], l)
        | [] => ([], l)
        end
      else ([], l)
  | [] => ([], [])
  end.

(** [digit (["_"] digit)*] *)
Definition scan_digitpart (l : chars) : option (chars * chars) :=
  match l with
  | c :: tl =>
      if is_digit c then
        let '(ds, r) := scan_more tl in Some (c :: ds, r)
      else None
  | [] => None
  end.

Definition digits_value (ds : chars) : Z :=
  fold_left (fun acc c => 10 * acc + digit_val c) ds 0.

Definition scan_sign (l : chars) : bool * chars :=
  match l with
  | c :: tl =>
      if Ascii.eqb c "-" then (true, tl)
      else if Ascii.eqb c "+" then (false, tl)
      else (false, l)
  | [] => (false, [])
  end.

(** [sys.get_int_max_str_digits()]: the most digits [int()] converts, as
    CPython sets it by default. *)
Definition int_max_str_digits : nat := 4300.

(** [int(s)] for a string, base ten: surrounding white space, an optional
    sign and a digit part of at most [int_max_str_digits] digits (leading
    zeros count, underscores do not); anything else raises [ValueError]. *)
Definition int_of_str (s : string) : result Z :=
  let '(neg, l) := scan_sign (skip_chars (of_string s)) in
  match scan_digitpart l with
  | Some (ds, []) =>
      if (int_max_str_digits <? List.length ds)%nat then Raise ValueError
      else Ok (if neg then - digits_value ds else digits_value ds)
  | _ => Raise ValueError
  end.

(** *** [float] : IEEE-754 binary64, after the Standard Library's
        executable specification of floating-point arithmetic *)

Definition prec : Z := 53.
Definition emax : Z := 1024.

Definition pyfloat := spec_float.

(** Rounding of the integer [z] to the nearest binary64 (ties to even). *)
Definition round_Z (z : Z) : pyfloat := binary_normalize prec emax z 0 false.

(** [float(z)] for a Python [int]: the nearest binary64, [OverflowError]
    when that is out of range. *)
Definition float_of_int (z : Z) : result pyfloat :=
  match round_Z z with
  | S754_infinity _ => Raise OverflowError
  | f => Ok f
  end.

(** The binary64 nearest to [m * 10 ^ e10] for [m >= 0], with the sign
    given apart (so that [-0.0] keeps its sign).  A negative exponent divides
    two integers with correct rounding; out-of-range magnitudes give an
    infinity, as [float("1e400")] does. *)
Definition float_of_decimal (neg : bool) (m e10 : Z) : pyfloat :=
  match m with
  | Zpos p =>
      if 0 <=? e10 then
        match Zpos p * 10 ^ e10 with
        | Zpos n => binary_round prec emax neg n 0
        | _ => S754_zero neg
        end
      else
        let '(q, e, l) := SFdiv_core_binary prec emax (Zpos p) 0 (10 ^ (- e10)) 0 in
        binary_round_aux prec emax neg q e l
  | _ => S754_zero neg
  end.

(** [digitpart ["." [digitpart]]  |  "." digitpart]: integer digits,
    fraction digits, rest. *)
Definition scan_number (l : chars) : option (chars * chars * chars) :=
  match scan_digitpart l with
  | Some (ip, r) =>
      match r with
      | c :: r' =>
          if Ascii.eqb c "." then
            match scan_digitpart r' with
            | Some (fp, r'') => Some (ip, fp, r'')
            | None => Some (ip, [], r')
            end
          else Some (ip, [], r)
      | [] => Some (ip, [], [])
      end
  | None =>
      match l with
      | c :: r' =>
          if Ascii.eqb c "." then
            match scan_digitpart r' with
            | Some (fp, r'') => Some ([], fp, r'')
            | None => None
            end
          else None
      | [] => None
      end
  end.

(** [[("e" | "E") ["+" | "-"] digitpart]] up to the end of the input. *)
Definition scan_exponent (l : chars) : option Z :=
  match l with
  | [] => Some 0
  | c :: r =>
      if Ascii.eqb c "e" || Ascii.eqb c "E" then
        let '(neg, r1) := scan_sign r in
        match scan_digitpart r1 with
        | Some (ds, []) => Some (if neg then - digits_value ds else digits_value ds)
        | _ => None
        end
      else None
  end.

Definition chars_eqb (a b : chars) : bool :=
  String.eqb (to_string a) (to_string b).

(** [float(s)] for a string: surrounding white space, an optional sign, then
    a decimal number with optional fraction and exponent, or one of [inf],
    [infinity], [nan] in any case; anything else raises [ValueError]. *)
Definition float_of_str (s : string) : result pyfloat :=
  let '(neg, l) := scan_sign (skip_chars (of_string s)) in
  let w := map to_lower l in
  if chars_eqb w (of_string "inf") || chars_eqb w (of_string "infinity") then
    Ok (S754_infinity neg)
  else if chars_eqb w (of_string "nan") then Ok S754_nan
  else
    match scan_number l with
    | Some (ip, fp, r) =>
        match scan_exponent r with
        | Some ex =>
            Ok (float_of_decimal neg (digits_value (ip ++ fp))
                                 (ex - Z.of_nat (List.length fp)))
        | None => Raise ValueError
        end
    | None => Raise ValueError
    end.

(** [int(f)] for a float: truncation towards zero; [OverflowError] on an
    infinity and [ValueError] on a NaN. *)
Definition int_of_float (f : pyfloat) : result Z :=
  match f with
  | S754_zero _ => Ok 0
  | S754_infinity _ => Raise OverflowError
  | S754_nan => Raise ValueError
  | S754_finite s m e =>
      Ok (cond_Zopp s (if 0 <=? e then Zpos m * 2 ^ e else Zpos m / 2 ^ (- e)))
  end.

(** [f * z] for a float and an [int]: the [int] is converted first. *)
Definition float_mul_int (f : pyfloat) (z : Z) : result pyfloat :=
  g <- float_of_int z ;;
  Ok (SFmul prec emax f g).

(** [a < b] and [a > b] on floats (false as soon as one side is a NaN). *)
Definition float_lt (a b : pyfloat) : bool := SFltb a b.
Definition float_gt (a b : pyfloat) : bool := SFltb b a.

(** Truthiness of a float: zeros are falsy, a NaN is truthy. *)
Definition float_truthy (f : pyfloat) : bool :=
  match f with S754_zero _ => false | _ => true end.

(** [str(z)] for an [int]: decimal digits, with a leading minus sign. *)
Definition str_of_int (z : Z) : string := NilZero.string_of_int (Z.to_int z).

(** [a < b] between an [int] and a float (Python compares the two exactly,
    without converting the [int]). *)
Definition float_cmp_int (f : pyfloat) (z : Z) : option comparison :=
  match f with
  | S754_nan => None
  | S754_infinity s => Some (if s then Lt else Gt)
  | S754_zero _ => Some (0 ?= z)
  | S754_finite s m e =>
      let v := cond_Zopp s (Zpos m) in
      Some (if 0 <=? e then (v * 2 ^ e ?= z) else (v ?= z * 2 ^ (- e)))
  end.

(** *** [max(l)] and [list.sort] *)

(** [max(x, *rest)]: the running maximum is replaced only by an item that
    compares strictly greater, so the first of several maxima is kept. *)
Definition max_by {A} (gt : A -> A -> bool) (l : list A) : option A :=
  match l with
  | [] => None
  | x :: tl => Some (fold_left (fun m y => if gt y m then y else m) tl x)
  end.

(** Stable insertion: [x], which came later than everything in [l], goes
    before the first item it is strictly less than. *)
Fixpoint insert_by {A} (lt : A -> A -> bool) (x : A) (l : list A) : list A :=
  match l with
  | [] => [x]
  | y :: tl => if lt x y then x :: l else y :: insert_by lt x tl
  end.

(** Any stable sort gives this list when [lt] is a strict weak order;
    CPython leaves the order open otherwise (keys with a NaN among them). *)
Definition stable_sort {A} (lt : A -> A -> bool) (l : list A) : list A :=
  fold_left (fun acc x => insert_by lt x acc) l [].

(** [l.sort(key=key, reverse=reverse)]: a stable sort that compares keys
    with [<] only; with [reverse] the list is reversed before and after, so
    that equal items keep their original order. *)
Definition sort_by_key {A K} (lt : K -> K -> bool) (key : A -> K)
    (reverse : bool) (l : list A) : list A :=
  let lt' := fun a b => lt (key a) (key b) in
  if reverse then rev (stable_sort lt' (rev l)) else stable_sort lt' l.

End Py.

(* ================================================================== *)
(** ** utils/helpers.py *)
(* ================================================================== *)

Module Helpers.
Import Py.
Open Scope string_scope.
Open Scope Z_scope.

(** [parse_duration_input]: [Ok None] is the source's [return None]; a
    [Raise] is an exception that leaves the function (only [ValueError] is
    handled inside). *)
Definition parse_duration_input (duration_str : string) : result (option Z) :=
  if is_empty duration_str || is_empty (strip duration_str) then Ok None
  else
    let duration_str := strip duration_str in
    if negb (char_in ":" duration_str) then
      try_except
        (f <- float_of_str duration_str ;;
         n <- int_of_float f ;;
         Ok (Some n))
        ValueError (Ok None)
    else
      let parts := split ":" duration_str in
      try_except
        (match parts with
         | [p0; p1] =>
             minutes <- int_of_str p0 ;;
             seconds <- int_of_str p1 ;;
             Ok (Some (minutes * 60 + seconds))
         | [p0; p1; p2] =>
             hours <- int_of_str p0 ;;
             minutes <- int_of_str p1 ;;
             seconds <- int_of_str p2 ;;
             Ok (Some (hours * 3600 + minutes * 60 + seconds))
         | _ => Ok None
         end)
        ValueError (Ok None).

(** The [multipliers] dictionary with its [.get(unit, 1)] default. *)
Definition multiplier (unit : string) : Z :=
  if String.eqb unit "B" then 1
  else if String.eqb unit "KB" then 1024
  else if String.eqb unit "MB" then 1024 * 1024
  else if String.eqb unit "GB" then 1024 * 1024 * 1024
  else 1.

Definition parse_filesize_input (size_str unit : string) : result (option Z) :=
  if is_empty size_str || is_empty (strip size_str) then Ok None
  else
    parsed <- try_except
                (f <- float_of_str (strip size_str) ;; Ok (Some f))
                ValueError (Ok None) ;;
    match parsed with
    | None => Ok None
    | Some size_value =>
        p <- float_mul_int size_value (multiplier unit) ;;
        n <- int_of_float p ;;
        Ok (Some n)
    end.

End Helpers.

(* ================================================================== *)
(** ** Scenes, JSON responses and the transport client *)
(* ================================================================== *)

Module Graph.
Import Py.
Open Scope string_scope.
Open Scope Z_scope.

(** A JSON value as [json.loads] returns it.  Objects are association
    lists in document order. *)
#[local] Unset Elimination Schemes.
Inductive json : Type :=
| JNull
| JBool (b : bool)
| JNum (z : Z)
| JStr (s : string)
| JArr (l : list json)
| JObj (o : list (string * json)).
#[local] Set Elimination Schemes.

Fixpoint assoc (k : string) (o : list (string * json)) : option json :=
  match o with
  | [] => None
  | (k', v) :: tl => if String.eqb k k' then Some v else assoc k tl
  end.

(** Truthiness of a value ([if x:]). *)
Definition json_truthy (j : json) : bool :=
  match j with
  | JNull => false
  | JBool b => b
  | JNum z => negb (z =? 0)%Z
  | JStr s => negb (is_empty s)
  | JArr l => match l with [] => false | _ => true end
  | JObj o => match o with [] => false | _ => true end
  end.

(** [k in j] for a string [k]: key test on a dict, membership on a list,
    substring on a string, [TypeError] on anything else. *)
Definition json_contains (k : string) (j : json) : result bool :=
  match j with
  | JObj o => Ok (match assoc k o with Some _ => true | None => false end)
  | JArr l => Ok (existsb (fun x => match x with JStr s => String.eqb s k | _ => false end) l)
  | JStr s => Ok (str_in k s)
  | _ => Raise TypeError
  end.

(** [j[k]] for a string [k]. *)
Definition json_item (j : json) (k : string) : result json :=
  match j with
  | JObj o => match assoc k o with Some v => Ok v | None => Raise KeyError end
  | _ => Raise TypeError
  end.

(** [j.get(k, default)]: only a dict has the method. *)
Definition json_get (j : json) (k : string) (default : json) : result json :=
  match j with
  | JObj o => Ok (match assoc k o with Some v => v | None => default end)
  | _ => Raise AttributeError
  end.

(** [for e in j]: the items of a list, the keys of a dict, the characters
    of a string. *)
Definition json_iter (j : json) : result (list json) :=
  match j with
  | JArr l => Ok l
  | JObj o => Ok (map (fun kv => JStr (fst kv)) o)
  | JStr s => Ok (map (fun c => JStr (String c EmptyString)) (of_string s))
  | _ => Raise TypeError
  end.

(** An identifier read with [d.get("id")]: [None] when the key is absent. *)
Definition pyid := option string.

Definition pyid_eqb (a b : pyid) : bool :=
  match a, b with
  | Some x, Some y => String.eqb x y
  | None, None => true
  | _, _ => false
  end.

(** [not x] for an identifier: absent or empty. *)
Definition pyid_falsy (a : pyid) : bool :=
  match a with
  | Some x => is_empty x
  | None => true
  end.

(** [j == scene_id] where [scene_id] is a string or [None]. *)
Definition json_eq_id (j : json) (i : pyid) : bool :=
  match j, i with
  | JStr s, Some x => String.eqb s x
  | JNull, None => true
  | _, _ => false
  end.

Fixpoint map_result {A B} (f : A -> result B) (l : list A) : result (list B) :=
  match l with
  | [] => Ok []
  | x :: tl => y <- f x ;; ys <- map_result f tl ;; Ok (y :: ys)
  end.

(** [sep.join(l)] on values: [TypeError] unless every item is a string. *)
Definition join_json (sep : string) (l : list json) : result string :=
  ss <- map_result (fun j => match j with JStr s => Ok s | _ => Raise TypeError end) l ;;
  Ok (join sep ss).

(** A field of a file entry as the server sent it.  [VOther] is a list or
    a dict: its [str()] opens with a bracket, so no number parses from it. *)
Inductive pyval : Type :=
| VNone
| VBool (b : bool)
| VInt (z : Z)
| VFloat (f : pyfloat)
| VStr (s : string)
| VOther.

Record file_entry := {
  f_size : pyval;
  f_duration : pyval;
  f_width : pyval;
  f_height : pyval;
  f_path : option string
}.

(** A tag, performer or studio reference. *)
Record ref := { ref_id : pyid; ref_name : option string }.

(** A scene dictionary.  The first seven fields come from the server, the
    six underscore fields are the ones the search worker stores. *)
Record scene := {
  scene_id : pyid;
  scene_title : option string;
  scene_date : option string;
  scene_tags : list ref;
  scene_performers : list ref;
  scene_studio : option ref;
  scene_files : list file_entry;
  _filesize : option Z;
  _duration : option pyfloat;
  _path : option string;
  _width : option Z;
  _height : option Z;
  _resolution : option string
}.

(** The [input] object of a [sceneUpdate] mutation. *)
Inductive request : Type :=
| SetTagIds (id : pyid) (tag_ids : list pyid)
| SetTitle (id : pyid) (title : string)
| SetPerformerIds (id : pyid) (performer_ids : list pyid)
| SetStudioId (id : pyid) (studio_id : pyid).

(** What [requests.post] hands back: a status code and a body that
    [resp.json()] parses ([Some]) or not ([None]). *)
Record http_response := { status_code : Z; body : option json }.

Section Client.
  (** The state of everything beyond the socket. *)
Variable World : Type.

Definition endpoint := request -> World -> result http_response * World.

  (** A client object as the workers use it (duck-typed): the [call]
      method, and a [call_graphql] method when the object has one. *)
Record client := {
    call : request -> World -> result json * World;
    call_graphql : option (request -> World -> result json * World)
  }.

  (** [GraphQLClient.call]: an unparseable body and a status of 400 or more
      both raise. *)
Definition GraphQLClient_call (post : endpoint) (rq : request) (w : World)
    : result json * World :=
    let '(r, w') := post rq w in
    match r with
    | Raise e => (Raise e, w')
    | Ok resp =>
        match body resp with
        | None => (Raise (if (400 <=? status_code resp)%Z then HTTPError else ValueError), w')
        | Some data =>
            if (400 <=? status_code resp)%Z then (Raise RuntimeError, w')
            else (Ok data, w')
        end
    end.

  (** The class [GraphQLClient] defines [call] and [create_tag] only. *)
Definition GraphQLClient (post : endpoint) : client :=
    {| call := GraphQLClient_call post; call_graphql := None |}.
End Client.

End Graph.

(* ================================================================== *)
(** ** workers/ *)
(* ================================================================== *)

Module Workers.
Import Py Graph.
Open Scope string_scope.
Open Scope Z_scope.

(** The per-record outcome of a bulk run.  Every branch of the four loops
    increments exactly one counter; the outcome names that counter. *)
Inductive outcome : Set :=
| Updated
| AlreadySatisfied
| SkippedMissingReference
| Failed.

(** The dictionary emitted on [signals.result].  ([RenameSceneWorker] has no
    "already" key; its second counter stays at zero.) *)
Record summary := {
  updated : nat;
  already : nat;
  skipped_deleted : nat;
  failed : nat
}.

Definition summary0 : summary :=
  {| updated := 0; already := 0; skipped_deleted := 0; failed := 0 |}.

(** [counter += 1] for the counter the outcome names. *)
Definition bump (o : outcome) (s : summary) : summary :=
  match o with
  | Updated => {| updated := S (updated s); already := already s;
                  skipped_deleted := skipped_deleted s; failed := failed s |}
  | AlreadySatisfied => {| updated := updated s; already := S (already s);
                  skipped_deleted := skipped_deleted s; failed := failed s |}
  | SkippedMissingReference => {| updated := updated s; already := already s;
                  skipped_deleted := S (skipped_deleted s); failed := failed s |}
  | Failed => {| updated := updated s; already := already s;
                  skipped_deleted := skipped_deleted s; failed := S (failed s) |}
  end.

Definition total (s : summary) : nat :=
  (updated s + already s + skipped_deleted s + failed s)%nat.

Section Bulk.
Variable World : Type.
  (** [json.dumps] and [str] on a parsed response, as the library prints them. *)
Variable json_dumps : json -> string.
Variable py_str : json -> string.

  (** The network as a run sees it: the world behind the client and the
      requests sent so far, oldest first. *)
Record net := { world : World; sent : list request }.

  (** Code that may raise and may talk to the network; the network keeps
      what happened when an exception is raised. *)
Definition M (A : Type) : Type := net -> result A * net.

Definition ret {A} (a : A) : M A := fun n => (Ok a, n).
Definition lift {A} (r : result A) : M A := fun n => (r, n).
Definition bindM {A B} (c : M A) (k : A -> M B) : M B :=
    fun n => match c n with
             | (Ok a, n') => k a n'
             | (Raise e, n') => (Raise e, n')
             end.
  (** [try: c  except Exception: h] *)
Definition catch {A} (c : M A) (h : M A) : M A :=
    fun n => match c n with
             | (Ok a, n') => (Ok a, n')
             | (Raise _, n') => h n'
             end.

Notation "x <~ c ;; k" := (bindM c (fun x => k))
    (at level 61, c at next level, right associativity).

  (** [for x in l: s = body(x, s)] *)
Fixpoint for_each {A S} (l : list A) (body : A -> S -> M S) (s : S) : M S :=
    match l with
    | [] => ret s
    | x :: tl => s' <~ body x s ;; for_each tl body s'
    end.

  (** Sending one request through a method of the client. *)
Definition send (method : request -> World -> result json * World)
      (rq : request) : M json :=
    fun n => let '(r, w') := method rq (world n) in
             (r, {| world := w'; sent := (sent n ++ [rq])%list |}).

  (** The response handling shared word for word by [ApplyTagWorker],
      [RenameSceneWorker] and [AssignPerformersWorker]: from the success
      test down to the choice between "skipped deleted" and "failed". *)
Definition classify_response (resp : json) (scene_id : pyid) : result outcome :=
    has_data <- json_contains "data" resp ;;
    success <- (if has_data : bool then
                  data <- json_item resp "data" ;;
                  su <- json_get data "sceneUpdate" (JObj []) ;;
                  i <- json_get su "id" JNull ;;
                  Ok (json_eq_id i scene_id)
                else Ok false) ;;
    if success : bool then Ok Updated
    else
      has_errors <- json_contains "errors" resp ;;
      err_msgs <- (if has_errors : bool then
                     errors <- json_item resp "errors" ;;
                     es <- json_iter errors ;;
                     map_result (fun e => json_get e "message" (JStr (py_str e))) es
                   else Ok []) ;;
      err_text <- (match err_msgs with
                   | [] => Ok (json_dumps resp)
                   | _ => join_json "; " err_msgs
                   end) ;;
      if str_in "FOREIGN KEY" (upper err_text) || str_in "FOREIGN KEY" err_text
      then Ok SkippedMissingReference
      else Ok Failed.

  (** The inner [try] of those three workers: send, classify, and count
      any exception as a failure. *)
Definition mutate (c : client World) (rq : request) (scene_id : pyid) : M outcome :=
    catch (resp <~ send (call c) rq ;; lift (classify_response resp scene_id))
          (ret Failed).

  (** *** apply_tag_worker.py *)

Definition current_ids (refs : list ref) : list pyid := map ref_id refs.

Definition apply_tag_scene (c : client World) (tag_id : pyid) (dry_run : bool)
      (s : scene) : M outcome :=
    let scene_id := scene_id s in
    let current_tag_ids := current_ids (scene_tags s) in
    if existsb (pyid_eqb tag_id) current_tag_ids then ret AlreadySatisfied
    else
      let new_tag_ids := (current_tag_ids ++ [tag_id])%list in
      if dry_run then ret Updated
      else mutate c (SetTagIds scene_id new_tag_ids) scene_id.

Definition ApplyTagWorker_run (c : client World) (scenes : list scene)
      (tag_id : pyid) (dry_run : bool) : M summary :=
    for_each scenes
      (fun s acc => o <~ apply_tag_scene c tag_id dry_run s ;; ret (bump o acc))
      summary0.

  (** *** rename_scene_worker.py *)

Definition rename_scene (c : client World) (new_title : string) (dry_run : bool)
      (s : scene) : M outcome :=
    let scene_id := scene_id s in
    if dry_run then ret Updated
    else mutate c (SetTitle scene_id new_title) scene_id.

Definition RenameSceneWorker_run (c : client World) (scenes : list scene)
      (new_title : string) (dry_run : bool) : M summary :=
    for_each scenes
      (fun s acc => o <~ rename_scene c new_title dry_run s ;; ret (bump o acc))
      summary0.

  (** *** assign_performers_worker.py *)

Definition pyid_eq_dec (a b : pyid) : {a = b} + {a <> b}.
  Proof. decide equality. apply string_dec. Defined.

  (** [list(set(a + b))]: the distinct items.  Python leaves their order
      unspecified; here the last occurrence of each is kept, and what is
      proved of the result does not depend on the order. *)
Definition list_set (l : list pyid) : list pyid := nodup pyid_eq_dec l.

Definition assign_performers_scene (c : client World) (performer_ids : list pyid)
      (dry_run : bool) (s : scene) : M outcome :=
    let scene_id := scene_id s in
    let current_performer_ids := current_ids (scene_performers s) in
    let all_already_assigned :=
      forallb (fun pid => existsb (pyid_eqb pid) current_performer_ids) performer_ids in
    if all_already_assigned then ret AlreadySatisfied
    else
      let new_performer_ids := list_set (current_performer_ids ++ performer_ids)%list in
      if dry_run then ret Updated
      else mutate c (SetPerformerIds scene_id new_performer_ids) scene_id.

Definition AssignPerformersWorker_run (c : client World) (scenes : list scene)
      (performer_ids : list pyid) (dry_run : bool) : M summary :=
    for_each scenes
      (fun s acc => o <~ assign_performers_scene c performer_ids dry_run s ;;
                    ret (bump o acc))
      summary0.

  (** *** assign_studio_worker.py *)

  (** [_assign_studio_to_scene]: [True] on success, [False] on failure.  The
      method looked up on the client is [call_graphql]; on an object without
      it the lookup itself raises [AttributeError] inside the [try]. *)
Definition _assign_studio_to_scene (c : client World) (studio_id : pyid)
      (scene_id : pyid) : M bool :=
    catch
      (result_ <~ match call_graphql c with
                  | Some method => send method (SetStudioId scene_id studio_id)
                  | None => lift (Raise AttributeError)
                  end ;;
       lift (has <- (if json_truthy result_ then json_contains "sceneUpdate" result_
                     else Ok false) ;;
             if has : bool then
               su <- json_item result_ "sceneUpdate" ;;
               new_studio <- json_get su "studio" (JObj []) ;;
               _ <- json_get new_studio "name" (JStr "Unknown") ;;
               Ok true
             else Ok false))
      (ret false).

Definition assign_studio_scene (c : client World) (studio_id : pyid)
      (dry_run : bool) (s : scene) : M outcome :=
    let scene_id := scene_id s in
    if pyid_falsy scene_id then ret SkippedMissingReference
    else
      let current_studio_id :=
        match scene_studio s with
        | Some current_studio => ref_id current_studio
        | None => None
        end in
      if pyid_eqb current_studio_id studio_id then ret AlreadySatisfied
      else if dry_run then ret Updated
      else
        success <~ _assign_studio_to_scene c studio_id scene_id ;;
        ret (if success : bool then Updated else Failed).

Definition AssignStudioWorker_run (c : client World) (scenes : list scene)
      (studio_id : pyid) (dry_run : bool) : M summary :=
    for_each scenes
      (fun s acc => o <~ assign_studio_scene c studio_id dry_run s ;; ret (bump o acc))
      summary0.

End Bulk.

  (** *** find_scenes_worker.py *)

  (** One entry of the [scene_filter] dictionary. *)
Record criterion (V : Type) := {
    value : V;
    value2 : option V;
    modifier : string
  }.

Record scene_filter := {
    sf_title : option (criterion string);
    sf_performers : option (criterion (list string));
    sf_studios : option (criterion (list string));
    sf_date : option (criterion string);
    sf_duration : option (criterion Z);
    sf_path : option (criterion string);
    sf_resolution : option (criterion string)
  }.

  (** The [vars] of the [FindScenes] query. *)
Record find_variables := {
    filter_per_page : Z;
    vars_scene_filter : scene_filter
  }.

  (** The attributes [SearchScenesWorker.__init__] stores. *)
Record SearchScenesWorker := {
    search_term : string;
    performer_ids : list string;
    performer_logic : string;
    studio_id : option string;
    date_from : option string;
    date_to : option string;
    duration_value1 : option Z;
    duration_value2 : option Z;
    duration_operator : string;
    path_query : option string;
    resolution_enum : option string;
    resolution_operator : string;
    per_page : Z
  }.

  (** Truthiness of a string that may be [None]. *)
Definition truthy (o : option string) : bool :=
    match o with
    | Some x => negb (is_empty x)
    | None => false
    end.

Definition some_str (o : option string) : string :=
    match o with Some x => x | None => "" end.

  (** The part of [run] that fills [scene_filter]. *)
Definition build_scene_filter (w : SearchScenesWorker) : scene_filter :=
    {| sf_title :=
         if negb (is_empty (search_term w)) then
           Some {| value := search_term w; value2 := None; modifier := "INCLUDES" |}
         else None;
       sf_performers :=
         match performer_ids w with
         | [] => None
         | ids =>
             Some {| value := ids; value2 := None;
                     modifier := if String.eqb (performer_logic w) "AND"
                                 then "INCLUDES_ALL" else "INCLUDES" |}
         end;
       sf_studios :=
         if truthy (studio_id w) then
           Some {| value := [some_str (studio_id w)]; value2 := None;
                   modifier := "INCLUDES" |}
         else None;
       sf_date :=
         if truthy (date_from w) && truthy (date_to w) then
           Some {| value := some_str (date_from w);
                   value2 := Some (some_str (date_to w));
                   modifier := "BETWEEN" |}
         else if truthy (date_from w) then
           Some {| value := some_str (date_from w); value2 := None;
                   modifier := "GREATER_THAN" |}
         else if truthy (date_to w) then
           Some {| value := some_str (date_to w); value2 := None;
                   modifier := "LESS_THAN" |}
         else None;
       sf_duration :=
         match duration_value1 w with
         | Some v1 =>
             match String.eqb (duration_operator w) "BETWEEN", duration_value2 w with
             | true, Some v2 =>
                 Some {| value := v1; value2 := Some v2; modifier := "BETWEEN" |}
             | _, _ =>
                 Some {| value := v1; value2 := None;
                         modifier := duration_operator w |}
             end
         | None => None
         end;
       sf_path :=
         if truthy (path_query w) then
           Some {| value := some_str (path_query w); value2 := None;
                   modifier := "INCLUDES" |}
         else None;
       sf_resolution :=
         if truthy (resolution_enum w) then
           Some {| value := some_str (resolution_enum w); value2 := None;
                   modifier := resolution_operator w |}
         else None |}.

Definition build_vars (w : SearchScenesWorker) : find_variables :=
    {| filter_per_page := per_page w; vars_scene_filter := build_scene_filter w |}.

  (** [try: l.append(c)  except Exception: pass] *)
Definition append_if_ok {A} (c : result A) : list A :=
    match c with
    | Ok a => [a]
    | Raise _ => []
    end.

Definition int_of_bool (b : bool) : Z := if b then 1 else 0.

  (** What one file's [size] adds to [sizes]. *)
Definition size_values (v : pyval) : list Z :=
    match v with
    | VNone => []
    | VBool b => [int_of_bool b]
    | VInt z => [z]
    | VFloat f => append_if_ok (int_of_float f)
    | VStr x =>
        let v_str := replace "," "" (strip x) in
        match int_of_str v_str with
        | Ok n => [n]
        | Raise _ => append_if_ok (f <- float_of_str v_str ;; int_of_float f)
        end
    | VOther => []
    end.

  (** [float(dur)] *)
Definition float_of_val (v : pyval) : result pyfloat :=
    match v with
    | VNone => Raise TypeError
    | VBool b => float_of_int (int_of_bool b)
    | VInt z => float_of_int z
    | VFloat f => Ok f
    | VStr x => float_of_str x
    | VOther => Raise TypeError
    end.

Definition duration_values (v : pyval) : list pyfloat :=
    match v with
    | VNone => []
    | _ => append_if_ok (float_of_val v)
    end.

  (** [int(w)] *)
Definition int_of_val (v : pyval) : result Z :=
    match v with
    | VNone => Raise TypeError
    | VBool b => Ok (int_of_bool b)
    | VInt z => Ok z
    | VFloat f => int_of_float f
    | VStr x => int_of_str x
    | VOther => Raise TypeError
    end.

Definition dim_values (v : pyval) : list Z :=
    match v with
    | VNone => []
    | _ => append_if_ok (int_of_val v)
    end.

Definition path_values (p : option string) : list string :=
    match p with
    | Some x => if is_empty x then [] else [x]
    | None => []
    end.

  (** The [if h >= 2160: ... else: f"{h}p"] ladder. *)
Definition resolution_label (h : Z) : string :=
    if 2160 <=? h then "4K"
    else if 1440 <=? h then "1440p"
    else if 1080 <=? h then "1080p"
    else if 720 <=? h then "720p"
    else if 480 <=? h then "480p"
    else (str_of_int h ++ "p")%string.

  (** The body of [for s in scenes:]: the six stored fields. *)
Definition normalize_scene (s : scene) : scene :=
    let files := scene_files s in
    let sizes := flat_map (fun f => size_values (f_size f)) files in
    let durations := flat_map (fun f => duration_values (f_duration f)) files in
    let paths := flat_map (fun f => path_values (f_path f)) files in
    let widths := flat_map (fun f => dim_values (f_width f)) files in
    let heights := flat_map (fun f => dim_values (f_height f)) files in
    let height := max_by Z.gtb heights in
    {| scene_id := scene_id s;
       scene_title := scene_title s;
       scene_date := scene_date s;
       scene_tags := scene_tags s;
       scene_performers := scene_performers s;
       scene_studio := scene_studio s;
       scene_files := scene_files s;
       _filesize := max_by Z.gtb sizes;
       _duration := max_by float_gt durations;
       _path := hd_error paths;
       _width := max_by Z.gtb widths;
       _height := height;
       _resolution :=
         match height with
         | Some h => if h =? 0 then None else Some (resolution_label h)
         | None => None
         end |}.

End Workers.

(* ================================================================== *)
(** ** models/scene_table_model.py *)
(* ================================================================== *)

Module SceneTableModel.
Import Py Graph.
Open Scope string_scope.
Open Scope Z_scope.

Inductive SortOrder : Set := AscendingOrder | DescendingOrder.

Inductive ItemDataRole : Set := DisplayRole | EditRole | CheckStateRole.

Inductive CheckState : Set := Unchecked | PartiallyChecked | Checked.

(** The [value] handed to [setData]: PyQt6 sends the enum or its integer. *)
Inductive variant : Type :=
| StateValue (st : CheckState)
| IntValue (z : Z)
| OtherValue.

(** A [QModelIndex]: invalid, or the row and column of a cell. *)
Definition QModelIndex := option (nat * nat).

(** The attributes of the model object. *)
Record model := {
  _scenes : list scene;
  _checked : list bool;
  _visible_columns : list Z;
  _sort_column : Z;
  _sort_order : SortOrder
}.

Definition DEFAULT_VISIBLE : list Z := [0; 1; 2; 3; 4; 5; 6; 7; 8; 9; 10; 11].

(** [[False] * n] *)
Definition all_false (n : nat) : list bool := repeat false n.

Definition __init__ (scenes : list scene) : model :=
  {| _scenes := scenes;
     _checked := all_false (List.length scenes);
     _visible_columns := DEFAULT_VISIBLE;
     _sort_column := -1;
     _sort_order := AscendingOrder |}.

Definition set_visible_columns (m : model) (visible_indices : list Z) : model :=
  {| _scenes := _scenes m;
     _checked := _checked m;
     _visible_columns := visible_indices;
     _sort_column := _sort_column m;
     _sort_order := _sort_order m |}.

(** [l[i]] for a non-negative index. *)
Definition item {A} (l : list A) (i : nat) : result A :=
  match nth_error l i with
  | Some a => Ok a
  | None => Raise IndexError
  end.

(** [l[i] = v] for a non-negative index: out of range raises. *)
Fixpoint set_item {A} (l : list A) (i : nat) (v : A) : result (list A) :=
  match l, i with
  | [], _ => Raise IndexError
  | _ :: tl, O => Ok (v :: tl)
  | x :: tl, S i' => tl' <- set_item tl i' v ;; Ok (x :: tl')
  end.

Definition with_checked (m : model) (checked : list bool) : model :=
  {| _scenes := _scenes m;
     _checked := checked;
     _visible_columns := _visible_columns m;
     _sort_column := _sort_column m;
     _sort_order := _sort_order m |}.

(** [setData]: the returned flag and the model afterwards. *)
Definition setData (m : model) (index : QModelIndex) (value : variant)
    (role : ItemDataRole) : result (bool * model) :=
  match index with
  | None => Ok (false, m)
  | Some (row, column) =>
      actual_col <- item (_visible_columns m) column ;;
      match actual_col =? 0, role with
      | true, CheckStateRole =>
          let is_checked :=
            match value with
            | StateValue Checked => true
            | IntValue 2 => true
            | _ => false
            end in
          checked <- set_item (_checked m) row is_checked ;;
          Ok (true, with_checked m checked)
      | _, _ => Ok (false, m)
      end
  end.

Definition setScenes (m : model) (scenes : list scene) : model :=
  {| _scenes := scenes;
     _checked := all_false (List.length scenes);
     _visible_columns := _visible_columns m;
     _sort_column := _sort_column m;
     _sort_order := _sort_order m |}.

Definition get_selected_scenes (m : model) : list scene :=
  map fst (filter snd (combine (_scenes m) (_checked m))).

Definition select_all (m : model) (val : bool) : model :=
  match _checked m with
  | [] => m
  | checked => with_checked m (map (fun _ => val) checked)
  end.

(** The key [list.sort] compares: a number or a string. *)
Inductive sort_key_t : Type :=
| KInt (z : Z)
| KFloat (f : pyfloat)
| KStr (s : string).

(** [a < b] on keys.  Within one column the keys are all numbers or all
    strings, so the mixed case (a [TypeError] in Python) does not arise. *)
Definition key_lt (a b : sort_key_t) : bool :=
  match a, b with
  | KInt x, KInt y => x <? y
  | KFloat x, KFloat y => float_lt x y
  | KFloat x, KInt y =>
      match float_cmp_int x y with Some Lt => true | _ => false end
  | KInt x, KFloat y =>
      match float_cmp_int y x with Some Gt => true | _ => false end
  | KStr x, KStr y => String.ltb x y
  | _, _ => false
  end.

(** The names kept by [[p.get("name") for p in l if p.get("name")]]. *)
Definition truthy_names (l : list ref) : list string :=
  flat_map (fun r => match ref_name r with
                     | Some n => if is_empty n then [] else [n]
                     | None => []
                     end) l.

Definition joined_names (l : list ref) : string :=
  match truthy_names l with
  | [] => ""
  | names => lower (join ", " (stable_sort String.ltb names))
  end.

Definition or_empty (o : option string) : string :=
  match o with Some x => x | None => "" end.

Definition or_zero (o : option Z) : Z :=
  match o with Some x => x | None => 0 end.

(** The local function [sort_key], applied to the scene of an item.  In
    the Studio column the name of a studio is lowered as it is stored: on a
    stored null ([None.lower()]) the key raises [AttributeError]. *)
Definition sort_key (actual_col : Z) (s : scene) : result sort_key_t :=
  match actual_col with
  | 1 => Ok (KInt (try_except_all (int_of_str (match scene_id s with
                                               | Some x => x
                                               | None => "0"
                                               end)) 0))
  | 2 => Ok (KStr (lower (or_empty (scene_title s))))
  | 3 => match scene_studio s with
         | Some studio =>
             match ref_name studio with
             | Some name => Ok (KStr (lower name))
             | None => Raise AttributeError
             end
         | None => Ok (KStr (lower ""))
         end
  | 4 => Ok (KStr (joined_names (scene_performers s)))
  | 5 => Ok (KStr (joined_names (scene_tags s)))
  | 6 => Ok (KStr (or_empty (scene_date s)))
  | 7 => Ok (KStr (lower (or_empty (_path s))))
  | 8 => match _duration s with
         | Some f => Ok (if float_truthy f then KFloat f else KInt 0)
         | None => Ok (KInt 0)
         end
  | 9 => Ok (KInt (or_zero (_width s) * or_zero (_height s)))
  | 10 => match _resolution s with
          | Some res =>
              if is_empty res then Ok (KInt 0)
              else Ok (KInt (try_except_all
                               (int_of_str (replace "K" "000" (replace "p" "" res))) 0))
          | None => Ok (KInt 0)
          end
  | 11 => Ok (KInt (or_zero (_filesize s)))
  | _ => Ok (KStr "")
  end.

(** [list(zip(scenes, checked, range(len(scenes))))] *)
Definition zip3 (scenes : list scene) (checked : list bool)
  : list (scene * bool * nat) :=
  combine (combine scenes checked) (seq 0 (List.length scenes)).

(** The keys of the items, as [list.sort] computes them before it compares
    any: each item with its key in front, or the exception of the first key
    that raises. *)
Definition keyed (actual_col : Z) (combined : list (scene * bool * nat))
  : result (list (sort_key_t * (scene * bool * nat))) :=
  map_result (fun it => k <- sort_key actual_col (fst (fst it)) ;; Ok (k, it)) combined.

(** [sort] as a call: what it returns and the table it leaves.  An
    exception of the key function leaves [sort] before [_scenes], [_checked]
    and the sort state are assigned, so the table is then as it was. *)
Definition sort_call (m : model) (column : Z) (order : SortOrder) : result unit * model :=
  if (column <? 0) || (Z.of_nat (List.length (_visible_columns m)) <=? column)
  then (Ok tt, m)
  else
    match nth_error (_visible_columns m) (Z.to_nat column) with
    | None => (Ok tt, m)
    | Some actual_col =>
        if actual_col =? 0 then (Ok tt, m)
        else
          let combined := zip3 (_scenes m) (_checked m) in
          let reverse := match order with DescendingOrder => true | _ => false end in
          match keyed actual_col combined with
          | Raise e => (Raise e, m)
          | Ok items =>
              let combined := map snd (sort_by_key key_lt fst reverse items) in
              (Ok tt,
               {| _scenes := map (fun it => fst (fst it)) combined;
                  _checked := map (fun it => snd (fst it)) combined;
                  _visible_columns := _visible_columns m;
                  _sort_column := column;
                  _sort_order := order |})
          end
    end.

(** The table after [sort]. *)
Definition sort (m : model) (column : Z) (order : SortOrder) : model :=
  snd (sort_call m column order).

(** The loop of [select_by_ids]: [self._checked[i] = s.get("id") in id_set]
    for each scene in turn. *)
Fixpoint mark_ids (id_set : list pyid) (scenes : list scene) (i : nat)
    (checked : list bool) : result (list bool) :=
  match scenes with
  | [] => Ok checked
  | s :: tl =>
      checked' <- set_item checked i (existsb (pyid_eqb (scene_id s)) id_set) ;;
      mark_ids id_set tl (S i) checked'
  end.

Definition select_by_ids (m : model) (id_set : list pyid) : result model :=
  match _checked m with
  | [] => Ok m
  | checked =>
      checked' <- mark_ids id_set (_scenes m) 0 checked ;;
      Ok (with_checked m checked')
  end.

End SceneTableModel.

(* ================================================================== *)
(** ** stashapp_graphgl.py: [on_search_scenes] and [_on_scenes_found] *)
(* ================================================================== *)

Module MainWindow.
Import Py Graph Helpers Workers.
Open Scope string_scope.
Open Scope Z_scope.

(** The widgets the two handlers read. *)
Record form := {
  graphql_url : string;
  search_edit : string;
  selected_performers : list string;      (* the keys of the dictionary *)
  performer_logic_combo : Z;
  selected_studio : option ref;
  enable_date_filter_checkbox : bool;
  date_from_edit : string;                (* already as yyyy-MM-dd *)
  date_to_edit : string;
  enable_duration_filter_checkbox : bool;
  duration_operator_combo : Z;
  duration_value1_edit : string;
  duration_value2_edit : string;
  enable_path_filter_checkbox : bool;
  path_search_edit : string;
  enable_resolution_filter_checkbox : bool;
  resolution_combo : Z;
  resolution_operator_combo : Z;
  enable_filesize_filter_checkbox : bool;
  filesize_operator_combo : Z;
  filesize_value1_edit : string;
  filesize_unit1_combo : string;
  filesize_value2_edit : string;
  filesize_unit2_combo : string;
  per_page_spin : Z
}.

(** The entries of the duration and file-size operator boxes, by index. *)
Definition operator_items : list string :=
  [ "= (equals)"; "!= (not equals)"; "> (greater than)";
    ">= (greater than or equal)"; "< (less than)";
    "<= (less than or equal)"; "between" ].

(** [operator_map] of [on_search_scenes] (duration); a missing key raises. *)
Definition duration_operator_map (i : Z) : result string :=
  match i with
  | 0 => Ok "EQUALS"
  | 1 => Ok "NOT_EQUALS"
  | 2 => Ok "GREATER_THAN"
  | 3 => Ok "GREATER_THAN"
  | 4 => Ok "LESS_THAN"
  | 5 => Ok "LESS_THAN"
  | 6 => Ok "BETWEEN"
  | _ => Raise KeyError
  end.

(** [resolution_map.get(i)] *)
Definition resolution_map (i : Z) : option string :=
  match i with
  | 0 => Some "VERY_LOW"
  | 1 => Some "LOW"
  | 2 => Some "STANDARD"
  | 3 => Some "STANDARD_HD"
  | 4 => Some "FULL_HD"
  | 5 => Some "QUAD_HD"
  | 6 => Some "VR_HD"
  | 7 => Some "FOUR_K"
  | 8 => Some "FIVE_K"
  | 9 => Some "SIX_K"
  | 10 => Some "EIGHT_K"
  | _ => None
  end.

Definition resolution_operator_map (i : Z) : result string :=
  match i with
  | 0 => Ok "EQUALS"
  | 1 => Ok "NOT_EQUALS"
  | 2 => Ok "GREATER_THAN"
  | 3 => Ok "LESS_THAN"
  | _ => Raise KeyError
  end.

(** [operator_map] of [_on_scenes_found] (file size). *)
Definition filesize_operator_map (i : Z) : result string :=
  match i with
  | 0 => Ok "EQUALS"
  | 1 => Ok "NOT_EQUALS"
  | 2 => Ok "GREATER_THAN"
  | 3 => Ok "GREATER_THAN"
  | 4 => Ok "LESS_THAN"
  | 5 => Ok "LESS_THAN"
  | 6 => Ok "BETWEEN"
  | _ => Raise KeyError
  end.

(** How a handler ends: a message box and an early [return], or its normal
    end with a payload. *)
Inductive ending (A : Type) : Type :=
| MessageBox (title : string)
| Done (a : A).
Arguments MessageBox {A} title.
Arguments Done {A} a.

(** The duration block: operator and the two values. *)
Definition read_duration (f : form) : result (ending (string * option Z * option Z)) :=
  if enable_duration_filter_checkbox f then
    duration_operator <- duration_operator_map (duration_operator_combo f) ;;
    let value1_input := strip (duration_value1_edit f) in
    if is_empty value1_input then Ok (MessageBox "Missing value")
    else
      duration_value1 <- parse_duration_input value1_input ;;
      match duration_value1 with
      | None => Ok (MessageBox "Invalid duration")
      | Some v1 =>
          if String.eqb duration_operator "BETWEEN" then
            let value2_input := strip (duration_value2_edit f) in
            if is_empty value2_input then Ok (MessageBox "Missing value")
            else
              duration_value2 <- parse_duration_input value2_input ;;
              match duration_value2 with
              | None => Ok (MessageBox "Invalid duration")
              | Some v2 => Ok (Done (duration_operator, Some v1, Some v2))
              end
          else Ok (Done (duration_operator, Some v1, None))
      end
  else Ok (Done ("BETWEEN", None, None)).

(** [on_search_scenes]: the worker handed to the pool, unless a message box
    ends the handler first. *)
Definition on_search_scenes (f : form) : result (ending SearchScenesWorker) :=
  if is_empty (strip (graphql_url f)) then Ok (MessageBox "Config error")
  else
    let search_term := strip (search_edit f) in
    let performer_ids := selected_performers f in
    let performer_logic := if performer_logic_combo f =? 0 then "AND" else "OR" in
    let studio_id :=
      match selected_studio f with
      | Some st => ref_id st
      | None => None
      end in
    let date_from :=
      if enable_date_filter_checkbox f then Some (date_from_edit f) else None in
    let date_to :=
      if enable_date_filter_checkbox f then Some (date_to_edit f) else None in
    dur <- read_duration f ;;
    match dur with
    | MessageBox t => Ok (MessageBox t)
    | Done (duration_operator, duration_value1, duration_value2) =>
        let path_query :=
          if enable_path_filter_checkbox f then Some (strip (path_search_edit f))
          else None in
        if enable_path_filter_checkbox f && negb (truthy path_query)
        then Ok (MessageBox "Missing value")
        else
          let resolution_enabled := enable_resolution_filter_checkbox f in
          res <- (if resolution_enabled then
                    op <- resolution_operator_map (resolution_operator_combo f) ;;
                    Ok (resolution_map (resolution_combo f), op)
                  else Ok (None, "EQUALS")) ;;
          let '(resolution_enum, resolution_operator) := res in
          if is_empty search_term
             && match performer_ids with [] => true | _ => false end
             && negb (truthy studio_id)
             && negb (truthy date_from || truthy date_to)
             && match duration_value1 with None => true | Some _ => false end
             && negb (enable_filesize_filter_checkbox f)
             && negb (truthy path_query)
             && negb resolution_enabled
          then Ok (MessageBox "Missing")
          else
            let per_page :=
              if enable_filesize_filter_checkbox f then 10000 else per_page_spin f in
            Ok (Done {| search_term := search_term;
                        performer_ids := performer_ids;
                        performer_logic := performer_logic;
                        studio_id := studio_id;
                        date_from := date_from;
                        date_to := date_to;
                        duration_value1 := duration_value1;
                        duration_value2 := duration_value2;
                        duration_operator := duration_operator;
                        path_query := path_query;
                        resolution_enum := resolution_enum;
                        resolution_operator := resolution_operator;
                        per_page := per_page |})
    end.

(** The local function [size_ok] of [_on_scenes_found]. *)
Definition size_ok (filesize_operator : string) (filesize_value1 : Z)
    (filesize_value2 : option Z) (s : scene) : bool :=
  match _filesize s with
  | None => false
  | Some fs =>
      if String.eqb filesize_operator "EQUALS" then fs =? filesize_value1
      else if String.eqb filesize_operator "NOT_EQUALS" then negb (fs =? filesize_value1)
      else if String.eqb filesize_operator "GREATER_THAN" then filesize_value1 <? fs
      else if String.eqb filesize_operator "LESS_THAN" then fs <? filesize_value1
      else if String.eqb filesize_operator "BETWEEN" then
        match filesize_value2 with
        | Some v2 => (filesize_value1 <=? fs) && (fs <=? v2)
        | None => false
        end
      else true
  end.

(** The file-size block of [_on_scenes_found]: operator and thresholds. *)
Definition read_filesize (f : form) : result (ending (string * Z * option Z)) :=
  filesize_operator <- filesize_operator_map (filesize_operator_combo f) ;;
  let value1_input := strip (filesize_value1_edit f) in
  if is_empty value1_input then Ok (MessageBox "Missing value")
  else
    filesize_value1 <- parse_filesize_input value1_input (filesize_unit1_combo f) ;;
    match filesize_value1 with
    | None => Ok (MessageBox "Invalid file size")
    | Some v1 =>
        if String.eqb filesize_operator "BETWEEN" then
          let value2_input := strip (filesize_value2_edit f) in
          if is_empty value2_input then Ok (MessageBox "Missing value")
          else
            filesize_value2 <- parse_filesize_input value2_input (filesize_unit2_combo f) ;;
            match filesize_value2 with
            | None => Ok (MessageBox "Invalid file size")
            | Some v2 => Ok (Done (filesize_operator, v1, Some v2))
            end
        else Ok (Done (filesize_operator, v1, None))
    end.

(** [_on_scenes_found]: the table the handler leaves behind, that is
    [setScenes(filtered)] followed by [select_all(True)]. *)
Definition _on_scenes_found (f : form) (table_model : SceneTableModel.model)
    (scenes : list scene) : result (ending SceneTableModel.model) :=
  filtered <- (if enable_filesize_filter_checkbox f then
                 r <- read_filesize f ;;
                 match r with
                 | MessageBox t => Ok (MessageBox t)
                 | Done (op, v1, v2) => Ok (Done (filter (size_ok op v1 v2) scenes))
                 end
               else Ok (Done scenes)) ;;
  match filtered with
  | MessageBox t => Ok (MessageBox t)
  | Done l =>
      Ok (Done (SceneTableModel.select_all (SceneTableModel.setScenes table_model l) true))
  end.

End MainWindow.

(* ================================================================== *)
(** ** Vocabulary of the specification *)
(* ================================================================== *)

Module Spec.
Import Py Graph Helpers Workers.
Open Scope string_scope.
Open Scope Z_scope.

(** The operator set of the duration and file-size criteria. *)
Inductive operator : Set :=
| Equals | NotEquals | GreaterThan | GreaterOrEqual
| LessThan | LessOrEqual | Between.

(** Position of each operator in the two operator boxes. *)
Definition combo_index (op : operator) : Z :=
  match op with
  | Equals => 0
  | NotEquals => 1
  | GreaterThan => 2
  | GreaterOrEqual => 3
  | LessThan => 4
  | LessOrEqual => 5
  | Between => 6
  end.

Definition symbol (op : operator) : string :=
  match op with
  | Equals => "="
  | NotEquals => "!="
  | GreaterThan => ">"
  | GreaterOrEqual => ">="
  | LessThan => "<"
  | LessOrEqual => "<="
  | Between => "between"
  end.

(** The first word of a box entry, as the log lines take it with
    [currentText().split()[0]]. *)
Definition first_word (s : string) : string :=
  match split " " s with
  | w :: _ => w
  | [] => ""
  end.

(** The server modifier the specification assigns to each operator: the two
    non-strict comparisons are sent as the strict ones. *)
Definition server_modifier (op : operator) : string :=
  match op with
  | Equals => "EQUALS"
  | NotEquals => "NOT_EQUALS"
  | GreaterThan | GreaterOrEqual => "GREATER_THAN"
  | LessThan | LessOrEqual => "LESS_THAN"
  | Between => "BETWEEN"
  end.

(** The exact meaning of an operator on integers, as the specification
    words the client-side predicate. *)
Definition exact_holds (op : operator) (x v1 : Z) (v2 : option Z) : bool :=
  match op with
  | Equals => x =? v1
  | NotEquals => negb (x =? v1)
  | GreaterThan => v1 <? x
  | GreaterOrEqual => v1 <=? x
  | LessThan => x <? v1
  | LessOrEqual => x <=? v1
  | Between => match v2 with Some b => (v1 <=? x) && (x <=? b) | None => false end
  end.

(** What the client-side file-size predicate does with each operator: as
    [exact_holds], except that the two non-strict comparisons are strict. *)
Definition client_holds (op : operator) (x v1 : Z) (v2 : option Z) : bool :=
  match op with
  | GreaterOrEqual => v1 <? x
  | LessOrEqual => x <? v1
  | _ => exact_holds op x v1 v2
  end.

(** Outcomes of one kind in a list of per-record outcomes. *)
Definition outcome_eqb (a b : Workers.outcome) : bool :=
  match a, b with
  | Workers.Updated, Workers.Updated
  | Workers.AlreadySatisfied, Workers.AlreadySatisfied
  | Workers.SkippedMissingReference, Workers.SkippedMissingReference
  | Workers.Failed, Workers.Failed => true
  | _, _ => false
  end.

Definition count (o : Workers.outcome) (os : list Workers.outcome) : nat :=
  List.length (filter (outcome_eqb o) os).

(** A summary counts a list of outcomes: one counter per kind. *)
Definition counts_of (s : summary) (os : list Workers.outcome) : Prop :=
  updated s = count Workers.Updated os /\
  already s = count Workers.AlreadySatisfied os /\
  skipped_deleted s = count Workers.SkippedMissingReference os /\
  failed s = count Workers.Failed os.

(** The request a tag-apply run sends for a record: the existing tag ids
    followed by the new one. *)
Definition tag_request (tag_id : pyid) (s : scene) : request :=
  SetTagIds (scene_id s) (current_ids (scene_tags s) ++ [tag_id])%list.

(** The record does not carry the tag yet. *)
Definition lacks_tag (tag_id : pyid) (s : scene) : bool :=
  if in_dec pyid_eq_dec tag_id (current_ids (scene_tags s)) then false else true.

(** A substring equal to [needle] up to the case of its letters. *)
Definition occurs_ignoring_case (needle text : string) : Prop :=
  exists pre mid post : chars,
    of_string text = (pre ++ mid ++ post)%list /\
    map to_upper mid = of_string needle.

(** A computation of a worker that ends without raising, whatever the
    network does. *)
Definition never_raises {W A} (c : Workers.M W A) : Prop :=
  forall n, exists a n', c n = (Ok a, n').

(** [e] is an entry of [errors] that yields the message [m]: an object whose
    [message] is the string [m], or an object without [message], printed. *)
Definition message_of (py_str : json -> string) (e : json) (m : string) : Prop :=
  exists eo, e = JObj eo /\
    (assoc "message" eo = Some (JStr m) \/
     (assoc "message" eo = None /\ m = py_str e)).

(** The error text of a response: the messages of its [errors] list joined
    by [; ], or the whole response printed as JSON when there is none. *)
Definition error_text (json_dumps py_str : json -> string) (resp : json)
    (t : string) : Prop :=
  exists o, resp = JObj o /\
    ((assoc "errors" o = None /\ t = json_dumps resp) \/
     (exists es msgs,
        assoc "errors" o = Some (JArr es) /\
        Forall2 (message_of py_str) es msgs /\
        t = match msgs with
            | [] => json_dumps resp
            | _ => join "; " msgs
            end)).

(** The response does not confirm the update of [scene_id], and its [data]
    entry is absent or an object whose [sceneUpdate] entry is absent or an
    object. *)
Definition unconfirmed (resp : json) (scene_id : pyid) : Prop :=
  exists o, resp = JObj o /\
    (assoc "data" o = None \/
     exists d, assoc "data" o = Some (JObj d) /\
       ((assoc "sceneUpdate" d = None /\ scene_id <> None) \/
        exists u, assoc "sceneUpdate" d = Some (JObj u) /\
          json_eq_id (match assoc "id" u with Some i => i | None => JNull end)
                     scene_id = false)).

(** *** The selection table *)

(** The selection vector is as long as the record list. *)
Definition aligned (m : SceneTableModel.model) : Prop :=
  List.length (SceneTableModel._checked m) = List.length (SceneTableModel._scenes m).

(** One operation of the table: replace the records, toggle a row, set all
    bits, select by identifiers, sort, change the visible columns.  An
    operation that raises leaves no new state. *)
Inductive table_step : SceneTableModel.model -> SceneTableModel.model -> Prop :=
| step_setScenes m scenes :
    table_step m (SceneTableModel.setScenes m scenes)
| step_setData m index value role flag m' :
    SceneTableModel.setData m index value role = Ok (flag, m') ->
    table_step m m'
| step_select_all m val :
    table_step m (SceneTableModel.select_all m val)
| step_select_by_ids m id_set m' :
    SceneTableModel.select_by_ids m id_set = Ok m' ->
    table_step m m'
| step_sort m column order :
    table_step m (SceneTableModel.sort m column order)
| step_set_visible_columns m visible_indices :
    table_step m (SceneTableModel.set_visible_columns m visible_indices).

(** The states a table goes through from its construction. *)
Inductive reachable : SceneTableModel.model -> Prop :=
| reach_init scenes : reachable (SceneTableModel.__init__ scenes)
| reach_step m m' : reachable m -> table_step m m' -> reachable m'.

(** Each record next to its selection bit. *)
Definition rows (m : SceneTableModel.model) : list (scene * bool) :=
  combine (SceneTableModel._scenes m) (SceneTableModel._checked m).

(** A sequence of sort requests, first to last. *)
Definition sorts (m : SceneTableModel.model)
    (requests : list (Z * SceneTableModel.SortOrder)) : SceneTableModel.model :=
  fold_left (fun m r => SceneTableModel.sort m (fst r) (snd r)) requests m.

(** *** The record normaliser *)

(** The values one field contributes over the files of a scene, in file
    order: what [read] makes of each file's field. *)
Definition parsed {X} (read : pyval -> list X) (field : file_entry -> pyval)
    (s : scene) : list X :=
  flat_map (fun f => read (field f)) (scene_files s).

(** [o] is the maximum of [l]: one of its items, with none greater; nothing
    when [l] is empty. *)
Definition is_max {X} (gt : X -> X -> bool) (l : list X) (o : option X) : Prop :=
  match o with
  | Some m => In m l /\ forall x, In x l -> gt x m = false
  | None => l = []
  end.

Definition no_path (f : file_entry) : Prop :=
  f_path f = None \/ f_path f = Some "".

(** [o] is the path of the first file that has a non-empty one. *)
Definition first_path (files : list file_entry) (o : option string) : Prop :=
  match o with
  | Some p =>
      exists pre f post,
        files = (pre ++ f :: post)%list /\ Forall no_path pre /\
        f_path f = Some p /\ p <> ""
  | None => Forall no_path files
  end.

(** The label the specification gives a height, by its first matching
    threshold. *)
Inductive label_for (h : Z) : string -> Prop :=
| label_4k : 2160 <= h -> label_for h "4K"
| label_1440 : 1440 <= h < 2160 -> label_for h "1440p"
| label_1080 : 1080 <= h < 1440 -> label_for h "1080p"
| label_720 : 720 <= h < 1080 -> label_for h "720p"
| label_480 : 480 <= h < 720 -> label_for h "480p"
| label_other : h < 480 -> label_for h (str_of_int h ++ "p").

(** A rank for the floats that are not NaN, ordered lexicographically as
    [SFcompare] orders them: the class first, then exponent and mantissa. *)
Definition float_rank (x : pyfloat) : option (Z * Z * Z) :=
  match x with
  | S754_nan => None
  | S754_infinity true => Some (-2, 0, 0)
  | S754_finite true m e => Some (-1, - e, - Zpos m)
  | S754_zero _ => Some (0, 0, 0)
  | S754_finite false m e => Some (1, e, Zpos m)
  | S754_infinity false => Some (2, 0, 0)
  end.

Definition rank_lt (a b : Z * Z * Z) : Prop :=
  let '(a1, a2, a3) := a in
  let '(b1, b2, b3) := b in
  a1 < b1 \/ (a1 = b1 /\ (a2 < b2 \/ (a2 = b2 /\ a3 < b3))).

(** *** Numbers *)

(** The index of a unit in the list B, KB, MB, GB. *)
Definition unit_index (u : string) : option Z :=
  if String.eqb u "B" then Some 0
  else if String.eqb u "KB" then Some 1
  else if String.eqb u "MB" then Some 2
  else if String.eqb u "GB" then Some 3
  else None.

(** The integer part of [(-1)^s * m * 2^e], rounded towards zero. *)
Definition scaled_trunc (s : bool) (m : positive) (e : Z) : Z :=
  cond_Zopp s (if 0 <=? e then Zpos m * 2 ^ e else Zpos m / 2 ^ (- e)).

(** The number of bits of a finite float's magnitude: [m * 2^e < 2^bits]. *)
Definition magnitude_bits (m : positive) (e : Z) : Z :=
  Zpos (digits2_pos m) + e.

(** A string of decimal digits, and the number it writes. *)
Definition all_digits (s : string) : Prop :=
  s <> "" /\ forallb is_digit (of_string s) = true.

Definition number (s : string) : Z := digits_value (of_string s).

(** A field short enough for [int()] to convert. *)
Definition convertible (s : string) : Prop :=
  (List.length (of_string s) <= int_max_str_digits)%nat.

(** *** Strings that are no duration *)





(** Mantissa [m] at exponent [e] is as the format writes it: [e] is the
    exponent the format gives a number of that size. *)
Definition canonical_at (m e : Z) : Prop :=
  fexp prec emax (Zdigits2 m + e) = e.

(** A right-shift record with no bit lost so far. *)
Definition exact_record (z : Z) : shr_record :=
  {| shr_m := z; shr_r := false; shr_s := false |}.

(** The exact value the specification gives a typed size: the decimal
    [m * 10 ^ e10] times [1024 ^ k], rounded towards zero. *)
Definition exact_filesize (m e10 k : Z) : Z :=
  if 0 <=? e10 then m * 10 ^ e10 * 1024 ^ k
  else Z.quot (m * 1024 ^ k) (10 ^ (- e10)).

End Spec.

(* ================================================================== *)
(** ** Concrete forms, scenes and clients *)
(* ================================================================== *)

Module Scenarios.
Import Py Graph Helpers Workers MainWindow Spec.
Open Scope string_scope.
Open Scope Z_scope.

(** A form with every filter off except those given: the duration block
    and the file-size block. *)
Definition make_form (duration_on : bool) (duration_op : Z) (d1 d2 : string)
    (filesize_on : bool) (filesize_op : Z) (s1 u1 s2 u2 : string) : form :=
  {| graphql_url := "http://localhost:9999/graphql";
     search_edit := "";
     selected_performers := [];
     performer_logic_combo := 0;
     selected_studio := None;
     enable_date_filter_checkbox := false;
     date_from_edit := "2000-01-01";
     date_to_edit := "2000-01-01";
     enable_duration_filter_checkbox := duration_on;
     duration_operator_combo := duration_op;
     duration_value1_edit := d1;
     duration_value2_edit := d2;
     enable_path_filter_checkbox := false;
     path_search_edit := "";
     enable_resolution_filter_checkbox := false;
     resolution_combo := 0;
     resolution_operator_combo := 0;
     enable_filesize_filter_checkbox := filesize_on;
     filesize_operator_combo := filesize_op;
     filesize_value1_edit := s1;
     filesize_unit1_combo := u1;
     filesize_value2_edit := s2;
     filesize_unit2_combo := u2;
     per_page_spin := 100 |}.

(** Duration [>= 600]. *)
Definition form_duration_ge_600 : form :=
  make_form true 3 "600" "" false 6 "" "MB" "" "MB".

Definition worker_duration_ge_600 : SearchScenesWorker :=
  {| search_term := "";
     performer_ids := [];
     performer_logic := "AND";
     studio_id := None;
     date_from := None;
     date_to := None;
     duration_value1 := Some 600;
     duration_value2 := None;
     duration_operator := "GREATER_THAN";
     path_query := None;
     resolution_enum := None;
     resolution_operator := "EQUALS";
     per_page := 100 |}.

(** File size [>= 100 B] and [<= 100 B]. *)
Definition form_size_ge_100 : form :=
  make_form false 6 "" "" true 3 "100" "B" "" "B".

Definition form_size_le_100 : form :=
  make_form false 6 "" "" true 5 "100" "B" "" "B".

Definition worker_size_ge_100 : SearchScenesWorker :=
  {| search_term := "";
     performer_ids := [];
     performer_logic := "AND";
     studio_id := None;
     date_from := None;
     date_to := None;
     duration_value1 := None;
     duration_value2 := None;
     duration_operator := "BETWEEN";
     path_query := None;
     resolution_enum := None;
     resolution_operator := "EQUALS";
     per_page := 10000 |}.

(** A scene as the server sends it, before normalisation. *)
Definition raw_scene (id : string) (tags : list ref) (studio : option ref)
    (files : list file_entry) : scene :=
  {| scene_id := Some id;
     scene_title := Some ("Scene " ++ id);
     scene_date := None;
     scene_tags := tags;
     scene_performers := [];
     scene_studio := studio;
     scene_files := files;
     _filesize := None;
     _duration := None;
     _path := None;
     _width := None;
     _height := None;
     _resolution := None |}.

(** A normalised scene of which only the size matters. *)
Definition sized_scene (id : string) (size : Z) : scene :=
  {| scene_id := Some id;
     scene_title := Some ("Scene " ++ id);
     scene_date := None;
     scene_tags := [];
     scene_performers := [];
     scene_studio := None;
     scene_files := [];
     _filesize := Some size;
     _duration := None;
     _path := None;
     _width := None;
     _height := None;
     _resolution := None |}.

Definition tag (id name : string) : ref :=
  {| ref_id := Some id; ref_name := Some name |}.

(** Two files: sizes 100 and 250, durations 10 and 40, heights 720 and 1080. *)
Definition two_file_scene : scene :=
  raw_scene "1" [] None
    [ {| f_size := VInt 100; f_duration := VInt 10; f_width := VInt 1280;
         f_height := VInt 720; f_path := Some "/a.mp4" |};
      {| f_size := VInt 250; f_duration := VInt 40; f_width := VInt 1920;
         f_height := VInt 1080; f_path := Some "/b.mp4" |} ].

(** A first file without path and with height 0, then a file with a path. *)
Definition odd_scene : scene :=
  raw_scene "2" [] None
    [ {| f_size := VInt 100; f_duration := VNone; f_width := VInt 0;
         f_height := VInt 0; f_path := None |};
      {| f_size := VStr "n/a"; f_duration := VNone; f_width := VNone;
         f_height := VNone; f_path := Some "/b.mp4" |} ].

(** The library printers, for runs in which nothing is printed. *)
Definition no_print (j : json) : string := "".

(** A server that answers every request with the same body. *)
Definition answering (resp : json) : endpoint unit :=
  fun _ w => (Ok {| status_code := 200; body := Some resp |}, w).

(** A client object with both methods, answering [resp] to everything. *)
Definition duck_client (resp : json) : client unit :=
  {| call := fun _ w => (Ok resp, w);
     call_graphql := Some (fun _ w => (Ok resp, w)) |}.

Definition foreign_key_response : json :=
  JObj [("errors", JArr [JObj [("message", JStr "FOREIGN KEY constraint failed")]])].

(** The same error as a server sends it along with a null result. *)
Definition foreign_key_null_response : json :=
  JObj [("errors", JArr [JObj [("message", JStr "FOREIGN KEY constraint failed")]]);
        ("data", JObj [("sceneUpdate", JNull)])].

Definition updated_response (id : string) : json :=
  JObj [("data", JObj [("sceneUpdate", JObj [("id", JStr id)])])].

Definition offline : net unit := {| world := tt; sent := [] |}.


(** A table of two rows, the second one ticked. *)
Definition two_rows : SceneTableModel.model :=
  {| SceneTableModel._scenes := [sized_scene "1" 300; sized_scene "2" 100];
     SceneTableModel._checked := [false; true];
     SceneTableModel._visible_columns := SceneTableModel.DEFAULT_VISIBLE;
     SceneTableModel._sort_column := -1;
     SceneTableModel._sort_order := SceneTableModel.AscendingOrder |}.

End Scenarios.

(* ================================================================== *)
(** ** More built-ins: [str.split] with a limit, list methods, ["%.2f"] *)
(* ================================================================== *)

Module Builtins.
Import Py Graph.
Open Scope string_scope.
Open Scope Z_scope.

(** The cut at the first separator, when there is one. *)
Fixpoint cut_chars (sep : ascii) (l : chars) : option (chars * chars) :=
  match l with
  | [] => None
  | c :: tl =>
      if Ascii.eqb c sep then Some ([], tl)
      else match cut_chars sep tl with
           | Some (a, b) => Some (c :: a, b)
           | None => None
           end
  end.

(** [s.split(sep, 1)] for a one-character separator: at most one cut. *)
Definition split_once (sep : ascii) (s : string) : list string :=
  match cut_chars sep (of_string s) with
  | Some (a, b) => [to_string a; to_string b]
  | None => [s]
  end.

(** [s.startswith(p)] *)
Definition startswith (s p : string) : bool :=
  prefix_chars (of_string p) (of_string s).

(** [l[i]] for any integer index: a negative one counts from the end. *)
Definition item_at {A} (l : list A) (i : Z) : result A :=
  let n := Z.of_nat (List.length l) in
  let j := if i <? 0 then i + n else i in
  if (j <? 0) || (n <=? j) then Raise IndexError
  else match nth_error l (Z.to_nat j) with
       | Some a => Ok a
       | None => Raise IndexError
       end.

(** [l.index(x)]: the first position of [x], [ValueError] without one. *)
Fixpoint list_index (x : Z) (l : list Z) : result nat :=
  match l with
  | [] => Raise ValueError
  | y :: tl => if y =? x then Ok O else i <- list_index x tl ;; Ok (S i)
  end.

(** [l.remove(x)]: drops the first [x], [ValueError] without one. *)
Fixpoint list_remove (x : Z) (l : list Z) : result (list Z) :=
  match l with
  | [] => Raise ValueError
  | y :: tl => if y =? x then Ok tl else tl' <- list_remove x tl ;; Ok (y :: tl')
  end.

(** [x in l] for integers. *)
Definition int_in (x : Z) (l : list Z) : bool := existsb (Z.eqb x) l.

(** [list(enumerate(l))] *)
Definition enumerate {A} (l : list A) : list (Z * A) :=
  combine (map Z.of_nat (seq 0 (List.length l))) l.

(** [num / den] rounded to the nearest integer, ties to the even one
    ([den > 0], [num >= 0]). *)
Definition div_half_even (num den : Z) : Z :=
  let q := num / den in
  let r := num mod den in
  if (den <? 2 * r) || ((2 * r =? den) && Z.odd q) then q + 1 else q.

(** Two decimal places of a number of hundredths. *)
Definition two_digits (n : Z) : string :=
  if n <? 10 then "0" ++ str_of_int n else str_of_int n.

(** [f"{x:.2f}"]: the exact value of the float, rounded to two decimals
    (ties to even), all integer digits written out. *)
Definition format_2f (x : pyfloat) : string :=
  match x with
  | S754_nan => "nan"
  | S754_infinity s => if s then "-inf" else "inf"
  | S754_zero s => if s then "-0.00" else "0.00"
  | S754_finite s m e =>
      let hundredths :=
        if 0 <=? e then Zpos m * 2 ^ e * 100
        else div_half_even (Zpos m * 100) (2 ^ (- e)) in
      (if s then "-" else "")
        ++ str_of_int (hundredths / 100) ++ "." ++ two_digits (hundredths mod 100)
  end.

(** [j[i]] for an integer position [i >= 0]. *)
Definition json_index (j : json) (i : nat) : result json :=
  match j with
  | JArr l => match nth_error l i with Some v => Ok v | None => Raise IndexError end
  | JStr s => match nth_error (of_string s) i with
              | Some c => Ok (JStr (String c EmptyString))
              | None => Raise IndexError
              end
  | JObj _ => Raise KeyError
  | _ => Raise TypeError
  end.

(** [j == z] for an integer [z]: a number equal to it, or the boolean that
    counts as it. *)
Definition json_eq_int (j : json) (z : Z) : bool :=
  match j with
  | JNum x => x =? z
  | JBool b => (if b then 1 else 0) =? z
  | _ => false
  end.



End Builtins.

(* ================================================================== *)
(** ** What the table shows: [human_size], [human_duration] and the
       read side of [models/scene_table_model.py] *)
(* ================================================================== *)

Module Display.
Import Py Graph Builtins SceneTableModel.
Open Scope string_scope.
Open Scope Z_scope.

(** The float [1024.0]. *)
Definition float_1024 : pyfloat := S754_finite false 4503599627370496 (-42).

(** [b >= 1024] for a float [b]. *)
Definition at_least_1024 (b : pyfloat) : bool :=
  match float_cmp_int b 1024 with
  | Some Gt | Some Eq => true
  | _ => false
  end.

(** The [while] loop of [human_size]: [unit] is [units[idx]] and [rest] the
    units after it; the loop stops at the last unit. *)
Fixpoint scale_down (b : pyfloat) (unit : string) (rest : list string)
    : pyfloat * string :=
  match rest with
  | next :: rest' =>
      if at_least_1024 b then scale_down (SFdiv prec emax b float_1024) next rest'
      else (b, unit)
  | [] => (b, unit)
  end.

Definition human_size (num_bytes : option Z) : string :=
  match num_bytes with
  | None => "Unknown"
  | Some n =>
      match float_of_int n with
      | Raise _ => "Unknown"
      | Ok b =>
          match float_cmp_int b 0 with
          | Some Lt => "Unknown"
          | _ =>
              let '(b, unit) := scale_down b "B" ["KB"; "MB"; "GB"; "TB"; "PB"] in
              format_2f b ++ " " ++ unit
          end
      end
  end.

Definition human_duration (seconds : option pyfloat) : string :=
  match seconds with
  | None => "Unknown"
  | Some f =>
      match int_of_float f with
      | Raise _ => "Unknown"
      | Ok total_secs =>
          if total_secs <? 0 then "Unknown"
          else
            let hours := total_secs / 3600 in
            let minutes := (total_secs mod 3600) / 60 in
            let secs := total_secs mod 60 in
            if 0 <? hours then
              str_of_int hours ++ "h " ++ str_of_int minutes ++ "m "
                ++ str_of_int secs ++ "s"
            else if 0 <? minutes then
              str_of_int minutes ++ "m " ++ str_of_int secs ++ "s"
            else str_of_int secs ++ "s"
      end
  end.

Definition ALL_COLUMNS : list string :=
  [ "Select"; "ID"; "Title"; "Studio"; "Performers"; "Tags";
    "Date"; "Path"; "Duration"; "Dimensions"; "Resolution"; "File Size" ].

Definition get_visible_headers (m : model) : result (list string) :=
  map_result (item_at ALL_COLUMNS) (_visible_columns m).

Definition get_visible_column_index (m : model) (all_columns_index : Z) : option nat :=
  match list_index all_columns_index (_visible_columns m) with
  | Ok i => Some i
  | Raise _ => None
  end.

Definition rowCount (m : model) : nat := List.length (_scenes m).

Definition columnCount (m : model) : nat := List.length (_visible_columns m).

(** What [data] returns: nothing, a check state, or a text.  A text cell
    holds what [scene.get(key, "")] gives: the stored string, or [None] for
    a stored null (the scenes of the search worker have every key, so the
    default of [get] stays unused). *)
Inductive cell : Type :=
| NoData
| StateCell (st : CheckState)
| TextCell (text : option string).

(** The names shown in the Performers and Tags cells. *)
Definition shown_names (l : list ref) : string := join ", " (truthy_names l).

Definition data (m : model) (index : QModelIndex) (role : ItemDataRole) : result cell :=
  match index with
  | None => Ok NoData
  | Some (r, c) =>
      scene <- item (_scenes m) r ;;
      actual_col <- item (_visible_columns m) c ;;
      match role, actual_col with
      | CheckStateRole, 0 =>
          checked <- item (_checked m) r ;;
          Ok (StateCell (if checked : bool then Checked else Unchecked))
      | DisplayRole, 1 => Ok (TextCell (scene_id scene))
      | DisplayRole, 2 => Ok (TextCell (scene_title scene))
      | DisplayRole, 3 =>
          match scene_studio scene with
          | Some studio => Ok (TextCell (ref_name studio))
          | None => Ok (TextCell (Some ""))
          end
      | DisplayRole, 4 => Ok (TextCell (Some (shown_names (scene_performers scene))))
      | DisplayRole, 5 => Ok (TextCell (Some (shown_names (scene_tags scene))))
      | DisplayRole, 6 => Ok (TextCell (scene_date scene))
      | DisplayRole, 7 => Ok (TextCell (_path scene))
      | DisplayRole, 8 => Ok (TextCell (Some (human_duration (_duration scene))))
      | DisplayRole, 9 =>
          match _width scene, _height scene with
          | Some w, Some h =>
              if negb (w =? 0) && negb (h =? 0)
              then Ok (TextCell (Some (str_of_int w ++ "x" ++ str_of_int h)))
              else Ok (TextCell (Some ""))
          | _, _ => Ok (TextCell (Some ""))
          end
      | DisplayRole, 10 => Ok (TextCell (_resolution scene))
      | DisplayRole, 11 =>
          match _filesize scene with
          | None => Ok (TextCell (Some ""))
          | Some fs => Ok (TextCell (Some (human_size (Some fs))))
          end
      | _, _ => Ok NoData
      end
  end.

End Display.

(* ================================================================== *)
(** ** Looking a tag up and creating it: [workers/fetch_tag_worker.py],
       [GraphQLClient.create_tag] and [_on_tag_error] *)
(* ================================================================== *)

Module Lookup.
Import Py Graph Builtins.
Open Scope string_scope.
Open Scope Z_scope.

(** The queries of the lookup side, by their variables. *)
Inductive query : Type :=
| FindTags (name : string)
| TagCreate (name : string).

(** The text a worker emits on [signals.error]: one it builds itself, or the
    [str(e)] of an exception it caught. *)
Inductive error_message : Type :=
| Message (text : string)
| StrOf (e : pyexn).

(** What a run emits before [finished]: a result or an error. *)
Inductive signal : Type :=
| result_signal (payload : json)
| error_signal (msg : error_message).

(** The message boxes of [_on_tag_error], with the values they show. *)
Inductive tag_box : Type :=
| CreateTagQuestion (tagname : string)
| TagCreated (tagname : string) (created_id : json)
| CreateFailed (e : pyexn)
| TagMissing (tagname : string)
| GraphQLError (msg : string).

(** [last_tag_id] and [last_tag_name] of the window. *)
Record tag_state := { last_tag_id : json; last_tag_name : json }.

Section Client.
Variable World : Type.
  (** The [call] method of the client, on these queries. *)
Variable call : query -> World -> result json * World.

  (** The body of the [try] in [FetchTagWorker.run]: [Some] of id and name,
      or [None] when the server counts no tag of that name. *)
Definition find_tag (data : json) : result (option (json * json)) :=
    has_data <- json_contains "data" data ;;
    well_formed <- (if has_data : bool then
                      d <- json_item data "data" ;;
                      json_contains "findTags" d
                    else Ok false) ;;
    if negb well_formed then Raise RuntimeError
    else
      d <- json_item data "data" ;;
      found <- json_item d "findTags" ;;
      count <- json_item found "count" ;;
      if json_eq_int count 0 then Ok None
      else
        tags <- json_item found "tags" ;;
        tag <- json_index tags 0 ;;
        tag_id <- json_item tag "id" ;;
        tag_name <- json_get tag "name" (JStr "") ;;
        Ok (Some (tag_id, tag_name)).

Definition FetchTagWorker_run (tag_name : string) (w : World) : signal * World :=
    let '(r, w') := call (FindTags tag_name) w in
    (match data <- r ;; find_tag data with
     | Ok (Some (tag_id, name)) => result_signal (JObj [("id", tag_id); ("name", name)])
     | Ok None => error_signal (Message ("TAG_NOT_FOUND:" ++ tag_name))
     | Raise e => error_signal (StrOf e)
     end, w').

  (** [GraphQLClient.create_tag] *)
Definition create_tag (tag_name : string) (w : World) : result json * World :=
    let '(r, w') := call (TagCreate tag_name) w in
    (resp <- r ;;
     has_data <- json_contains "data" resp ;;
     created <- (if has_data : bool then
                   d <- json_item resp "data" ;;
                   tc <- json_get d "tagCreate" (JObj []) ;;
                   i <- json_get tc "id" JNull ;;
                   Ok (json_truthy i)
                 else Ok false) ;;
     if created : bool then
       d <- json_item resp "data" ;;
       tc <- json_item d "tagCreate" ;;
       json_item tc "id"
     else Raise RuntimeError, w').

  (** [_on_tag_error]: [auto_create] is the check box and [reply_yes] the
      answer to the question, if it is asked.  Returns the boxes shown, in
      order, and the tag the window remembers afterwards. *)
Definition _on_tag_error (msg : string) (auto_create reply_yes : bool)
      (st : tag_state) (w : World) : result (list tag_box * tag_state) * World :=
    if startswith msg "TAG_NOT_FOUND:" then
      match split_once ":" msg with
      | _ :: tagname :: _ =>
          if auto_create then
            if reply_yes then
              match create_tag tagname w with
              | (Ok created_id, w') =>
                  (Ok ([CreateTagQuestion tagname; TagCreated tagname created_id],
                       {| last_tag_id := created_id; last_tag_name := JStr tagname |}), w')
              | (Raise e, w') =>
                  (Ok ([CreateTagQuestion tagname; CreateFailed e], st), w')
              end
            else (Ok ([CreateTagQuestion tagname], st), w)
          else (Ok ([TagMissing tagname], st), w)
      | _ => (Raise IndexError, w)
      end
    else (Ok ([GraphQLError msg], st), w).
End Client.

End Lookup.

(* ================================================================== *)
(** ** stashapp_graphgl.py: the client settings, the column dialog and the
       start of a tag run *)
(* ================================================================== *)

Module Settings.
Import Py Graph Builtins SceneTableModel Display.
Open Scope string_scope.
Open Scope Z_scope.



(** A row of the list in the column dialog: its text, the column index it
    carries and its check mark. *)
Record list_item := {
  item_text : string;
  item_data : Z;
  item_checked : bool
}.

(** The rows the dialog opens with: the visible columns in their order,
    ticked, then the hidden ones, unticked. *)
Definition dialog_items (m : model) : result (list list_item) :=
  shown <- map_result
             (fun col_idx =>
                col_name <- item_at ALL_COLUMNS col_idx ;;
                Ok {| item_text := col_name; item_data := col_idx;
                      item_checked := true |})
             (_visible_columns m) ;;
  let hidden :=
    flat_map
      (fun ic : Z * string =>
         let '(col_idx, col_name) := ic in
         if negb (int_in col_idx (_visible_columns m)) && negb (col_idx =? 0)
         then [{| item_text := col_name; item_data := col_idx;
                  item_checked := false |}]
         else [])
      (enumerate ALL_COLUMNS) in
  Ok (shown ++ hidden)%list.

(** [takeItem(row)] followed by [insertItem(to, item)]. *)
Definition move_item {A} (l : list A) (row to : nat) : list A :=
  match nth_error l row with
  | Some it =>
      let rest := (firstn row l ++ skipn (S row) l)%list in
      (firstn to rest ++ it :: skipn to rest)%list
  | None => l
  end.

(** The two buttons; [current_row] is the selected row, or [-1]. *)
Definition move_up {A} (l : list A) (current_row : Z) : list A * Z :=
  if 1 <? current_row then
    (move_item l (Z.to_nat current_row) (Z.to_nat (current_row - 1)), current_row - 1)
  else (l, current_row).

Definition move_down {A} (l : list A) (current_row : Z) : list A * Z :=
  if (1 <=? current_row) && (current_row <? Z.of_nat (List.length l) - 1) then
    (move_item l (Z.to_nat current_row) (Z.to_nat (current_row + 1)), current_row + 1)
  else (l, current_row).

(** The branch of [on_column_visibility] taken when the dialog is accepted:
    the ticked columns in dialog order, with the Select column put first. *)
Definition accept_columns (m : model) (items : list list_item) : result model :=
  let new_visible := map item_data (filter item_checked items) in
  new_visible <-
    (if negb (int_in 0 new_visible) then Ok (0 :: new_visible)
     else
       first <- item_at new_visible 0 ;;
       if negb (first =? 0) then
         removed <- list_remove 0 new_visible ;;
         Ok (0 :: removed)
       else Ok new_visible) ;;
  Ok (set_visible_columns m new_visible).

(** [on_apply_tag]: the arguments of the worker it starts (scenes, tag id,
    dry run), unless a box ends it first.  Without a remembered tag id the
    handler asks under the title "No tag ID" and returns, after starting a
    lookup of the tag on Yes; with no ticked row it warns under "No
    selection".  In neither case is a worker started. *)
Definition on_apply_tag (last_tag_id : pyid) (table_model : model)
    (dryrun_checkbox : bool) : MainWindow.ending (list scene * pyid * bool) :=
  if pyid_falsy last_tag_id then MainWindow.MessageBox "No tag ID"
  else
    match get_selected_scenes table_model with
    | [] => MainWindow.MessageBox "No selection"
    | selected => MainWindow.Done (selected, last_tag_id, dryrun_checkbox)
    end.

End Settings.

(* ================================================================== *)
(** ** Vocabulary of the further properties *)
(* ================================================================== *)

Module Properties.
Import Py Graph Helpers Workers Builtins SceneTableModel Display.
Open Scope string_scope.
Open Scope Z_scope.

(** A string of white space only. *)
Definition blank (s : string) : Prop := forallb is_space (of_string s) = true.

(** The units of [human_size], smallest first. *)
Definition size_units : list string := ["B"; "KB"; "MB"; "GB"; "TB"; "PB"].

(** [k] of the [i]-th unit is shown as [k.00] and that unit. *)
Definition shows_whole (k : Z) (i : nat) (unit : string) : bool :=
  String.eqb (human_size (Some (k * 1024 ^ Z.of_nat i)))
             (str_of_int k ++ ".00 " ++ unit).

(** *** Lookups and settings *)

(** The response counts no tag: [data.findTags.count] compares equal to 0. *)
Definition counts_no_tag (resp : json) : Prop :=
  exists o d found count,
    resp = JObj o /\ assoc "data" o = Some (JObj d) /\
    assoc "findTags" d = Some (JObj found) /\
    assoc "count" found = Some count /\ json_eq_int count 0 = true.

(** The columns ticked in the dialog, in dialog order. *)
Definition ticked_columns (items : list Settings.list_item) : list Z :=
  map Settings.item_data (filter Settings.item_checked items).

(** Another column than the Select column. *)
Definition data_column (c : Z) : bool := negb (c =? 0).



(** The number a resolution label stands for when the table sorts by it. *)
Definition label_rank (h : Z) : Z :=
  if 2160 <=? h then 4000
  else if 1440 <=? h then 1440
  else if 1080 <=? h then 1080
  else if 720 <=? h then 720
  else if 480 <=? h then 480
  else h.

(** The key of the Resolution column for a record of height [h]. *)
Definition resolution_key_of (h : Z) : sort_key_t :=
  KInt (try_except_all
          (int_of_str (replace "K" "000" (replace "p" "" (resolution_label h)))) 0).

(** *** Bulk runs *)

(** The record lacks one of the performers to assign. *)
Definition lacks_performer (performer_ids : list pyid) (s : scene) : bool :=
  negb (forallb (fun pid => existsb (pyid_eqb pid) (current_ids (scene_performers s)))
                performer_ids).

(** The studio of the record, as an identifier. *)
Definition current_studio (s : scene) : pyid :=
  match scene_studio s with
  | Some studio => ref_id studio
  | None => None
  end.

(** The record has an identifier and another studio than the one to assign. *)
Definition needs_studio (studio_id : pyid) (s : scene) : bool :=
  negb (pyid_falsy (scene_id s)) && negb (pyid_eqb (current_studio s) studio_id).

(** The outcome of a record in a dry run, for each kind of run. *)
Definition tag_preview (tag_id : pyid) (s : scene) : outcome :=
  if Spec.lacks_tag tag_id s then Updated else AlreadySatisfied.

Definition performer_preview (performer_ids : list pyid) (s : scene) : outcome :=
  if lacks_performer performer_ids s then Updated else AlreadySatisfied.

Definition studio_preview (studio_id : pyid) (s : scene) : outcome :=
  if pyid_falsy (scene_id s) then SkippedMissingReference
  else if pyid_eqb (current_studio s) studio_id then AlreadySatisfied
  else Updated.

(** The same when the update cannot be sent: what would be updated fails. *)
Definition studio_blocked (studio_id : pyid) (s : scene) : outcome :=
  match studio_preview studio_id s with
  | Updated => Failed
  | o => o
  end.

(** [rq] sets the performers of [s] to the distinct identifiers among the
    current ones and the ones to assign. *)
Definition unites_performers (performer_ids : list pyid) (s : scene) (rq : request) : Prop :=
  exists ids,
    rq = SetPerformerIds (scene_id s) ids /\
    NoDup ids /\
    forall x, In x ids <-> In x (current_ids (scene_performers s)) \/ In x performer_ids.

(** The summary that counts a list of outcomes. *)
Definition tally (os : list outcome) : summary :=
  fold_left (fun acc o => bump o acc) os summary0.

(** *** Sorting *)

(** [b] does not come before [a] in the order [lt]. *)
Definition not_after {A} (lt : A -> A -> bool) (a b : A) : Prop := lt b a = false.

(** [a] ties with [k]: neither is less than the other. *)
Definition tied {A} (lt : A -> A -> bool) (k a : A) : bool :=
  negb (lt k a) && negb (lt a k).

(** The key of a row (a record with its bit) in a column.  A record whose
    key raises stops every sort of that column before it compares anything;
    the empty string stands in for the key it does not have. *)
Definition row_key (actual_col : Z) (r : scene * bool) : sort_key_t :=
  match sort_key actual_col (fst r) with
  | Ok k => k
  | Raise _ => KStr ""
  end.

(** Every studio of the table has a name: no stored null. *)
Definition named_studios (m : model) : Prop :=
  forall s studio,
    In s (_scenes m) -> scene_studio s = Some studio -> ref_name studio <> None.

(** Text in the ASCII range, where [lower], [int()] and the comparison of
    strings are as the model has them. *)
Definition plain (s : string) : Prop :=
  forallb (fun c => (code c <? 128)%nat) (of_string s) = true.

Definition plain_field (o : option string) : Prop :=
  match o with
  | Some s => plain s
  | None => True
  end.

Definition plain_scene (s : scene) : Prop :=
  plain_field (scene_id s) /\ plain_field (scene_title s) /\
  plain_field (scene_date s) /\ plain_field (_path s) /\
  plain_field (_resolution s) /\
  (forall studio, scene_studio s = Some studio -> plain_field (ref_name studio)) /\
  (forall r, In r (scene_performers s) \/ In r (scene_tags s) ->
             plain_field (ref_name r)).

Definition plain_table (m : model) : Prop :=
  forall s, In s (_scenes m) -> plain_scene s.

(** Keys in ascending order: no key is less than one before it; and in
    descending order: no key is less than one after it. *)
Definition ascending (keys : list sort_key_t) : Prop :=
  StronglySorted (fun a b => key_lt b a = false) keys.

Definition descending (keys : list sort_key_t) : Prop :=
  StronglySorted (fun a b => key_lt a b = false) keys.

(** Two keys that tie: neither is less than the other. *)
Definition ties (a b : sort_key_t) : bool :=
  negb (key_lt a b) && negb (key_lt b a).

(** The kinds of keys a column has: integers, strings, or, in the Duration
    column, floats next to the integer 0 that stands for no duration. *)
Inductive key_class : Set := IntKeys | StrKeys | DurationKeys.

Definition in_class (c : key_class) (k : sort_key_t) : Prop :=
  match c, k with
  | IntKeys, KInt _ => True
  | StrKeys, KStr _ => True
  | DurationKeys, KInt z => z = 0
  | DurationKeys, KFloat f => f <> S754_nan
  | _, _ => False
  end.

(** [<] is a strict weak order on the keys in [cls]. *)
Definition strict_weak_order (cls : sort_key_t -> Prop) : Prop :=
  (forall a, cls a -> key_lt a a = false) /\
  (forall a b c, cls a -> cls b -> cls c ->
     key_lt a b = true -> key_lt b c = true -> key_lt a c = true) /\
  (forall a b c, cls a -> cls b -> cls c ->
     key_lt b a = false -> key_lt c b = false -> key_lt c a = false).

(** The rank of a key of the Duration column. *)
Definition key_rank (k : sort_key_t) : Z * Z * Z :=
  match k with
  | KFloat f => match Spec.float_rank f with Some r => r | None => (0, 0, 0) end
  | _ => (0, 0, 0)
  end.

(** No record of the table has a NaN as duration. *)
Definition no_nan_duration (m : model) : Prop :=
  forall s, In s (_scenes m) -> _duration s <> Some S754_nan.

(** The size typed as [k] and [unit] is read as [k * 1024 ^ i] bytes. *)
Definition reads_whole (k : Z) (i : nat) (unit : string) : bool :=
  match parse_filesize_input (str_of_int k) unit with
  | Ok (Some n) => n =? k * 1024 ^ Z.of_nat i
  | _ => false
  end.

End Properties.

(* ================================================================== *)
(** ** More concrete tables *)
(* ================================================================== *)

Module Examples.
Import Py Graph SceneTableModel Scenarios.
Open Scope string_scope.
Open Scope Z_scope.

(** Three rows, the first and the third of the same size; the last two
    are ticked. *)
Definition tied_rows : model :=
  {| _scenes := [sized_scene "1" 300; sized_scene "2" 100; sized_scene "3" 300];
     _checked := [false; true; true];
     _visible_columns := DEFAULT_VISIBLE;
     _sort_column := -1;
     _sort_order := AscendingOrder |}.

(** Two rows, the first of the studio "Zeta", the second without studio. *)
Definition studio_rows : model :=
  {| _scenes := [raw_scene "1" [] (Some {| ref_id := Some "4"; ref_name := Some "Zeta" |}) [];
                 raw_scene "2" [] None []];
     _checked := [true; false];
     _visible_columns := DEFAULT_VISIBLE;
     _sort_column := -1;
     _sort_order := AscendingOrder |}.

End Examples.

(* ================================================================== *)
(** * Facts and theorems *)
(* ================================================================== *)

Import Py Graph Helpers Workers SceneTableModel MainWindow Spec Scenarios.
Open Scope string_scope.
Open Scope Z_scope.

(** ** Strings and the classification of responses *)

Lemma of_to_string l : of_string (to_string l) = l.
Proof. apply list_ascii_of_string_of_list_ascii. Qed.

Lemma to_of_string s : to_string (of_string s) = s.
Proof. apply string_of_list_ascii_of_string. Qed.

Lemma prefix_chars_spec p l :
  prefix_chars p l = true <-> exists post, l = (p ++ post)%list.
Proof.
  revert l. induction p as [|a p IH]; intro l; simpl.
  - split; eauto.
  - destruct l as [|b l].
    + split; [discriminate|]. intros (post & H). discriminate.
    + rewrite andb_true_iff, Ascii.eqb_eq, IH. split.
      * intros (-> & post & ->). eauto.
      * intros (post & H). injection H as -> ->. eauto.
Qed.

Lemma contains_chars_spec p l :
  contains_chars p l = true <-> exists pre post, l = (pre ++ p ++ post)%list.
Proof.
  induction l as [|b l IH].
  - simpl. rewrite orb_false_r, prefix_chars_spec. split.
    + intros (post & H). exists [], post. exact H.
    + intros (pre & post & H). destruct pre; simpl in H.
      * eauto.
      * discriminate.
  - simpl. rewrite orb_true_iff, IH, prefix_chars_spec. split.
    + intros [(post & H)|(pre & post & H)].
      * exists [], post. exact H.
      * exists (b :: pre), post. simpl. congruence.
    + intros (pre & post & H). destruct pre as [|x pre]; simpl in H.
      * left. eauto.
      * right. injection H as -> ->. eauto.
Qed.

Lemma of_string_upper t : of_string (upper t) = map to_upper (of_string t).
Proof. unfold upper. apply of_to_string. Qed.

Lemma str_in_upper_spec needle t :
  map to_upper (of_string needle) = of_string needle ->
  (str_in needle (upper t) = true <-> occurs_ignoring_case needle t).
Proof.
  intro Hn. unfold str_in, occurs_ignoring_case.
  rewrite contains_chars_spec, of_string_upper. split.
  - intros (pre & post & H).
    apply map_eq_app in H as (pre' & r & Ht & Hpre & Hr).
    apply map_eq_app in Hr as (mid & post' & Hr & Hmid & Hpost).
    exists pre', mid, post'. subst. split; assumption.
  - intros (pre & mid & post & Ht & Hmid).
    exists (map to_upper pre), (map to_upper post).
    rewrite Ht, !map_app, Hmid. reflexivity.
Qed.

Lemma str_in_upper_of_str_in needle t :
  map to_upper (of_string needle) = of_string needle ->
  str_in needle t = true -> str_in needle (upper t) = true.
Proof.
  intros Hn H. apply str_in_upper_spec; [exact Hn|].
  unfold str_in in H. apply contains_chars_spec in H as (pre & post & H).
  exists pre, (of_string needle), post. split; assumption.
Qed.

Lemma foreign_key_test t :
  (str_in "FOREIGN KEY" (upper t) || str_in "FOREIGN KEY" t)
  = str_in "FOREIGN KEY" (upper t).
Proof.
  destruct (str_in "FOREIGN KEY" (upper t)) eqn:H1; [reflexivity|].
  destruct (str_in "FOREIGN KEY" t) eqn:H2; [|reflexivity].
  apply str_in_upper_of_str_in in H2; [congruence|reflexivity].
Qed.

Section Classify.
Variables json_dumps py_str : json -> string.

Lemma messages_read es msgs :
    Forall2 (message_of py_str) es msgs ->
    map_result (fun e => json_get e "message" (JStr (py_str e))) es
      = Ok (map JStr msgs).
  Proof.
    induction 1 as [|e m es msgs (eo & -> & Hm) _ IH]; [reflexivity|].
    simpl. rewrite IH.
    destruct Hm as [-> | (-> & ->)]; reflexivity.
  Qed.

Lemma join_json_strs sep msgs : join_json sep (map JStr msgs) = Ok (join sep msgs).
  Proof.
    unfold join_json.
    assert (map_result (fun j => match j with JStr s => Ok s | _ => Raise TypeError end)
              (map JStr msgs) = Ok msgs) as ->.
    { induction msgs as [|m msgs IH]; [reflexivity|]. simpl. rewrite IH. reflexivity. }
    reflexivity.
  Qed.

Lemma classify_unconfirmed resp scene_id :
    unconfirmed resp scene_id ->
    classify_response json_dumps py_str resp scene_id =
      (has_errors <- json_contains "errors" resp ;;
       err_msgs <- (if has_errors : bool then
                      errors <- json_item resp "errors" ;;
                      es <- json_iter errors ;;
                      map_result (fun e => json_get e "message" (JStr (py_str e))) es
                    else Ok []) ;;
       err_text <- (match err_msgs with
                    | [] => Ok (json_dumps resp)
                    | _ => join_json "; " err_msgs
                    end) ;;
       if str_in "FOREIGN KEY" (upper err_text) || str_in "FOREIGN KEY" err_text
       then Ok SkippedMissingReference
       else Ok Failed).
  Proof.
    intros (o & -> & H). unfold classify_response.
    cbn [json_contains json_item bind].
    destruct H as [-> | (d & -> & H)]; [reflexivity|].
    cbn [json_get bind].
    destruct H as [(-> & Hid) | (u & -> & Hu)]; cbn [json_get bind assoc].
    - destruct scene_id; [reflexivity|congruence].
    - rewrite Hu. reflexivity.
  Qed.

Lemma classify_by_error_text resp scene_id t :
    unconfirmed resp scene_id ->
    error_text json_dumps py_str resp t ->
    classify_response json_dumps py_str resp scene_id
    = Ok (if str_in "FOREIGN KEY" (upper t) then SkippedMissingReference else Failed).
  Proof.
    intros Hu (o & -> & Ht).
    rewrite (classify_unconfirmed Hu).
    cbn [json_contains json_item].
    destruct Ht as [(-> & ->) | (es & msgs & -> & Hm & ->)].
    - cbn [bind]. rewrite foreign_key_test.
      destruct (str_in _ _); reflexivity.
    - cbn [bind json_iter]. rewrite (messages_read Hm). cbn [bind].
      destruct msgs as [|m msgs].
      + cbn [map bind]. rewrite foreign_key_test. destruct (str_in _ _); reflexivity.
      + cbn [map]. change (JStr m :: map JStr msgs) with (map JStr (m :: msgs)).
        rewrite join_json_strs. cbn [bind]. rewrite foreign_key_test.
        destruct (str_in _ _); reflexivity.
  Qed.
End Classify.

(** ** The query builder and the client-side filter *)

Lemma combo_index_entry (op : operator) :
  exists entry, nth_error operator_items (Z.to_nat (combo_index op)) = Some entry
                /\ first_word entry = symbol op.
Proof. destruct op; eexists; split; reflexivity. Qed.

Lemma duration_operator_map_spec (op : operator) :
  duration_operator_map (combo_index op) = Ok (server_modifier op).
Proof. destruct op; reflexivity. Qed.

Lemma server_modifier_between (op : operator) :
  String.eqb (server_modifier op) "BETWEEN" = true <-> op = Between.
Proof. destruct op; simpl; split; intro H; try discriminate; reflexivity. Qed.

(* on_search_scenes inversion for duration *)
Lemma on_search_scenes_duration f w :
  on_search_scenes f = Ok (Done w) ->
  exists o v1 v2, read_duration f = Ok (Done (o, v1, v2)) /\
    duration_operator w = o /\ duration_value1 w = v1 /\ duration_value2 w = v2.
Proof.
  unfold on_search_scenes.
  destruct (is_empty (strip (graphql_url f))); [discriminate|].
  destruct (read_duration f) as [[t|[[o v1] v2]]|e]; simpl; try discriminate.
  destruct (enable_path_filter_checkbox f && _); [discriminate|].
  destruct (if enable_resolution_filter_checkbox f then _ else _) as [[re ro]|e]; simpl; try discriminate.
  match goal with |- (if ?c then _ else _) = _ -> _ => destruct c end; [discriminate|].
  intro H; injection H as <-. simpl. eauto 10.
Qed.

Lemma read_duration_enabled f op o v1 v2 :
  enable_duration_filter_checkbox f = true ->
  duration_operator_combo f = combo_index op ->
  read_duration f = Ok (Done (o, v1, v2)) ->
  o = server_modifier op /\
  (exists a, v1 = Some a /\
     parse_duration_input (strip (duration_value1_edit f)) = Ok (Some a)) /\
  (op = Between ->
     exists b, v2 = Some b /\
       parse_duration_input (strip (duration_value2_edit f)) = Ok (Some b)) /\
  (op <> Between -> v2 = None).
Proof.
  intros He Hi. unfold read_duration. rewrite He, Hi, duration_operator_map_spec. simpl.
  destruct (is_empty (strip (duration_value1_edit f))); [discriminate|].
  destruct (parse_duration_input (strip (duration_value1_edit f))) as [[a|]|e];
    simpl; try discriminate.
  destruct (String.eqb (server_modifier op) "BETWEEN") eqn:Hb.
  - apply server_modifier_between in Hb. subst op.
    destruct (is_empty (strip (duration_value2_edit f))); [discriminate|].
    destruct (parse_duration_input (strip (duration_value2_edit f))) as [[b|]|e];
      simpl; try discriminate.
    intro H; injection H as <- <- <-.
    repeat split; eauto. intro K; congruence.
  - intro H; injection H as <- <- <-.
    repeat split; eauto.
    intro K. subst op. discriminate.
Qed.

(** C3.  For every active duration criterion the filter sent to the server
    carries the modifier the specification assigns to the chosen operator:
    greater-or-equal and less-or-equal go out as the strict GREATER_THAN and
    LESS_THAN, while equals, not-equals, greater-than, less-than and between
    go out as EQUALS, NOT_EQUALS, GREATER_THAN, LESS_THAN and BETWEEN.  The
    value is the parsed first field; a second value is sent exactly for
    between. *)
Theorem duration_operator_server_mapping (op : operator) (f : form)
    (w : SearchScenesWorker) :
  enable_duration_filter_checkbox f = true ->
  duration_operator_combo f = combo_index op ->
  on_search_scenes f = Ok (Done w) ->
  exists c,
    sf_duration (build_scene_filter w) = Some c /\
    modifier c = server_modifier op /\
    parse_duration_input (strip (duration_value1_edit f)) = Ok (Some (value c)) /\
    (op = Between ->
       exists b, value2 c = Some b /\
         parse_duration_input (strip (duration_value2_edit f)) = Ok (Some b)) /\
    (op <> Between -> value2 c = None).
Proof.
  intros He Hi Hs.
  destruct (on_search_scenes_duration _ Hs) as (o & v1 & v2 & Hr & Ho & H1 & H2).
  destruct (read_duration_enabled _ _ He Hi Hr) as (-> & (a & -> & Ha) & Hb & Hn).
  unfold build_scene_filter; simpl. rewrite H1, Ho, H2.
  destruct (String.eqb (server_modifier op) "BETWEEN") eqn:Hbt.
  - apply server_modifier_between in Hbt. subst op.
    destruct (Hb eq_refl) as (b & -> & Hpb).
    eexists; split; [reflexivity|]. simpl. repeat split; eauto; intro K; congruence.
  - assert (op <> Between) as Hne by (intro K; subst op; discriminate).
    eexists; split; [reflexivity|]. simpl. repeat split; eauto; intro K; congruence.
Qed.



Lemma filesize_operator_map_spec (op : operator) :
  filesize_operator_map (combo_index op) = Ok (server_modifier op).
Proof. destruct op; reflexivity. Qed.

Lemma size_ok_client_holds (op : operator) v1 v2 s :
  size_ok (server_modifier op) v1 v2 s =
  match _filesize s with
  | Some fs => client_holds op fs v1 v2
  | None => false
  end.
Proof.
  unfold size_ok. destruct (_filesize s) as [fs|]; [|reflexivity].
  destruct op; reflexivity.
Qed.

Lemma read_filesize_enabled f op o v1 v2 :
  filesize_operator_combo f = combo_index op ->
  read_filesize f = Ok (Done (o, v1, v2)) ->
  o = server_modifier op /\
  parse_filesize_input (strip (filesize_value1_edit f)) (filesize_unit1_combo f)
    = Ok (Some v1) /\
  (op = Between ->
     exists b, v2 = Some b /\
       parse_filesize_input (strip (filesize_value2_edit f)) (filesize_unit2_combo f)
         = Ok (Some b)) /\
  (op <> Between -> v2 = None).
Proof.
  intros Hi. unfold read_filesize. rewrite Hi, filesize_operator_map_spec. simpl.
  destruct (is_empty (strip (filesize_value1_edit f))); [discriminate|].
  destruct (parse_filesize_input _ (filesize_unit1_combo f)) as [[a|]|e];
    simpl; try discriminate.
  destruct (String.eqb (server_modifier op) "BETWEEN") eqn:Hb.
  - apply server_modifier_between in Hb. subst op.
    destruct (is_empty (strip (filesize_value2_edit f))); [discriminate|].
    destruct (parse_filesize_input _ (filesize_unit2_combo f)) as [[b|]|e];
      simpl; try discriminate.
    intro H; injection H as <- <- <-.
    repeat split; eauto. intro K; congruence.
  - intro H; injection H as <- <- <-.
    repeat split; eauto.
    intro K. subst op. discriminate.
Qed.

Lemma on_search_scenes_per_page f w :
  on_search_scenes f = Ok (Done w) ->
  per_page w = if enable_filesize_filter_checkbox f then 10000 else per_page_spin f.
Proof.
  unfold on_search_scenes.
  destruct (is_empty (strip (graphql_url f))); [discriminate|].
  destruct (read_duration f) as [[t|[[o v1] v2]]|e]; simpl; try discriminate.
  destruct (enable_path_filter_checkbox f && _); [discriminate|].
  destruct (if enable_resolution_filter_checkbox f then _ else _) as [[re ro]|e]; simpl; try discriminate.
  match goal with |- (if ?c then _ else _) = _ -> _ => destruct c end; [discriminate|].
  intro H; injection H as <-. reflexivity.
Qed.

Lemma select_all_scenes m v : SceneTableModel._scenes (SceneTableModel.select_all m v) = SceneTableModel._scenes m.
Proof. unfold SceneTableModel.select_all. destruct (SceneTableModel._checked m); reflexivity. Qed.

(** C1, amended.  When the file-size criterion is active the handler sets
    the server page size to 10000, and the table shows exactly the fetched
    scenes whose known size passes the client-side test: equals, not-equals,
    greater-than, less-than and between (inclusive) are exact, while
    greater-or-equal and less-or-equal are applied as the strict
    comparisons, so a scene whose size equals the threshold is dropped under
    both; a scene without a known size is dropped. *)
Theorem filesize_filter_page_size_and_predicate (op : operator) (f : form)
    (w : SearchScenesWorker) (tm m' : SceneTableModel.model) (scenes : list scene) :
  enable_filesize_filter_checkbox f = true ->
  filesize_operator_combo f = combo_index op ->
  (on_search_scenes f = Ok (Done w) -> filter_per_page (build_vars w) = 10000) /\
  (_on_scenes_found f tm scenes = Ok (Done m') ->
   exists v1 v2,
     parse_filesize_input (strip (filesize_value1_edit f)) (filesize_unit1_combo f)
       = Ok (Some v1) /\
     (op = Between ->
        exists b, v2 = Some b /\
          parse_filesize_input (strip (filesize_value2_edit f)) (filesize_unit2_combo f)
            = Ok (Some b)) /\
     SceneTableModel._scenes m' =
       filter (fun s => match _filesize s with
                        | Some fs => client_holds op fs v1 v2
                        | None => false
                        end) scenes).
Proof.
  intros He Hi. split.
  - intro Hs. simpl. rewrite (on_search_scenes_per_page _ Hs), He. reflexivity.
  - unfold _on_scenes_found. rewrite He.
    destruct (read_filesize f) as [[t|[[o v1] v2]]|e] eqn:Hr; simpl; try discriminate.
    intro H; injection H as <-.
    destruct (read_filesize_enabled _ _ Hi Hr) as (-> & H1 & Hb & Hn).
    exists v1, v2. split; [exact H1|]. split; [exact Hb|].
    rewrite select_all_scenes. simpl.
    apply filter_ext. intro s. apply size_ok_client_holds.
Qed.

(** ** The bulk workers *)

Section BulkFacts.
Variable World : Type.
Variables json_dumps py_str : json -> string.


Lemma never_raises_ret A (a : A) : never_raises (ret (World:=World) a).
  Proof. intro n. exists a, n. reflexivity. Qed.

Lemma never_raises_catch A (c h : M World A) : never_raises h -> never_raises (catch c h).
  Proof.
    intros Hh n. unfold catch. destruct (c n) as [[a|e] n'].
    - eauto.
    - apply Hh.
  Qed.

Lemma never_raises_mutate (c : client World) rq scene_id :
    never_raises (mutate json_dumps py_str c rq scene_id).
  Proof. apply never_raises_catch, never_raises_ret. Qed.

Lemma never_raises_apply_tag_scene (c : client World) tag_id dry_run s :
    never_raises (apply_tag_scene json_dumps py_str c tag_id dry_run s).
  Proof.
    unfold apply_tag_scene.
    destruct (existsb _ _); [apply never_raises_ret|].
    destruct dry_run; [apply never_raises_ret|apply never_raises_mutate].
  Qed.

Lemma never_raises_rename_scene (c : client World) new_title dry_run s :
    never_raises (rename_scene json_dumps py_str c new_title dry_run s).
  Proof.
    unfold rename_scene. destruct dry_run; [apply never_raises_ret|apply never_raises_mutate].
  Qed.

Lemma never_raises_assign_performers_scene (c : client World) ids dry_run s :
    never_raises (assign_performers_scene json_dumps py_str c ids dry_run s).
  Proof.
    unfold assign_performers_scene.
    destruct (forallb _ _); [apply never_raises_ret|].
    destruct dry_run; [apply never_raises_ret|apply never_raises_mutate].
  Qed.

Lemma never_raises__assign_studio_to_scene (c : client World) studio_id scene_id :
    never_raises (_assign_studio_to_scene c studio_id scene_id).
  Proof. apply never_raises_catch, never_raises_ret. Qed.

Lemma never_raises_assign_studio_scene (c : client World) studio_id dry_run s :
    never_raises (assign_studio_scene c studio_id dry_run s).
  Proof.
    unfold assign_studio_scene.
    destruct (pyid_falsy _); [apply never_raises_ret|].
    destruct (pyid_eqb _ _); [apply never_raises_ret|].
    destruct dry_run; [apply never_raises_ret|].
    intro n. unfold bindM.
    destruct (never_raises__assign_studio_to_scene c studio_id (scene_id s) n) as (b & n' & ->).
    eexists _, n'. reflexivity.
  Qed.

Lemma count_cons o o' os :
    count o (o' :: os) = ((if outcome_eqb o o' then 1 else 0) + count o os)%nat.
  Proof. unfold count. simpl. destruct (outcome_eqb o o'); reflexivity. Qed.

Lemma count_total os :
    (count Updated os + count AlreadySatisfied os
     + count SkippedMissingReference os + count Failed os)%nat = List.length os.
  Proof.
    induction os as [|o os IH]; [reflexivity|].
    rewrite !count_cons. simpl List.length. destruct o; simpl; lia.
  Qed.

  (** The loop of a bulk run over steps that cannot raise: it ends with a
      summary, and the summary adds one count per record to the initial one. *)
Lemma for_each_counts (step : scene -> M World outcome) :
    (forall s, never_raises (step s)) ->
    forall scenes acc n,
    exists os n',
      for_each scenes (fun s acc => bindM (step s) (fun o => ret (bump o acc))) acc n
        = (Ok (fold_left (fun a o => bump o a) os acc), n') /\
      List.length os = List.length scenes.
  Proof.
    intros Hs scenes. induction scenes as [|s tl IH]; intros acc n.
    - exists [], n. split; reflexivity.
    - simpl. unfold bindM at 1. unfold bindM at 1.
      destruct (Hs s n) as (o & n1 & ->). unfold ret at 1.
      destruct (IH (bump o acc) n1) as (os & n' & -> & Hl).
      exists (o :: os), n'. split; [reflexivity|simpl; congruence].
  Qed.

Lemma tally_counts os : forall acc,
    let s := fold_left (fun a o => bump o a) os acc in
    updated s = (updated acc + count Updated os)%nat /\
    already s = (already acc + count AlreadySatisfied os)%nat /\
    skipped_deleted s = (skipped_deleted acc + count SkippedMissingReference os)%nat /\
    failed s = (failed acc + count Failed os)%nat.
  Proof.
    induction os as [|o os IH]; intro acc; simpl.
    - unfold count; simpl. lia.
    - specialize (IH (bump o acc)). simpl in IH. rewrite !count_cons.
      destruct IH as (H1 & H2 & H3 & H4). rewrite H1, H2, H3, H4.
      destruct o; simpl; lia.
  Qed.

Lemma run_partition (step : scene -> M World outcome) :
    (forall s, never_raises (step s)) ->
    forall scenes n,
    exists sm os n',
      for_each scenes (fun s acc => bindM (step s) (fun o => ret (bump o acc))) summary0 n
        = (Ok sm, n') /\
      List.length os = List.length scenes /\
      counts_of sm os /\
      total sm = List.length scenes.
  Proof.
    intros Hs scenes n.
    destruct (@for_each_counts step Hs scenes summary0 n) as (os & n' & Hr & Hl).
    exists (fold_left (fun a o => bump o a) os summary0), os, n'.
    split; [exact Hr|]. split; [exact Hl|].
    pose proof (tally_counts os summary0) as (H1 & H2 & H3 & H4). simpl in *.
    split; [repeat split; assumption|].
    unfold total. rewrite H1, H2, H3, H4. simpl. rewrite <- Hl, <- (count_total os). lia.
  Qed.

(** C10.  Every bulk run (tag-apply, rename, performer-assign,
    studio-assign) ends with a summary; there is a list of per-record
    outcomes, one per input record, of which the four counters of the summary
    are the counts by kind, so that the counters add up to the number of
    input records. *)
Theorem summary_counts_partition_input (c : client World) (scenes : list scene)
      (tag_id studio_id : pyid) (performer_ids : list pyid) (new_title : string)
      (dry_run : bool) (n : net World) :
    (exists sm os n',
       ApplyTagWorker_run json_dumps py_str c scenes tag_id dry_run n = (Ok sm, n') /\
       List.length os = List.length scenes /\ counts_of sm os /\
       total sm = List.length scenes) /\
    (exists sm os n',
       RenameSceneWorker_run json_dumps py_str c scenes new_title dry_run n = (Ok sm, n') /\
       List.length os = List.length scenes /\ counts_of sm os /\
       total sm = List.length scenes) /\
    (exists sm os n',
       AssignPerformersWorker_run json_dumps py_str c scenes performer_ids dry_run n
         = (Ok sm, n') /\
       List.length os = List.length scenes /\ counts_of sm os /\
       total sm = List.length scenes) /\
    (exists sm os n',
       AssignStudioWorker_run c scenes studio_id dry_run n = (Ok sm, n') /\
       List.length os = List.length scenes /\ counts_of sm os /\
       total sm = List.length scenes).
  Proof.
    repeat split.
    - apply run_partition. intro s. apply never_raises_apply_tag_scene.
    - apply run_partition. intro s. apply never_raises_rename_scene.
    - apply run_partition. intro s. apply never_raises_assign_performers_scene.
    - apply run_partition. intro s. apply never_raises_assign_studio_scene.
  Qed.

Lemma pyid_eqb_eq a b : pyid_eqb a b = true <-> a = b.
  Proof.
    destruct a as [x|], b as [y|]; simpl; split; intro H; try discriminate; try reflexivity.
    - apply String.eqb_eq in H. congruence.
    - injection H as ->. apply String.eqb_refl.
  Qed.

Lemma existsb_pyid_In t l : existsb (pyid_eqb t) l = true <-> In t l.
  Proof.
    rewrite existsb_exists. split.
    - intros (x & Hx & He). apply pyid_eqb_eq in He. congruence.
    - intro H. exists t. split; [exact H|]. apply pyid_eqb_eq. reflexivity.
  Qed.

Lemma count_occ_snoc_fresh (t : pyid) l :
    ~ In t l -> count_occ pyid_eq_dec (l ++ [t]) t = 1%nat.
  Proof.
    intro H. rewrite count_occ_app.
    apply (count_occ_not_In pyid_eq_dec) in H. rewrite H. simpl.
    destruct (pyid_eq_dec t t); congruence.
  Qed.

Lemma mutate_sends (c : client World) rq scene_id n :
    exists o w',
      mutate json_dumps py_str c rq scene_id n
        = (Ok o, {| world := w'; sent := (sent n ++ [rq])%list |}).
  Proof.
    unfold mutate, catch, bindM, send, lift, ret.
    destruct (call c rq (world n)) as [[resp|e] w'].
    - destruct (classify_response json_dumps py_str resp scene_id) as [o|e]; eauto.
    - eauto.
  Qed.

Lemma apply_tag_scene_sent (c : client World) tag_id dry_run s n :
    exists o n1,
      apply_tag_scene json_dumps py_str c tag_id dry_run s n = (Ok o, n1) /\
      sent n1 = (sent n ++ if dry_run then []
                           else if lacks_tag tag_id s then [tag_request tag_id s]
                           else [])%list.
  Proof.
    unfold apply_tag_scene, lacks_tag, tag_request.
    destruct (in_dec pyid_eq_dec tag_id (current_ids (scene_tags s))) as [Hin|Hn].
    - apply existsb_pyid_In in Hin. rewrite Hin.
      exists AlreadySatisfied, n. split; [reflexivity|].
      destruct dry_run; rewrite app_nil_r; reflexivity.
    - destruct (existsb _ _) eqn:He; [apply existsb_pyid_In in He; contradiction|].
      destruct dry_run.
      + exists Updated, n. split; [reflexivity|]. rewrite app_nil_r. reflexivity.
      + destruct (mutate_sends c (SetTagIds (scene_id s)
                     (current_ids (scene_tags s) ++ [tag_id])) (scene_id s) n)
          as (o & w' & ->).
        exists o, {| world := w';
                     sent := sent n ++ [SetTagIds (scene_id s)
                                          (current_ids (scene_tags s) ++ [tag_id])] |}.
        split; reflexivity.
  Qed.

Lemma tag_run_sent (c : client World) tag_id dry_run scenes : forall acc n,
    exists sm n',
      for_each scenes
        (fun s acc => bindM (apply_tag_scene json_dumps py_str c tag_id dry_run s)
                            (fun o => ret (bump o acc))) acc n = (Ok sm, n') /\
      sent n' = (sent n ++ if dry_run then []
                           else map (tag_request tag_id)
                                    (filter (lacks_tag tag_id) scenes))%list.
  Proof.
    induction scenes as [|s tl IH]; intros acc n.
    - exists acc, n. split; [reflexivity|]. destruct dry_run; rewrite app_nil_r; reflexivity.
    - cbn [for_each]. unfold bindM at 1. unfold bindM at 1.
      destruct (apply_tag_scene_sent c tag_id dry_run s n) as (o & n1 & -> & Hs1).
      unfold ret at 1.
      destruct (IH (bump o acc) n1) as (sm & n' & -> & Hs).
      exists sm, n'. split; [reflexivity|].
      rewrite Hs, Hs1. cbn [filter].
      destruct dry_run; [rewrite !app_nil_r; reflexivity|].
      destruct (lacks_tag tag_id s); cbn [map]; rewrite <- app_assoc; reflexivity.
  Qed.

(** C4.  For a record of a tag-apply run: when the tag id is among the
    record's tag ids the outcome is already-satisfied and the network is
    untouched; otherwise, in a dry run, the outcome is updated and the network
    is untouched; otherwise exactly one request is sent, which sets the tag
    ids to the existing ids followed by the new id, the new id occurring
    once and the existing ids kept as they were.  Over a whole run the
    requests sent are, in record order, one such request for each record
    that lacks the tag, and none at all in a dry run. *)
Theorem tag_apply_per_record (c : client World) (tag_id : pyid) (dry_run : bool)
      (s : scene) (n : net World) :
    let current := current_ids (scene_tags s) in
    let step := apply_tag_scene json_dumps py_str c tag_id dry_run s in
    (In tag_id current -> step n = (Ok AlreadySatisfied, n)) /\
    (~ In tag_id current -> dry_run = true -> step n = (Ok Updated, n)) /\
    (~ In tag_id current -> dry_run = false ->
       exists o w',
         step n = (Ok o, {| world := w';
                            sent := (sent n ++ [SetTagIds (scene_id s) (current ++ [tag_id])])%list |})
         /\ count_occ pyid_eq_dec (current ++ [tag_id]) tag_id = 1%nat
         /\ firstn (List.length current) (current ++ [tag_id]) = current) /\
    (forall scenes,
       exists sm n',
         ApplyTagWorker_run json_dumps py_str c scenes tag_id dry_run n = (Ok sm, n') /\
         sent n' = (sent n ++ if dry_run then []
                              else map (tag_request tag_id)
                                       (filter (lacks_tag tag_id) scenes))%list).
  Proof.
    intros current step. unfold step, apply_tag_scene. fold current.
    split; [|split; [|split]].
    - intro Hin. apply existsb_pyid_In in Hin. rewrite Hin. reflexivity.
    - intros Hn ->.
      destruct (existsb (pyid_eqb tag_id) current) eqn:He; [|reflexivity].
      apply existsb_pyid_In in He. contradiction.
    - intros Hn ->.
      destruct (existsb (pyid_eqb tag_id) current) eqn:He;
        [apply existsb_pyid_In in He; contradiction|].
      destruct (mutate_sends c (SetTagIds (scene_id s) (current ++ [tag_id])) (scene_id s) n)
        as (o & w' & ->).
      exists o, w'. split; [reflexivity|]. split.
      + apply count_occ_snoc_fresh; assumption.
      + rewrite firstn_app, firstn_all, Nat.sub_diag. simpl. apply app_nil_r.
    - intro scenes. apply tag_run_sent.
  Qed.

  (** The inner [try] of the tag, rename and performer workers, by what the
      client's [call] does with the request. *)
Lemma mutate_outcome (c : client World) rq scene_id n :
    let n' := {| world := snd (call c rq (world n)); sent := (sent n ++ [rq])%list |} in
    match fst (call c rq (world n)) with
    | Raise _ => mutate json_dumps py_str c rq scene_id n = (Ok Failed, n')
    | Ok resp =>
        forall t,
          unconfirmed resp scene_id ->
          error_text json_dumps py_str resp t ->
          exists o,
            mutate json_dumps py_str c rq scene_id n = (Ok o, n') /\
            (occurs_ignoring_case "FOREIGN KEY" t -> o = SkippedMissingReference) /\
            (~ occurs_ignoring_case "FOREIGN KEY" t -> o = Failed)
    end.
  Proof.
    unfold mutate, catch, bindM, send, lift, ret.
    destruct (call c rq (world n)) as [[resp|e] w']; simpl; [|reflexivity].
    intros t Hu Ht. rewrite (classify_by_error_text Hu Ht).
    destruct (str_in "FOREIGN KEY" (upper t)) eqn:Hfk.
    - eexists; split; [reflexivity|]. split; [reflexivity|].
      intro K. exfalso. apply K. apply str_in_upper_spec; [reflexivity|exact Hfk].
    - eexists; split; [reflexivity|]. split; [|reflexivity].
      intro K. apply str_in_upper_spec in K; [congruence|reflexivity].
  Qed.

Lemma assign_studio_outcome (c : client World) studio_id scene_id n :
    exists b n',
      _assign_studio_to_scene c studio_id scene_id n = (Ok b, n') /\
      forall method, call_graphql c = Some method ->
        match fst (method (SetStudioId scene_id studio_id) (world n)) with
        | Raise _ => b = false
        | Ok resp => forall o, resp = JObj o -> assoc "sceneUpdate" o = None -> b = false
        end.
  Proof.
    unfold _assign_studio_to_scene, catch, bindM, lift, ret, send.
    destruct (call_graphql c) as [method|].
    - destruct (method (SetStudioId scene_id studio_id) (world n)) as [[resp|e] w'] eqn:Hm.
      + match goal with |- context [match ?r with Ok _ => _ | Raise _ => _ end = _] =>
          destruct r as [b|e] eqn:Hr end.
        * eexists _, _. split; [reflexivity|].
          intros m' Hm'. injection Hm' as <-. rewrite Hm. simpl.
          intros o -> Ho. simpl in Hr. rewrite Ho in Hr.
          destruct o; simpl in Hr; congruence.
        * eexists _, _. split; [reflexivity|].
          intros m' Hm'. injection Hm' as <-. rewrite Hm. simpl.
          intros o -> Ho. reflexivity.
      + eexists _, _. split; [reflexivity|].
        intros m' Hm'. injection Hm' as <-. rewrite Hm. reflexivity.
    - eexists _, _. split; [reflexivity|]. intros m' Hm'. discriminate.
  Qed.

(** The error handling of the four workers.  Tag-apply, rename and
    performer-assign send their request through one inner try: an exception
    of the call gives failed; a response that does not confirm the update
    (data absent, or an object whose sceneUpdate is absent or an object with
    another id) is sorted by its error text, the messages of errors joined
    by "; " or else the printed response: skipped-missing-reference when the
    text has "FOREIGN KEY" in any letter case, failed otherwise.
    Studio-assign has no such sorting: a request ends as updated or failed.
    In all four kinds no record aborts the run. *)
Theorem bulk_error_outcomes (c : client World) (scenes : list scene)
      (tag_id studio_id : pyid) (performer_ids : list pyid) (new_title : string) :
    (* tag-apply, rename and performer-assign go through the same inner try *)
    (forall s n,
       ~ In tag_id (current_ids (scene_tags s)) ->
       apply_tag_scene json_dumps py_str c tag_id false s n
       = mutate json_dumps py_str c
           (SetTagIds (scene_id s) (current_ids (scene_tags s) ++ [tag_id])) (scene_id s) n) /\
    (forall s n,
       rename_scene json_dumps py_str c new_title false s n
       = mutate json_dumps py_str c (SetTitle (scene_id s) new_title) (scene_id s) n) /\
    (forall s n,
       forallb (fun pid => existsb (pyid_eqb pid) (current_ids (scene_performers s)))
               performer_ids = false ->
       assign_performers_scene json_dumps py_str c performer_ids false s n
       = mutate json_dumps py_str c
           (SetPerformerIds (scene_id s)
              (list_set (current_ids (scene_performers s) ++ performer_ids)))
           (scene_id s) n) /\
    (* which turns an exception into "failed" and sorts an unconfirmed
       response by its error text *)
    (forall rq scene_id n,
       let n' := {| world := snd (call c rq (world n)); sent := (sent n ++ [rq])%list |} in
       match fst (call c rq (world n)) with
       | Raise _ => mutate json_dumps py_str c rq scene_id n = (Ok Failed, n')
       | Ok resp =>
           forall t,
             unconfirmed resp scene_id ->
             error_text json_dumps py_str resp t ->
             exists o,
               mutate json_dumps py_str c rq scene_id n = (Ok o, n') /\
               (occurs_ignoring_case "FOREIGN KEY" t -> o = SkippedMissingReference) /\
               (~ occurs_ignoring_case "FOREIGN KEY" t -> o = Failed)
       end) /\
    (* studio-assign: a request ends as updated or failed, and as failed when
       the method raises or the response has no sceneUpdate entry *)
    (forall s n,
       pyid_falsy (scene_id s) = false ->
       pyid_eqb (match scene_studio s with Some st => ref_id st | None => None end)
                studio_id = false ->
       exists o n',
         assign_studio_scene c studio_id false s n = (Ok o, n') /\
         (o = Updated \/ o = Failed) /\
         forall method, call_graphql c = Some method ->
           match fst (method (SetStudioId (scene_id s) studio_id) (world n)) with
           | Raise _ => o = Failed
           | Ok resp =>
               forall ob, resp = JObj ob -> assoc "sceneUpdate" ob = None -> o = Failed
           end) /\
    (* and no run is aborted: each ends with a summary over all records *)
    (forall dry_run n,
       (exists sm n',
          ApplyTagWorker_run json_dumps py_str c scenes tag_id dry_run n = (Ok sm, n') /\
          total sm = List.length scenes) /\
       (exists sm n',
          RenameSceneWorker_run json_dumps py_str c scenes new_title dry_run n = (Ok sm, n') /\
          total sm = List.length scenes) /\
       (exists sm n',
          AssignPerformersWorker_run json_dumps py_str c scenes performer_ids dry_run n
            = (Ok sm, n') /\
          total sm = List.length scenes) /\
       (exists sm n',
          AssignStudioWorker_run c scenes studio_id dry_run n = (Ok sm, n') /\
          total sm = List.length scenes)).
  Proof.
    split; [|split; [|split; [|split; [|split]]]].
    - intros s n Hn. unfold apply_tag_scene.
      destruct (existsb _ _) eqn:He; [|reflexivity].
      apply existsb_pyid_In in He. contradiction.
    - reflexivity.
    - intros s n Hn. unfold assign_performers_scene. rewrite Hn. reflexivity.
    - intros rq scene_id n. apply mutate_outcome.
    - intros s n Hid Hst. unfold assign_studio_scene. rewrite Hid, Hst.
      destruct (assign_studio_outcome c studio_id (scene_id s) n) as (b & n' & Hb & Hm).
      unfold bindM. rewrite Hb. unfold ret.
      exists (if b then Updated else Failed), n'. split; [reflexivity|]. split.
      + destruct b; auto.
      + intros method Hc. specialize (Hm method Hc).
        destruct (fst (method _ _)).
        * intros ob Hr Ho. rewrite (Hm ob Hr Ho). reflexivity.
        * rewrite Hm. reflexivity.
    - intros dry_run n.
      repeat split.
      + destruct (@run_partition _ (never_raises_apply_tag_scene c tag_id dry_run) scenes n)
          as (sm & os & n' & H & _ & _ & T). eauto.
      + destruct (@run_partition _ (never_raises_rename_scene c new_title dry_run) scenes n)
          as (sm & os & n' & H & _ & _ & T). eauto.
      + destruct (@run_partition _ (never_raises_assign_performers_scene c performer_ids dry_run)
                    scenes n)
          as (sm & os & n' & H & _ & _ & T). eauto.
      + destruct (@run_partition _ (never_raises_assign_studio_scene c studio_id dry_run) scenes n)
          as (sm & os & n' & H & _ & _ & T). eauto.
  Qed.
End BulkFacts.

(** ** The selection table *)

Section ListFacts.
Context {A : Type}.

Lemma set_item_length (l : list A) : forall i v l',
    set_item l i v = Ok l' -> List.length l' = List.length l.
  Proof.
    induction l as [|x l IH]; intros i v l' H; simpl in H; [discriminate|].
    destruct i as [|i].
    - injection H as <-. reflexivity.
    - destruct (set_item l i v) as [tl'|e] eqn:E; simpl in H; [|discriminate].
      injection H as <-. simpl. f_equal. eapply IH; eassumption.
  Qed.

Lemma set_item_in_range (l : list A) : forall i v,
    (i < List.length l)%nat -> exists l', set_item l i v = Ok l'.
  Proof.
    induction l as [|x l IH]; intros i v H; simpl in H; [lia|].
    destruct i as [|i]; simpl.
    - eauto.
    - destruct (IH i v) as (l' & ->); [lia|]. simpl. eauto.
  Qed.

Lemma insert_by_perm lt (x : A) l : Permutation (insert_by lt x l) (x :: l).
  Proof.
    induction l as [|y l IH]; simpl; [reflexivity|].
    destruct (lt x y); [reflexivity|].
    rewrite IH. apply perm_swap.
  Qed.

Lemma stable_sort_perm lt (l : list A) : Permutation (stable_sort lt l) l.
  Proof.
    unfold stable_sort.
    assert (forall acc, Permutation (fold_left (fun acc x => insert_by lt x acc) l acc)
                                    (acc ++ l)) as H.
    { induction l as [|x l IH]; intro acc; simpl.
      - rewrite app_nil_r. reflexivity.
      - rewrite IH, insert_by_perm. apply Permutation_middle. }
    apply (H []).
  Qed.

Lemma sort_by_key_perm K (lt : K -> K -> bool) (key : A -> K) reverse l :
    Permutation (sort_by_key lt key reverse l) l.
  Proof.
    unfold sort_by_key. destruct reverse.
    - rewrite <- Permutation_rev, stable_sort_perm, <- Permutation_rev. reflexivity.
    - apply stable_sort_perm.
  Qed.
End ListFacts.

Lemma mark_ids_ok id_set scenes : forall i checked,
  (i + List.length scenes <= List.length checked)%nat ->
  exists checked', mark_ids id_set scenes i checked = Ok checked'
                   /\ List.length checked' = List.length checked.
Proof.
  induction scenes as [|s tl IH]; intros i checked H; simpl in *.
  - eauto.
  - destruct (@set_item_in_range _ checked i (existsb (pyid_eqb (scene_id s)) id_set))
      as (c1 & Hc1); [lia|].
    rewrite Hc1. simpl. pose proof (set_item_length _ _ _ Hc1) as Hl.
    destruct (IH (S i) c1) as (c2 & -> & Hl2); [lia|].
    exists c2. split; [reflexivity|congruence].
Qed.

Lemma mark_ids_length id_set scenes : forall i checked checked',
  mark_ids id_set scenes i checked = Ok checked' ->
  List.length checked' = List.length checked.
Proof.
  induction scenes as [|s tl IH]; intros i checked checked' H; simpl in H.
  - injection H as <-. reflexivity.
  - destruct (set_item checked i _) as [c1|e] eqn:E; simpl in H; [|discriminate].
    rewrite (IH _ _ _ H). eapply set_item_length; eassumption.
Qed.

Lemma aligned_init scenes : aligned (__init__ scenes).
Proof. unfold aligned, __init__, all_false; simpl. apply repeat_length. Qed.

Lemma aligned_setScenes m scenes : aligned (setScenes m scenes).
Proof. unfold aligned, setScenes, all_false; simpl. apply repeat_length. Qed.

Lemma aligned_setData m index value role flag m' :
  aligned m -> setData m index value role = Ok (flag, m') -> aligned m'.
Proof.
  unfold setData. intros Ha H.
  destruct index as [[row column]|]; [|injection H as _ <-; exact Ha].
  destruct (item (_visible_columns m) column) as [actual_col|e]; simpl in H; [|discriminate].
  destruct (actual_col =? 0); [|injection H as _ <-; exact Ha].
  destruct role; try (injection H as _ <-; exact Ha).
  destruct (set_item (_checked m) row _) as [checked|e] eqn:E; simpl in H; [|discriminate].
  injection H as _ <-. unfold aligned in *. simpl.
  rewrite (set_item_length _ _ _ E). exact Ha.
Qed.

Lemma aligned_select_all m val : aligned m -> aligned (select_all m val).
Proof.
  unfold select_all, aligned. intro Ha.
  destruct (_checked m) as [|c cs] eqn:E; [rewrite E; exact Ha|].
  simpl in *. rewrite length_map. exact Ha.
Qed.

Lemma select_by_ids_ok m id_set :
  aligned m -> exists m', select_by_ids m id_set = Ok m' /\ aligned m'.
Proof.
  unfold select_by_ids, aligned. intro Ha.
  destruct (_checked m) as [|c cs] eqn:E.
  - exists m. split; [reflexivity|]. rewrite E. exact Ha.
  - destruct (@mark_ids_ok id_set (_scenes m) 0 (c :: cs)) as (c' & Hc & Hl); [simpl in *; lia|].
    rewrite Hc. simpl. eexists. split; [reflexivity|]. simpl. congruence.
Qed.

Lemma aligned_select_by_ids m id_set m' :
  aligned m -> select_by_ids m id_set = Ok m' -> aligned m'.
Proof.
  intros Ha H. destruct (select_by_ids_ok id_set Ha) as (m2 & H2 & Ha2). congruence.
Qed.

(** The items with their keys in front are the items. *)
Lemma keyed_items actual_col : forall combined items,
  keyed actual_col combined = Ok items -> map snd items = combined.
Proof.
  unfold keyed. induction combined as [|it tl IH]; intros items H; simpl in H.
  - injection H as <-. reflexivity.
  - destruct (sort_key actual_col (fst (fst it))) as [k|e]; simpl in H; [|discriminate].
    destruct (map_result _ tl) as [ys|e] eqn:E; simpl in H; [|discriminate].
    injection H as <-. simpl. f_equal. apply IH. reflexivity.
Qed.

(** What [sort] leaves: the table as it was, or the items sorted by their
    keys. *)
Lemma sort_cases m column order :
  sort m column order = m \/
  exists actual_col items,
    nth_error (_visible_columns m) (Z.to_nat column) = Some actual_col /\
    0 <= column /\ actual_col <> 0 /\
    keyed actual_col (zip3 (_scenes m) (_checked m)) = Ok items /\
    fst (sort_call m column order) = Ok tt /\
    let reverse := match order with DescendingOrder => true | _ => false end in
    let combined := map snd (sort_by_key key_lt fst reverse items) in
    sort m column order =
      {| _scenes := map (fun it => fst (fst it)) combined;
         _checked := map (fun it => snd (fst it)) combined;
         _visible_columns := _visible_columns m;
         _sort_column := column;
         _sort_order := order |}.
Proof.
  unfold sort, sort_call.
  destruct (column <? 0) eqn:Ec; [left; reflexivity|]. cbn [orb].
  destruct (_ <=? column); [left; reflexivity|].
  destruct (nth_error _ _) as [actual_col|]; [|left; reflexivity].
  destruct (actual_col =? 0) eqn:E0; [left; reflexivity|].
  destruct (keyed actual_col _) as [items|e] eqn:Ek; [|left; reflexivity].
  right. exists actual_col, items. apply Z.ltb_ge in Ec. apply Z.eqb_neq in E0.
  repeat split; try assumption; reflexivity.
Qed.

Lemma aligned_sort m column order : aligned m -> aligned (sort m column order).
Proof.
  intro Ha.
  destruct (sort_cases m column order) as [->|(c & items & _ & _ & _ & _ & _ & ->)];
    [exact Ha|].
  unfold aligned. simpl. rewrite !length_map. reflexivity.
Qed.

Lemma aligned_step m m' : aligned m -> table_step m m' -> aligned m'.
Proof.
  intros Ha Hs. destruct Hs.
  - apply aligned_setScenes.
  - eapply aligned_setData; eassumption.
  - apply aligned_select_all; assumption.
  - eapply aligned_select_by_ids; eassumption.
  - apply aligned_sort; assumption.
  - exact Ha.
Qed.

(** C7.  In every state the table reaches from its construction the
    selection vector is as long as the record list; replacing the records
    installs the new list with an all-false vector of its length; every
    operation (replace, toggle, select-all, select-by-ids, sort,
    column-visibility change) keeps the two lengths equal, and
    select-by-ids does not fail on such a state. *)
Theorem selection_vector_stays_aligned :
  (forall m, reachable m -> aligned m) /\
  (forall m scenes,
     _scenes (setScenes m scenes) = scenes /\
     _checked (setScenes m scenes) = repeat false (List.length scenes)) /\
  (forall m m', aligned m -> table_step m m' -> aligned m') /\
  (forall m id_set, aligned m -> exists m', select_by_ids m id_set = Ok m').
Proof.
  split; [|split; [|split]].
  - induction 1 as [scenes|m m' _ IH Hs].
    + apply aligned_init.
    + eapply aligned_step; eassumption.
  - intros m scenes. split; reflexivity.
  - apply aligned_step.
  - intros m id_set Ha. destruct (select_by_ids_ok id_set Ha) as (m' & H & _). eauto.
Qed.

Section ZipFacts.
Context {A B : Type}.

Lemma combine_map_same {C} (f : C -> A) (g : C -> B) l :
    combine (map f l) (map g l) = map (fun x => (f x, g x)) l.
  Proof. induction l as [|x l IH]; simpl; [reflexivity|]. rewrite IH. reflexivity. Qed.

Lemma map_fst_combine (a : list A) : forall (b : list B),
    (List.length a <= List.length b)%nat -> map fst (combine a b) = a.
  Proof.
    induction a as [|x a IH]; intros [|y b] H; simpl in *; try reflexivity; try lia.
    rewrite IH; [reflexivity|lia].
  Qed.

Lemma map_snd_combine (b : list B) : forall (a : list A),
    (List.length b <= List.length a)%nat -> map snd (combine a b) = b.
  Proof.
    induction b as [|y b IH]; intros [|x a] H; simpl in *; try reflexivity; try lia.
    rewrite IH; [reflexivity|lia].
  Qed.

Lemma map_nth_error_seq (l : list A) :
    map (nth_error l) (seq 0 (List.length l)) = map Some l.
  Proof.
    induction l as [|x l IH]; [reflexivity|].
    simpl. f_equal. rewrite <- seq_shift, map_map. exact IH.
  Qed.
End ZipFacts.

(** Every item of the zipped list carries the position it was taken from. *)
Lemma zip3_items scenes : forall checked k,
  Forall (fun it : scene * bool * nat =>
            (k <= snd it)%nat /\
            nth_error scenes (snd it - k) = Some (fst (fst it)) /\
            nth_error checked (snd it - k) = Some (snd (fst it)))
         (combine (combine scenes checked) (seq k (List.length scenes))).
Proof.
  induction scenes as [|s tl IH]; intros checked k; simpl; [constructor|].
  destruct checked as [|c ctl]; simpl; [constructor|].
  constructor.
  - simpl. rewrite Nat.sub_diag. auto.
  - eapply Forall_impl; [|apply (IH ctl (S k))].
    intros [[s' c'] i] (Hk & Hs & Hc). simpl in *.
    replace (i - k)%nat with (S (i - S k)) by lia. simpl. repeat split; [lia|assumption..].
Qed.

Lemma sorted_rows (combined : list (scene * bool * nat)) :
  map (fun it : scene * bool * nat => fst it) combined
  = combine (map (fun it : scene * bool * nat => fst (fst it)) combined)
            (map (fun it : scene * bool * nat => snd (fst it)) combined).
Proof.
  rewrite combine_map_same. apply map_ext. intros [[s c] i]. reflexivity.
Qed.

Lemma rows_zip3 scenes checked :
  map (fun it : scene * bool * nat => fst it) (zip3 scenes checked) = combine scenes checked.
Proof.
  unfold zip3. change (fun it : scene * bool * nat => fst it) with (@fst (scene * bool) nat).
  rewrite map_fst_combine; [reflexivity|].
  rewrite length_seq, length_combine. lia.
Qed.

Lemma rows_sort m column order : Permutation (rows (sort m column order)) (rows m).
Proof.
  destruct (sort_cases m column order) as [->|(c & items & _ & _ & _ & Hk & _ & ->)];
    [reflexivity|].
  unfold rows. simpl. rewrite <- sorted_rows.
  rewrite (Permutation_map _ (Permutation_map snd (sort_by_key_perm _ _ _ _))).
  rewrite (keyed_items _ _ Hk). rewrite rows_zip3. reflexivity.
Qed.

Lemma rows_sorts requests : forall m, Permutation (rows (sorts m requests)) (rows m).
Proof.
  induction requests as [|r requests IH]; intro m; simpl; [reflexivity|].
  unfold sorts in *. simpl. rewrite IH. apply rows_sort.
Qed.

Lemma sort_selector_noop m column order :
  nth_error (_visible_columns m) (Z.to_nat column) = Some 0 ->
  sort m column order = m.
Proof.
  intro H. unfold sort, sort_call. destruct (_ || _); [reflexivity|]. rewrite H. reflexivity.
Qed.

Lemma sort_one_permutation m column order :
  aligned m ->
  exists p,
    Permutation p (seq 0 (List.length (_scenes m))) /\
    map Some (_scenes (sort m column order)) = map (nth_error (_scenes m)) p /\
    map Some (_checked (sort m column order)) = map (nth_error (_checked m)) p.
Proof.
  intro Ha. unfold aligned in Ha.
  destruct (sort_cases m column order) as [->|(c & items & _ & _ & _ & Hk & _ & ->)].
  { exists (seq 0 (List.length (_scenes m))). split; [reflexivity|].
    split; [symmetry; apply map_nth_error_seq|].
    rewrite <- Ha. symmetry; apply map_nth_error_seq. }
  simpl.
  set (reverse := match order with DescendingOrder => true | _ => false end).
  set (sorted := map snd (sort_by_key key_lt fst reverse items)).
  assert (Permutation sorted (zip3 (_scenes m) (_checked m))) as Hp.
  { unfold sorted. rewrite (Permutation_map snd (sort_by_key_perm _ _ _ _)).
    rewrite (keyed_items _ _ Hk). reflexivity. }
  exists (map snd sorted). split; [|split].
  - rewrite (Permutation_map snd Hp). unfold zip3.
    rewrite map_snd_combine; [reflexivity|].
    rewrite length_seq, length_combine. lia.
  - pose proof (zip3_items (_scenes m) (_checked m) 0) as Hf. fold (zip3 (_scenes m) (_checked m)) in Hf.
    apply (Permutation_Forall (Permutation_sym Hp)) in Hf.
    rewrite !map_map. apply map_ext_Forall.
    eapply Forall_impl; [|exact Hf].
    intros [[s c'] i] (_ & Hs & _). simpl in *. rewrite Nat.sub_0_r in Hs. congruence.
  - pose proof (zip3_items (_scenes m) (_checked m) 0) as Hf. fold (zip3 (_scenes m) (_checked m)) in Hf.
    apply (Permutation_Forall (Permutation_sym Hp)) in Hf.
    rewrite !map_map. apply map_ext_Forall.
    eapply Forall_impl; [|exact Hf].
    intros [[s c'] i] (_ & _ & Hc). simpl in *. rewrite Nat.sub_0_r in Hc. congruence.
Qed.

(** C6.  On a table whose selection vector is as long as its record list, a
    sort rearranges records and selection bits by one and the same
    permutation of the row positions; through any sequence of sorts, and so
    through a sort followed by the sort in reverse order, the rows (record
    with its bit) are a permutation of the original rows; a sort requested
    on the selector column returns the table unchanged. *)
Theorem sort_carries_selection (m : model) :
  aligned m ->
  (forall column order,
     exists p,
       Permutation p (seq 0 (List.length (_scenes m))) /\
       map Some (_scenes (sort m column order)) = map (nth_error (_scenes m)) p /\
       map Some (_checked (sort m column order)) = map (nth_error (_checked m)) p) /\
  (forall requests,
     aligned (sorts m requests) /\
     Permutation (rows (sorts m requests)) (rows m)) /\
  (forall column,
     Permutation (rows (sort (sort m column AscendingOrder) column DescendingOrder))
                 (rows m)) /\
  (forall column order,
     nth_error (_visible_columns m) (Z.to_nat column) = Some 0 ->
     sort m column order = m).
Proof.
  intro Ha. split; [|split; [|split]].
  - intros column order. apply sort_one_permutation. exact Ha.
  - intro requests. split; [|apply rows_sorts].
    revert m Ha. induction requests as [|r requests IH]; intros m Ha; [exact Ha|].
    apply IH. apply aligned_sort. exact Ha.
  - intro column. apply (rows_sorts [(column, AscendingOrder); (column, DescendingOrder)]).
  - intros column order. apply sort_selector_noop.
Qed.

(** ** The normaliser *)

Section MaxFacts.
Context {X : Type} (gt : X -> X -> bool).
Hypothesis gt_irrefl : forall x, gt x x = false.
Hypothesis gt_trans : forall x y z, gt x y = true -> gt y z = true -> gt x z = true.

Lemma gt_asym x y : gt x y = true -> gt y x = false.
  Proof.
    intro H. destruct (gt y x) eqn:E; [|reflexivity].
    pose proof (gt_trans H E) as K. rewrite gt_irrefl in K. discriminate.
  Qed.

Lemma running_max (l : list X) : forall m0,
    let r := fold_left (fun m y => if gt y m then y else m) l m0 in
    In r (m0 :: l) /\ (r = m0 \/ gt r m0 = true) /\
    forall x, In x l -> gt x r = false.
  Proof.
    induction l as [|y l IH]; intro m0; simpl.
    - repeat split; auto. intros x [].
    - destruct (gt y m0) eqn:E.
      + destruct (IH y) as (Hin & Hy & Hall). simpl in *. repeat split.
        * destruct Hin as [<-|Hin]; auto.
        * right. destruct Hy as [->|Hy]; [exact E|].
          exact (gt_trans Hy E).
        * intros x [Hx|Hx]; [subst x|auto].
          destruct Hy as [->|Hy]; [apply gt_irrefl|apply gt_asym; exact Hy].
      + destruct (IH m0) as (Hin & Hm & Hall). simpl in *. repeat split.
        * destruct Hin as [<-|Hin]; auto.
        * exact Hm.
        * intros x [Hx|Hx]; [subst x|auto].
          destruct Hm as [->|Hm]; [exact E|].
          match goal with |- ?g = false => destruct g eqn:E2; [|reflexivity] end.
          rewrite (gt_trans E2 Hm) in E. discriminate.
  Qed.

Lemma max_by_is_max (l : list X) : is_max gt l (max_by gt l).
  Proof.
    destruct l as [|m0 l]; simpl; [reflexivity|].
    destruct (running_max l m0) as (Hin & Hm & Hall). split; [exact Hin|].
    intros x [<-|Hx]; [|apply Hall; exact Hx].
    destruct Hm as [->|Hm]; [apply gt_irrefl|apply gt_asym; exact Hm].
  Qed.
End MaxFacts.

Lemma Zgtb_irrefl x : Z.gtb x x = false.
Proof. rewrite Z.gtb_ltb. apply Z.ltb_irrefl. Qed.

Lemma Zgtb_trans x y z : Z.gtb x y = true -> Z.gtb y z = true -> Z.gtb x z = true.
Proof. rewrite !Z.gtb_ltb, !Z.ltb_lt. lia. Qed.

(** Order of two finite floats of one sign, as [SFcompare] takes it. *)
Lemma fin_compare_lt e1 m1 e2 m2 :
  match e1 ?= e2 with Lt => Lt | Gt => Gt | Eq => Pos.compare_cont Eq m1 m2 end = Lt
  <-> e1 < e2 \/ (e1 = e2 /\ (m1 < m2)%positive).
Proof.
  destruct (Z.compare_spec e1 e2) as [->|H|H].
  - change (Pos.compare_cont Eq m1 m2) with (Pos.compare m1 m2).
    rewrite Pos.compare_lt_iff. split; [auto|]. intros [H|[_ H]]; [lia|exact H].
  - split; [auto|reflexivity].
  - split; [discriminate|]. intros [H1|[H1 _]]; lia.
Qed.

Lemma fin_compare_gt e1 m1 e2 m2 :
  match e1 ?= e2 with Lt => Lt | Gt => Gt | Eq => Pos.compare_cont Eq m1 m2 end = Gt
  <-> e2 < e1 \/ (e1 = e2 /\ (m2 < m1)%positive).
Proof.
  destruct (Z.compare_spec e1 e2) as [->|H|H].
  - change (Pos.compare_cont Eq m1 m2) with (Pos.compare m1 m2).
    rewrite Pos.compare_gt_iff. split; [auto|]. intros [H|[_ H]]; [lia|exact H].
  - split; [discriminate|]. intros [H1|[H1 _]]; lia.
  - split; [auto|reflexivity].
Qed.

Lemma fin_compare_opp_lt e1 m1 e2 m2 :
  match e1 ?= e2 with Lt => Gt | Gt => Lt | Eq => CompOpp (Pos.compare_cont Eq m1 m2) end = Lt
  <-> e2 < e1 \/ (e1 = e2 /\ (m2 < m1)%positive).
Proof.
  rewrite <- fin_compare_gt.
  destruct (e1 ?= e2); [|split; congruence..].
  destruct (Pos.compare_cont Eq m1 m2); simpl; split; congruence.
Qed.

Lemma float_gt_irrefl x : float_gt x x = false.
Proof.
  unfold float_gt, SFltb. destruct x as [s|s| |s m e]; simpl; try reflexivity.
  - destruct s; reflexivity.
  - destruct s; rewrite Z.compare_refl;
      change (Pos.compare_cont Eq m m) with (Pos.compare m m);
      rewrite Pos.compare_refl; reflexivity.
Qed.

Lemma match_Lt_true (c : comparison) :
  match c with Lt => true | _ => false end = true <-> c = Lt.
Proof. destruct c; split; congruence. Qed.

Lemma SFltb_rank x y :
  SFltb x y = true <->
  exists a b, float_rank x = Some a /\ float_rank y = Some b /\ rank_lt a b.
Proof.
  unfold SFltb.
  destruct x as [sx|sx| |sx mx ex], y as [sy|sy| |sy my ey]; simpl;
    try (split; [discriminate|intros (a & b & Ha & Hb & _); discriminate]).
  - split; [discriminate|]. intros (a & b & Ha & Hb & H).
    injection Ha as <-; injection Hb as <-. simpl in H. lia.
  - destruct sy; (split; [intro H; try discriminate; do 2 eexists; repeat split; simpl; lia
                        | intros (a & b & Ha & Hb & H); injection Ha as <-; injection Hb as <-;
                          simpl in H; try reflexivity; lia]).
  - destruct sy; (split; [intro H; try discriminate; do 2 eexists; repeat split; simpl; lia
                        | intros (a & b & Ha & Hb & H); injection Ha as <-; injection Hb as <-;
                          simpl in H; try reflexivity; lia]).
  - destruct sx; (split; [intro H; try discriminate; do 2 eexists; repeat split; simpl; lia
                        | intros (a & b & Ha & Hb & H); injection Ha as <-; injection Hb as <-;
                          simpl in H; try reflexivity; lia]).
  - destruct sx, sy; (split; [intro H; try discriminate; do 2 eexists; repeat split; simpl; lia
                        | intros (a & b & Ha & Hb & H); injection Ha as <-; injection Hb as <-;
                          simpl in H; try reflexivity; lia]).
  - destruct sx, sy; (split; [intro H; try discriminate; do 2 eexists; repeat split; simpl; lia
                        | intros (a & b & Ha & Hb & H); injection Ha as <-; injection Hb as <-;
                          simpl in H; try reflexivity; lia]).
  - destruct sx; (split; [intro H; try discriminate; do 2 eexists; repeat split; simpl; lia
                        | intros (a & b & Ha & Hb & H); injection Ha as <-; injection Hb as <-;
                          simpl in H; try reflexivity; lia]).
  - destruct sx, sy; (split; [intro H; try discriminate; do 2 eexists; repeat split; simpl; lia
                        | intros (a & b & Ha & Hb & H); injection Ha as <-; injection Hb as <-;
                          simpl in H; try reflexivity; lia]).
  - destruct sx, sy.
    + etransitivity; [apply match_Lt_true|].
      rewrite fin_compare_opp_lt. split.
      * intro H. do 2 eexists; repeat split. simpl. lia.
      * intros (a & b & Ha & Hb & H); injection Ha as <-; injection Hb as <-. simpl in H. lia.
    + split; [|reflexivity]. intros _. do 2 eexists; repeat split. simpl. lia.
    + split; [discriminate|].
      intros (a & b & Ha & Hb & H); injection Ha as <-; injection Hb as <-. simpl in H. lia.
    + etransitivity; [apply match_Lt_true|].
      rewrite fin_compare_lt. split.
      * intro H. do 2 eexists; repeat split. simpl. lia.
      * intros (a & b & Ha & Hb & H); injection Ha as <-; injection Hb as <-. simpl in H. lia.
Qed.

Lemma SFltb_trans x y z : SFltb x y = true -> SFltb y z = true -> SFltb x z = true.
Proof.
  rewrite !SFltb_rank.
  intros (a & b & Ha & Hb & H1) (b' & c & Hb' & Hc & H2).
  assert (b' = b) by congruence. subst b'.
  exists a, c. repeat split; try assumption.
  destruct a as [[a1 a2] a3], b as [[b1 b2] b3], c as [[c1 c2] c3]. simpl in *. lia.
Qed.

Lemma float_gt_trans x y z :
  float_gt x y = true -> float_gt y z = true -> float_gt x z = true.
Proof. unfold float_gt. intros H1 H2. exact (@SFltb_trans z y x H2 H1). Qed.

Lemma first_path_spec files :
  first_path files (hd_error (flat_map (fun f => path_values (f_path f)) files)).
Proof.
  induction files as [|f files IH]; simpl; [constructor|].
  destruct (f_path f) as [p|] eqn:Hp; simpl.
  - destruct p as [|c p]; simpl.
    + destruct (hd_error _) as [q|]; simpl in *.
      * destruct IH as (pre & g & post & -> & Hpre & Hg & Hq).
        exists (f :: pre), g, post. repeat split; auto.
        constructor; [right; exact Hp|exact Hpre].
      * constructor; [right; exact Hp|exact IH].
    + exists [], f, files. repeat split; auto. discriminate.
  - destruct (hd_error _) as [q|]; simpl in *.
    + destruct IH as (pre & g & post & -> & Hpre & Hg & Hq).
      exists (f :: pre), g, post. repeat split; auto.
      constructor; [left; exact Hp|exact Hpre].
    + constructor; [left; exact Hp|exact IH].
Qed.

Lemma resolution_label_spec h : label_for h (resolution_label h).
Proof.
  unfold resolution_label.
  destruct (2160 <=? h) eqn:E1; [constructor; lia|].
  destruct (1440 <=? h) eqn:E2; [constructor; lia|].
  destruct (1080 <=? h) eqn:E3; [constructor; lia|].
  destruct (720 <=? h) eqn:E4; [constructor; lia|].
  destruct (480 <=? h) eqn:E5; [constructor; lia|].
  apply label_other. lia.
Qed.

(** C5, amended.  The normaliser stores as size, duration, width and height
    the maximum of the values read from the files (one value per file when
    the field parses, none when it does not; nothing stored when no file
    gives a value); as path the first non-empty path in file order; and as
    resolution label, when the height is present and not zero, the label of
    its first matching threshold (2160: "4K", 1440: "1440p", 1080: "1080p",
    720: "720p", 480: "480p", below: the height followed by "p"); with no
    height, or height zero, there is no label. *)
Theorem normalizer_derived_fields (s : scene) :
  let n := normalize_scene s in
  is_max Z.gtb (parsed size_values f_size s) (_filesize n) /\
  is_max float_gt (parsed duration_values f_duration s) (_duration n) /\
  is_max Z.gtb (parsed dim_values f_width s) (_width n) /\
  is_max Z.gtb (parsed dim_values f_height s) (_height n) /\
  first_path (scene_files s) (_path n) /\
  match _height n with
  | Some h =>
      if h =? 0 then _resolution n = None
      else exists l, _resolution n = Some l /\ label_for h l
  | None => _resolution n = None
  end /\
  (forall v, duration_values v = append_if_ok (float_of_val v)) /\
  (forall v, dim_values v = append_if_ok (int_of_val v)) /\
  (forall v, (List.length (size_values v) <= 1)%nat).
Proof.
  simpl. repeat split.
  - apply max_by_is_max; [apply Zgtb_irrefl|apply Zgtb_trans].
  - apply max_by_is_max; [apply float_gt_irrefl|apply float_gt_trans].
  - apply max_by_is_max; [apply Zgtb_irrefl|apply Zgtb_trans].
  - apply max_by_is_max; [apply Zgtb_irrefl|apply Zgtb_trans].
  - apply first_path_spec.
  - destruct (max_by Z.gtb _) as [h|]; [|reflexivity].
    destruct (h =? 0); [reflexivity|].
    eexists. split; [reflexivity|apply resolution_label_spec].
  - intros []; reflexivity.
  - intros []; reflexivity.
  - intros [|b|z|f|x|]; simpl; try lia.
    + destruct (int_of_float f); simpl; lia.
    + destruct (int_of_str _); simpl; [lia|].
      destruct (float_of_str _) as [g|]; simpl; [|lia].
      destruct (int_of_float g); simpl; lia.
Qed.

(** ** Binary64 facts *)

Lemma digits2_bounds p :
  2 ^ (Zpos (digits2_pos p) - 1) <= Zpos p < 2 ^ Zpos (digits2_pos p).
Proof.
  induction p as [p IH|p IH|]; simpl digits2_pos.
  - rewrite Pos2Z.inj_succ.
    replace (Z.succ (Zpos (digits2_pos p)) - 1) with (Z.succ (Zpos (digits2_pos p) - 1)) by lia.
    rewrite !Z.pow_succ_r by lia. lia.
  - rewrite Pos2Z.inj_succ.
    replace (Z.succ (Zpos (digits2_pos p)) - 1) with (Z.succ (Zpos (digits2_pos p) - 1)) by lia.
    rewrite !Z.pow_succ_r by lia. lia.
  - simpl. lia.
Qed.

Lemma digits2_unique p d :
  2 ^ (d - 1) <= Zpos p < 2 ^ d -> Zpos (digits2_pos p) = d.
Proof.
  intros [Hl Hu]. pose proof (digits2_bounds p) as [Bl Bu].
  assert (0 < d) as Hd.
  { destruct (Z_lt_le_dec 0 d) as [|Hn]; [assumption|].
    destruct (Z.eq_dec d 0) as [->|Hz]; [simpl in Hu; lia|].
    rewrite Z.pow_neg_r in Hu by lia. lia. }
  assert (Zpos (digits2_pos p) - 1 < d) as H1.
  { apply (Z.pow_lt_mono_r_iff 2); lia. }
  assert (d - 1 < Zpos (digits2_pos p)) as H2.
  { apply (Z.pow_lt_mono_r_iff 2); lia. }
  lia.
Qed.

Lemma digits2_scaled p q k :
  0 <= k -> Zpos q = Zpos p * 2 ^ k ->
  Zpos (digits2_pos q) = Zpos (digits2_pos p) + k.
Proof.
  intros Hk Hq. apply digits2_unique. rewrite Hq.
  pose proof (digits2_bounds p) as [Bl Bu].
  replace (Zpos (digits2_pos p) + k - 1) with ((Zpos (digits2_pos p) - 1) + k) by lia.
  rewrite !Z.pow_add_r by lia.
  assert (0 < 2 ^ k) by (apply Z.pow_pos_nonneg; lia).
  split; nia.
Qed.

Lemma pos_iter_xO m k : Zpos (PosDef.Pos.iter xO m k) = Zpos m * 2 ^ Zpos k.
Proof.
  change (PosDef.Pos.iter xO m k) with (Pos.iter xO m k).
  induction k as [|k IH] using Pos.peano_ind.
  - simpl. lia.
  - rewrite Pos.iter_succ, Pos2Z.inj_xO, IH, Pos2Z.inj_succ, Z.pow_succ_r by lia. lia.
Qed.

Lemma shr_1_double z : 0 < z -> shr_1 (exact_record (2 * z)) = exact_record z.
Proof. destruct z as [|p|p]; try lia. reflexivity. Qed.

Lemma pow2_double n : 0 <= n -> 2 ^ (2 * n) = 2 ^ n * 2 ^ n.
Proof. intro H. replace (2 * n) with (n + n) by lia. apply Z.pow_add_r; lia. Qed.

Lemma iter_shr_1_exact n : forall z,
  0 < z -> iter_pos shr_1 n (exact_record (z * 2 ^ Zpos n)) = exact_record z.
Proof.
  induction n as [n IH|n IH|]; intros z Hz; cbn [iter_pos].
  - change (Zpos n~1) with (2 * Zpos n + 1).
    assert (0 < 2 ^ Zpos n) by (apply Z.pow_pos_nonneg; lia).
    replace (z * 2 ^ (2 * Zpos n + 1)) with (2 * ((z * 2 ^ Zpos n) * 2 ^ Zpos n)).
    + rewrite shr_1_double by nia. rewrite IH by nia. apply IH. exact Hz.
    + rewrite Z.pow_add_r, pow2_double, Z.pow_1_r by lia. ring.
  - change (Zpos n~0) with (2 * Zpos n).
    assert (0 < 2 ^ Zpos n) by (apply Z.pow_pos_nonneg; lia).
    replace (z * 2 ^ (2 * Zpos n)) with ((z * 2 ^ Zpos n) * 2 ^ Zpos n).
    + rewrite IH by nia. apply IH. exact Hz.
    + rewrite pow2_double by lia. ring.
  - rewrite Z.pow_1_r, Z.mul_comm. apply shr_1_double. exact Hz.
Qed.

Lemma shr_exact z e n :
  0 < z -> 0 <= n ->
  shr (exact_record (z * 2 ^ n)) e n = (exact_record z, e + n).
Proof.
  intros Hz Hn. destruct n as [|q|q]; try lia.
  - simpl. rewrite Z.mul_1_r, Z.add_0_r. reflexivity.
  - unfold shr. rewrite iter_shr_1_exact by exact Hz. reflexivity.
Qed.

Lemma fexp_eq e : fexp prec emax e = Z.max (e - 53) (-1074).
Proof. reflexivity. Qed.

(** Rounding a mantissa whose surplus bits are all zero: the bits are
    dropped and nothing else happens. *)
Lemma binary_round_aux_exact s (M z : positive) E n :
  0 <= n ->
  Zpos M = Zpos z * 2 ^ n ->
  fexp prec emax (Zpos (digits2_pos M) + E) - E = n ->
  binary_round_aux prec emax s (Zpos M) E loc_Exact
  = if E + n <=? emax - prec then S754_finite s z (E + n) else S754_infinity s.
Proof.
  intros Hn HM Hs.
  unfold binary_round_aux, shr_fexp. simpl Zdigits2. simpl shr_record_of_loc.
  rewrite Hs. fold (exact_record (Zpos M)). rewrite HM.
  rewrite shr_exact by lia. simpl shr_m. simpl loc_of_shr_record.
  simpl round_nearest_even. simpl Zdigits2.
  rewrite (@digits2_scaled z M n Hn HM) in Hs.
  replace (fexp prec emax (Zpos (digits2_pos z) + (E + n)) - (E + n)) with 0.
  - simpl. reflexivity.
  - replace (Zpos (digits2_pos z) + (E + n)) with (Zpos (digits2_pos z) + n + E) by lia. lia.
Qed.

Lemma bounded_inv m e :
  bounded prec emax m e = true ->
  Z.max (Zpos (digits2_pos m) + e - 53) (-1074) = e /\ e <= 971.
Proof.
  unfold bounded, canonical_mantissa. rewrite andb_true_iff, Z.eqb_eq, Z.leb_le, fexp_eq.
  unfold emax, prec. lia.
Qed.

(** [float(z)] is exact for a positive integer below [2^53]. *)
Lemma binary_round_small s p :
  Zpos p < 2 ^ 53 ->
  exists m k,
    0 <= k /\ Zpos m = Zpos p * 2 ^ k /\
    binary_round prec emax s p 0 = S754_finite s m (- k) /\
    bounded prec emax m (- k) = true.
Proof.
  intro Hp. pose proof (digits2_bounds p) as [Bl Bu].
  assert (Zpos (digits2_pos p) <= 53) as Hd.
  { assert (Zpos (digits2_pos p) - 1 < 53); [|lia].
    apply (Z.pow_lt_mono_r_iff 2); lia. }
  unfold binary_round, shl_align. rewrite fexp_eq, Z.add_0_r.
  replace (Z.max (Zpos (digits2_pos p) - 53) (-1074) - 0)
    with (Zpos (digits2_pos p) - 53) by lia.
  destruct (Zpos (digits2_pos p) - 53) as [|q|q] eqn:Hq; try lia.
  - (* 53 bits already *)
    exists p, 0. split; [lia|]. split; [lia|].
    rewrite (@binary_round_aux_exact s p p 0 0); try lia.
    + split; [reflexivity|].
      unfold bounded, canonical_mantissa. rewrite fexp_eq.
      apply andb_true_iff. split; [apply Z.eqb_eq; lia|reflexivity].
    + rewrite fexp_eq. lia.
  - (* shifted left to 53 bits *)
    pose proof (pos_iter_xO p q) as Hm.
    pose proof (@digits2_scaled p (PosDef.Pos.iter xO p q) (Zpos q) ltac:(lia) Hm) as Hdm.
    exists (PosDef.Pos.iter xO p q), (Zpos q). split; [lia|]. split; [exact Hm|].
    replace (Z.max (Z.neg q) (-1074)) with (Z.neg q) by lia.
    rewrite (@binary_round_aux_exact s (PosDef.Pos.iter xO p q) (PosDef.Pos.iter xO p q)
               (Z.neg q) 0); try lia.
    + rewrite Z.add_0_r. split; [reflexivity|].
      unfold bounded, canonical_mantissa. rewrite fexp_eq.
      apply andb_true_iff. split; [apply Z.eqb_eq; lia|apply Z.leb_le; unfold emax, prec; lia].
    + rewrite fexp_eq. lia.
Qed.

Lemma int_of_float_scaled s m e :
  int_of_float (S754_finite s m e) = Ok (scaled_trunc s m e).
Proof. reflexivity. Qed.

Lemma scaled_trunc_shift s (m z : positive) k t :
  0 <= k -> Zpos z = Zpos m * 2 ^ k ->
  scaled_trunc s z (t - k) = scaled_trunc s m t.
Proof.
  intros Hk Hz. unfold scaled_trunc. f_equal. rewrite Hz.
  assert (0 < 2 ^ k) by (apply Z.pow_pos_nonneg; lia).
  destruct (0 <=? t - k) eqn:E1; destruct (0 <=? t) eqn:E2;
    rewrite ?Z.leb_le, ?Z.leb_gt in *; try lia.
  - rewrite <- Z.mul_assoc, <- Z.pow_add_r by lia. f_equal. f_equal. lia.
  - replace k with ((- (t - k)) + t) at 1 by lia.
    rewrite Z.pow_add_r by lia.
    assert (0 < 2 ^ (- (t - k))) by (apply Z.pow_pos_nonneg; lia).
    rewrite (Z.mul_comm (2 ^ (- (t - k)))), Z.mul_assoc, Z.div_mul by lia. reflexivity.
  - replace (- (t - k)) with ((- t) + k) by lia.
    rewrite Z.pow_add_r by lia.
    assert (0 < 2 ^ (- t)) by (apply Z.pow_pos_nonneg; lia).
    apply Z.div_mul_cancel_r; lia.
Qed.

(** A canonical float times a power of two: exact, or out of range. *)
Lemma SFmul_pow2 s m e j :
  bounded prec emax m e = true -> 0 <= j ->
  exists z k,
    0 <= k /\ Zpos z = Zpos m * 2 ^ k /\
    SFmul prec emax (S754_finite s m e) (S754_finite false 4503599627370496 (j - 52))
    = if magnitude_bits m e + j <=? 1024
      then S754_finite s z (e + j - k)
      else S754_infinity s.
Proof.
  intros Hb Hj. apply bounded_inv in Hb as [Hc He].
  pose proof (digits2_bounds m) as [Bl Bu].
  assert (1 <= Zpos (digits2_pos m)) as Hd1 by lia.
  unfold magnitude_bits.
  set (d := Zpos (digits2_pos m)) in *.
  set (e' := Z.max (d + e + j - 53) (-1074)).
  set (n := e' - (e + j - 52)).
  assert (0 <= n <= 52) as Hn by lia.
  assert (0 < Zpos m * 2 ^ (52 - n)) as Hz0.
  { assert (0 < 2 ^ (52 - n)) by (apply Z.pow_pos_nonneg; lia). nia. }
  exists (Z.to_pos (Zpos m * 2 ^ (52 - n))), (52 - n).
  split; [lia|]. split; [rewrite Z2Pos.id by lia; reflexivity|].
  unfold SFmul. rewrite xorb_false_r.
  rewrite (@binary_round_aux_exact s (m * 4503599627370496)
             (Z.to_pos (Zpos m * 2 ^ (52 - n))) (e + (j - 52)) n).
  - replace (e + (j - 52) + n) with e' by lia.
    replace (e + j - (52 - n)) with e' by lia.
    unfold emax, prec.
    destruct (e' <=? 1024 - 53) eqn:E1; destruct (d + e + j <=? 1024) eqn:E2;
      rewrite ?Z.leb_le, ?Z.leb_gt in *; try reflexivity; lia.
  - lia.
  - rewrite Z2Pos.id by lia. rewrite Pos2Z.inj_mul.
    change (Zpos 4503599627370496) with (2 ^ 52).
    rewrite <- Z.mul_assoc, <- Z.pow_add_r by lia.
    replace (52 - n + n) with 52 by lia. reflexivity.
  - assert (Zpos (digits2_pos (m * 4503599627370496)) = d + 52) as Hdd.
    { apply (@digits2_scaled m); [lia|]. rewrite Pos2Z.inj_mul. reflexivity. }
    rewrite Hdd, fexp_eq. lia.
Qed.

(** ** Every rounded result is a canonical binary64 *)

Lemma Zdigits2_nonneg z : 0 <= Zdigits2 z.
Proof. destruct z; simpl; lia. Qed.

Lemma Zdigits2_bounds z :
  0 < z -> 2 ^ (Zdigits2 z - 1) <= z < 2 ^ Zdigits2 z.
Proof. destruct z as [|p|p]; try lia. intros _. apply digits2_bounds. Qed.

Lemma Zdigits2_unique z d :
  0 < z -> 2 ^ (d - 1) <= z < 2 ^ d -> Zdigits2 z = d.
Proof. destruct z as [|p|p]; try lia. intros _. apply digits2_unique. Qed.

Lemma shr_1_m r : 0 <= shr_m r -> shr_m (shr_1 r) = shr_m r / 2.
Proof.
  destruct r as [m b s]. simpl. intro H.
  transitivity (Z.div2 m); [|apply Z.div2_div].
  destruct m as [|[p|p|]|p]; try lia; reflexivity.
Qed.

Lemma div_pow2_nonneg m n : 0 <= m -> 0 <= m / 2 ^ n.
Proof.
  intro H. destruct (Z_lt_le_dec n 0) as [Hn|Hn].
  - rewrite Z.pow_neg_r by lia. rewrite Z.div_0_r; lia.
  - apply Z.div_pos; [lia|]. apply Z.pow_pos_nonneg; lia.
Qed.

Lemma iter_shr_1_m n : forall r,
  0 <= shr_m r -> shr_m (iter_pos shr_1 n r) = shr_m r / 2 ^ Zpos n.
Proof.
  induction n as [n IH|n IH|]; intros r Hr; cbn [iter_pos].
  - change (Zpos n~1) with (2 * Zpos n + 1).
    assert (0 < 2 ^ Zpos n) by (apply Z.pow_pos_nonneg; lia).
    assert (0 <= shr_m (shr_1 r)) as H1 by (rewrite shr_1_m by lia; apply Z.div_pos; lia).
    assert (0 <= shr_m (iter_pos shr_1 n (shr_1 r))) as H2
      by (rewrite IH by lia; apply div_pow2_nonneg; lia).
    rewrite (IH _ H2), (IH _ H1), shr_1_m by lia.
    rewrite !Z.div_div by lia.
    f_equal. rewrite Z.pow_add_r, pow2_double, Z.pow_1_r by lia. ring.
  - change (Zpos n~0) with (2 * Zpos n).
    assert (0 < 2 ^ Zpos n) by (apply Z.pow_pos_nonneg; lia).
    assert (0 <= shr_m (iter_pos shr_1 n r)) as H2
      by (rewrite IH by lia; apply div_pow2_nonneg; lia).
    rewrite (IH _ H2), (IH _ Hr), Z.div_div by lia.
    f_equal. rewrite pow2_double by lia. ring.
  - rewrite Z.pow_1_r. apply shr_1_m. exact Hr.
Qed.

Lemma shr_record_of_loc_m m l : shr_m (shr_record_of_loc m l) = m.
Proof. destruct l as [|[]]; reflexivity. Qed.

(** The mantissa and exponent after [shr_fexp]. *)
Lemma shr_fexp_m m e l :
  0 <= m ->
  let n := Z.max 0 (fexp prec emax (Zdigits2 m + e) - e) in
  shr_m (fst (shr_fexp prec emax m e l)) = m / 2 ^ n /\
  snd (shr_fexp prec emax m e l) = e + n.
Proof.
  intros Hm n. unfold shr_fexp, shr. subst n.
  destruct (fexp prec emax (Zdigits2 m + e) - e) as [|q|q] eqn:E; simpl fst; simpl snd.
  - rewrite shr_record_of_loc_m. simpl. rewrite Z.div_1_r. split; lia.
  - rewrite iter_shr_1_m by (rewrite shr_record_of_loc_m; exact Hm).
    rewrite shr_record_of_loc_m. replace (Z.max 0 (Zpos q)) with (Zpos q) by lia.
    split; reflexivity.
  - rewrite shr_record_of_loc_m. replace (Z.max 0 (Z.neg q)) with 0 by lia.
    simpl. rewrite Z.div_1_r. split; lia.
Qed.

Lemma Zdigits2_div_pow2 m n :
  0 <= m -> 0 <= n -> Zdigits2 (m / 2 ^ n) = Z.max 0 (Zdigits2 m - n).
Proof.
  intros Hm Hn.
  assert (0 < 2 ^ n) as Hp by (apply Z.pow_pos_nonneg; lia).
  destruct (Z.eq_dec m 0) as [->|Hm0].
  - rewrite Z.div_0_l by lia. simpl. lia.
  - pose proof (@Zdigits2_bounds m ltac:(lia)) as [Bl Bu].
    set (D := Zdigits2 m) in *.
    destruct (Z_le_gt_dec D n) as [Hle|Hgt].
    + assert (m / 2 ^ n = 0) as ->.
      { apply Z.div_small. split; [lia|].
        apply Z.lt_le_trans with (2 ^ D); [exact Bu|].
        apply Z.pow_le_mono_r; lia. }
      simpl. lia.
    + replace (Z.max 0 (D - n)) with (D - n) by lia.
      assert (2 ^ (D - 1) = 2 ^ (D - 1 - n) * 2 ^ n) as E1
        by (rewrite <- Z.pow_add_r by lia; f_equal; lia).
      assert (2 ^ D = 2 ^ (D - n) * 2 ^ n) as E2
        by (rewrite <- Z.pow_add_r by lia; f_equal; lia).
      assert (0 < 2 ^ (D - 1 - n)) by (apply Z.pow_pos_nonneg; lia).
      assert (2 ^ (D - 1 - n) <= m / 2 ^ n) as Hlo.
      { apply Z.div_le_lower_bound; [lia|]. rewrite Z.mul_comm, <- E1. exact Bl. }
      assert (m / 2 ^ n < 2 ^ (D - n)) as Hhi.
      { apply Z.div_lt_upper_bound; [lia|]. rewrite Z.mul_comm, <- E2. exact Bu. }
      apply Zdigits2_unique; [lia|].
      replace (D - n - 1) with (D - 1 - n) by lia. split; assumption.
Qed.

Lemma round_nearest_even_cases m l :
  round_nearest_even m l = m \/ round_nearest_even m l = m + 1.
Proof.
  destruct l as [|[]]; simpl; auto. destruct (Z.even m); auto.
Qed.

(** One more than a number of [D] bits has [D] bits, or is [2^D]. *)
Lemma Zdigits2_succ m :
  0 <= m ->
  Zdigits2 (m + 1) = Zdigits2 m \/
  (m + 1 = 2 ^ Zdigits2 m /\ Zdigits2 (m + 1) = Zdigits2 m + 1).
Proof.
  intro Hm. destruct (Z.eq_dec m 0) as [->|Hm0].
  - right. split; reflexivity.
  - pose proof (@Zdigits2_bounds m ltac:(lia)) as [Bl Bu].
    set (D := Zdigits2 m) in *.
    assert (0 < D) as HD.
    { destruct (Z_lt_le_dec 0 D); [assumption|].
      destruct (Z.eq_dec D 0) as [E|E]; [rewrite E in Bu; simpl in Bu; lia|].
      rewrite Z.pow_neg_r in Bu by lia. lia. }
    destruct (Z.eq_dec (m + 1) (2 ^ D)) as [E|E].
    + right. split; [exact E|].
      apply Zdigits2_unique; [lia|].
      replace (D + 1 - 1) with D by lia. rewrite Z.pow_add_r, Z.pow_1_r by lia. lia.
    + left. apply Zdigits2_unique; [lia|]. lia.
Qed.

Lemma shr_fexp_canonical m e l :
  0 <= m -> e <= fexp prec emax (Zdigits2 m + e) ->
  0 <= shr_m (fst (shr_fexp prec emax m e l)) /\
  canonical_at (shr_m (fst (shr_fexp prec emax m e l)))
               (snd (shr_fexp prec emax m e l)).
Proof.
  intros Hm He. destruct (shr_fexp_m e l Hm) as [-> ->].
  set (n := Z.max 0 (fexp prec emax (Zdigits2 m + e) - e)).
  split; [apply div_pow2_nonneg; exact Hm|].
  unfold canonical_at. rewrite Zdigits2_div_pow2 by lia.
  pose proof (Zdigits2_nonneg m). subst n. rewrite !fexp_eq in *. lia.
Qed.

Lemma canonical_after_rounding m e l :
  0 <= m -> canonical_at m e ->
  let m' := round_nearest_even m l in
  0 <= shr_m (fst (shr_fexp prec emax m' e loc_Exact)) /\
  canonical_at (shr_m (fst (shr_fexp prec emax m' e loc_Exact)))
               (snd (shr_fexp prec emax m' e loc_Exact)).
Proof.
  intros Hm Hc m'.
  assert (0 <= m') as Hm'.
  { subst m'. destruct (round_nearest_even_cases m l) as [-> | ->]; lia. }
  destruct (shr_fexp_m e loc_Exact Hm') as [-> ->].
  split; [apply div_pow2_nonneg; exact Hm'|].
  unfold canonical_at in *. rewrite Zdigits2_div_pow2 by lia.
  pose proof (Zdigits2_nonneg m).
  assert (Zdigits2 m' = Zdigits2 m \/ Zdigits2 m' = Zdigits2 m + 1) as Hd.
  { subst m'. destruct (round_nearest_even_cases m l) as [-> | ->]; [auto|].
    destruct (Zdigits2_succ Hm) as [->|[_ ->]]; auto. }
  rewrite !fexp_eq in *. destruct Hd as [-> | ->]; lia.
Qed.

(** [binary_round_aux] returns a canonical float as soon as its input
    mantissa is not shorter than the format asks. *)
Lemma binary_round_aux_valid s m e l :
  0 <= m -> e <= fexp prec emax (Zdigits2 m + e) ->
  valid_binary prec emax (binary_round_aux prec emax s m e l) = true.
Proof.
  intros Hm He. unfold binary_round_aux.
  pose proof (shr_fexp_canonical l Hm He) as [H1 C1].
  destruct (shr_fexp prec emax m e l) as [r1 e1]. simpl fst in *. simpl snd in *.
  pose proof (@canonical_after_rounding (shr_m r1) e1 (loc_of_shr_record r1) H1 C1)
    as [H2 C2].
  cbv zeta in H2, C2.
  destruct (shr_fexp prec emax (round_nearest_even (shr_m r1) (loc_of_shr_record r1))
              e1 loc_Exact) as [r2 e2]. simpl fst in *. simpl snd in *.
  destruct (shr_m r2) as [|p|p]; try reflexivity.
  destruct (e2 <=? emax - prec) eqn:E; [|reflexivity].
  simpl. unfold bounded, canonical_mantissa. rewrite E, andb_true_r.
  apply Z.eqb_eq. exact C2.
Qed.

Lemma binary_round_valid s p e :
  valid_binary prec emax (binary_round prec emax s p e) = true.
Proof.
  unfold binary_round, shl_align.
  destruct (fexp prec emax (Zpos (digits2_pos p) + e) - e) as [|d|d] eqn:E.
  - apply binary_round_aux_valid; [lia|]. simpl Zdigits2. lia.
  - apply binary_round_aux_valid; [lia|]. simpl Zdigits2. lia.
  - apply binary_round_aux_valid; [lia|]. simpl Zdigits2.
    rewrite (@digits2_scaled p (PosDef.Pos.iter xO p d) (Zpos d))
      by (try lia; apply pos_iter_xO).
    replace (Zpos (digits2_pos p) + Zpos d + fexp prec emax (Zpos (digits2_pos p) + e))
      with (Zpos (digits2_pos p) + e) by lia.
    lia.
Qed.

(** The quotient that [SFdiv_core_binary] hands to the rounding has bits
    enough, or sits at the smallest exponent. *)
Lemma div_core_ready m1 m2 :
  0 < m1 -> 0 < m2 ->
  let '(q, e', _) := SFdiv_core_binary prec emax m1 0 m2 0 in
  0 <= q /\ e' <= fexp prec emax (Zdigits2 q + e').
Proof.
  intros H1 H2. unfold SFdiv_core_binary.
  pose proof (Zdigits2_bounds H1) as [B1l B1u].
  pose proof (Zdigits2_bounds H2) as [B2l B2u].
  set (d1 := Zdigits2 m1) in *. set (d2 := Zdigits2 m2) in *.
  rewrite !Z.add_0_r, Z.sub_0_r.
  set (e' := Z.min (fexp prec emax (d1 - d2)) 0).
  assert (0 <= - e') as Hs by (subst e'; lia).
  set (m' := match 0 - e' with Zpos _ => Z.shiftl m1 (0 - e') | 0 => m1 | Z.neg _ => 0 end).
  assert (m' = m1 * 2 ^ (- e')) as Hm'.
  { subst m'. replace (0 - e') with (- e') by lia.
    destruct (- e') as [|s|s] eqn:Es; try lia.
    apply Z.shiftl_mul_pow2. lia. }
  pose proof (Z_div_mod m' m2 ltac:(lia)) as Hdm.
  destruct (Z.div_eucl m' m2) as [q r] eqn:Eq.
  assert (q = m' / m2) as Hq by (unfold Z.div; rewrite Eq; reflexivity).
  assert (0 < 2 ^ (- e')) by (apply Z.pow_pos_nonneg; lia).
  assert (0 <= q) as Hq0 by (rewrite Hq; apply Z.div_pos; nia).
  split; [exact Hq0|].
  rewrite fexp_eq.
  destruct (Z_le_gt_dec e' (-1074)) as [He|He]; [lia|].
  assert (e' <= d1 - d2 - 53) as He2 by (subst e'; rewrite fexp_eq in *; lia).
  assert (2 ^ 52 <= q) as Hbig.
  { rewrite Hq. apply Z.div_le_lower_bound; [lia|]. rewrite Hm'.
    assert (0 < d1) as Hd1.
    { destruct (Z_lt_le_dec 0 d1); [assumption|]. 
      pose proof (Zdigits2_nonneg m1). fold d1 in H0.
      assert (d1 = 0) as E0 by lia. rewrite E0 in B1u. simpl in B1u. lia. }
    assert (0 <= d2) as Hd2 by apply Zdigits2_nonneg.
    assert (2 ^ (52 + d2) <= 2 ^ (d1 - 1) * 2 ^ (- e')) as Hp.
    { rewrite <- Z.pow_add_r by lia. apply Z.pow_le_mono_r; lia. }
    rewrite Z.pow_add_r in Hp by lia.
    assert (0 < 2 ^ 52) by reflexivity. nia. }
  assert (53 <= Zdigits2 q); [|lia].
  pose proof (@Zdigits2_bounds q ltac:(lia)) as [_ Bqu].
  assert (52 < Zdigits2 q); [|lia].
  apply (Z.pow_lt_mono_r_iff 2); [lia|apply Zdigits2_nonneg|lia].
Qed.

Lemma float_of_decimal_valid neg m e10 :
  valid_binary prec emax (float_of_decimal neg m e10) = true.
Proof.
  unfold float_of_decimal. destruct m as [|p|p]; try reflexivity.
  destruct (0 <=? e10) eqn:E.
  - destruct (Zpos p * 10 ^ e10); try reflexivity. apply binary_round_valid.
  - apply Z.leb_gt in E.
    assert (0 < 10 ^ (- e10)) as H10 by (apply Z.pow_pos_nonneg; lia).
    pose proof (@div_core_ready (Zpos p) (10 ^ (- e10)) ltac:(lia) H10) as H.
    destruct (SFdiv_core_binary prec emax (Zpos p) 0 (10 ^ (- e10)) 0) as [[q e'] l].
    destruct H as [Hq He]. apply binary_round_aux_valid; assumption.
Qed.

(** What [float()] reads from a string is a canonical binary64. *)
Lemma float_of_str_valid s x :
  float_of_str s = Ok x -> valid_binary prec emax x = true.
Proof.
  unfold float_of_str.
  destruct (scan_sign (skip_chars (of_string s))) as [neg l].
  destruct (_ || _); [intro H; injection H as <-; reflexivity|].
  destruct (chars_eqb _ _); [intro H; injection H as <-; reflexivity|].
  destruct (scan_number l) as [[[ip fp] r]|]; [|discriminate].
  destruct (scan_exponent r) as [ex|]; [|discriminate].
  intro H; injection H as <-. apply float_of_decimal_valid.
Qed.

(** ** Strings of digits through the parsers *)

Lemma digit_facts c :
  is_digit c = true ->
  is_space c = false /\ to_lower c = c /\ 0 <= digit_val c <= 9 /\
  Ascii.eqb c "-" = false /\ Ascii.eqb c "+" = false /\
  Ascii.eqb c ":" = false /\ Ascii.eqb c "_" = false /\
  Ascii.eqb c "." = false /\ Ascii.eqb c "i" = false /\ Ascii.eqb c "n" = false /\
  Ascii.eqb ":" c = false.
Proof.
  destruct c as [[] [] [] [] [] [] [] []]; intro H; try discriminate H;
    vm_compute; repeat split; discriminate.
Qed.

Lemma of_string_app a b : of_string (a ++ b) = (of_string a ++ of_string b)%list.
Proof. induction a as [|c a IH]; simpl; [reflexivity|]. unfold of_string in *. rewrite IH. reflexivity. Qed.

Lemma is_empty_of_string s : is_empty s = match of_string s with [] => true | _ => false end.
Proof. destruct s; reflexivity. Qed.

Lemma lstrip_chars_head c tl : is_space c = false -> lstrip_chars (c :: tl) = c :: tl.
Proof. intro H. simpl. rewrite H. reflexivity. Qed.

(** A string that starts and ends with a digit is its own [strip]. *)
Lemma strip_chars_digit_ends a mid b :
  is_digit a = true -> is_digit b = true ->
  strip_chars (a :: mid ++ [b]) = a :: mid ++ [b].
Proof.
  intros Ha Hb. unfold strip_chars.
  rewrite lstrip_chars_head by apply (digit_facts a Ha).
  assert (rev (a :: mid ++ [b]) = b :: rev (a :: mid)) as Hr.
  { change (a :: mid ++ [b])%list with ((a :: mid) ++ [b])%list.
    rewrite rev_app_distr. reflexivity. }
  rewrite Hr, lstrip_chars_head by apply (digit_facts b Hb).
  rewrite <- Hr. apply rev_involutive.
Qed.

Lemma strip_chars_single a : is_digit a = true -> strip_chars [a] = [a].
Proof.
  intro Ha. unfold strip_chars.
  rewrite lstrip_chars_head by apply (digit_facts a Ha). simpl.
  destruct (digit_facts a Ha) as (-> & _). reflexivity.
Qed.

Lemma digit_not_c_space c : is_digit c = true -> is_c_space c = false.
Proof.
  destruct c as [[] [] [] [] [] [] [] []]; intro H; try discriminate H; reflexivity.
Qed.

Lemma lskip_chars_head c tl : is_c_space c = false -> lskip_chars (c :: tl) = c :: tl.
Proof. intro H. simpl. rewrite H. reflexivity. Qed.

(** What starts and ends with a digit is left whole by [int()] and
    [float()] too. *)
Lemma skip_chars_digit_ends a mid b :
  is_digit a = true -> is_digit b = true ->
  skip_chars (a :: mid ++ [b]) = a :: mid ++ [b].
Proof.
  intros Ha Hb. unfold skip_chars.
  rewrite lskip_chars_head by apply (digit_not_c_space a Ha).
  assert (rev (a :: mid ++ [b]) = b :: rev (a :: mid)) as Hr.
  { change (a :: mid ++ [b])%list with ((a :: mid) ++ [b])%list.
    rewrite rev_app_distr. reflexivity. }
  rewrite Hr, lskip_chars_head by apply (digit_not_c_space b Hb).
  rewrite <- Hr. apply rev_involutive.
Qed.

Lemma skip_chars_single a : is_digit a = true -> skip_chars [a] = [a].
Proof.
  intro Ha. unfold skip_chars.
  rewrite lskip_chars_head by apply (digit_not_c_space a Ha). simpl.
  rewrite (digit_not_c_space a Ha). reflexivity.
Qed.

Lemma last_split (l : chars) : l <> [] -> exists mid b, l = (mid ++ [b])%list.
Proof.
  intro H. destruct (exists_last H) as (mid & b & ->). eauto.
Qed.

Lemma strip_chars_digits ds :
  forallb is_digit ds = true -> strip_chars ds = ds.
Proof.
  intro H. destruct ds as [|a tl]; [reflexivity|].
  simpl in H. apply andb_true_iff in H as [Ha Htl].
  destruct tl as [|x tl']; [apply strip_chars_single; exact Ha|].
  destruct (@last_split (x :: tl')) as (mid & b & Heq); [discriminate|].
  rewrite Heq in *. apply strip_chars_digit_ends; [exact Ha|].
  rewrite forallb_app in Htl. apply andb_true_iff in Htl as [_ Hb].
  simpl in Hb. rewrite andb_true_r in Hb. exact Hb.
Qed.

Lemma skip_chars_digits ds :
  forallb is_digit ds = true -> skip_chars ds = ds.
Proof.
  intro H. destruct ds as [|a tl]; [reflexivity|].
  simpl in H. apply andb_true_iff in H as [Ha Htl].
  destruct tl as [|x tl']; [apply skip_chars_single; exact Ha|].
  destruct (@last_split (x :: tl')) as (mid & b & Heq); [discriminate|].
  rewrite Heq in *. apply skip_chars_digit_ends; [exact Ha|].
  rewrite forallb_app in Htl. apply andb_true_iff in Htl as [_ Hb].
  simpl in Hb. rewrite andb_true_r in Hb. exact Hb.
Qed.

Lemma scan_more_digits ds :
  forallb is_digit ds = true -> scan_more ds = (ds, []).
Proof.
  induction ds as [|c ds IH]; intro H; [reflexivity|].
  simpl in H. apply andb_true_iff in H as [Hc Hds].
  simpl. rewrite Hc, (IH Hds). reflexivity.
Qed.

Lemma scan_digitpart_digits ds :
  ds <> [] -> forallb is_digit ds = true -> scan_digitpart ds = Some (ds, []).
Proof.
  intros Hn H. destruct ds as [|c ds]; [congruence|].
  simpl in H. apply andb_true_iff in H as [Hc Hds].
  simpl. rewrite Hc, (scan_more_digits _ Hds). reflexivity.
Qed.

Lemma scan_sign_digits ds :
  forallb is_digit ds = true -> scan_sign ds = (false, ds).
Proof.
  destruct ds as [|c ds]; [reflexivity|]. simpl. intro H.
  apply andb_true_iff in H as [Hc _].
  destruct (digit_facts c Hc) as (_ & _ & _ & -> & -> & _). reflexivity.
Qed.

Lemma all_digits_chars s :
  all_digits s -> of_string s <> [] /\ forallb is_digit (of_string s) = true.
Proof.
  intros [Hn H]. split; [|exact H].
  destruct s; [congruence|discriminate].
Qed.


(** Beyond the limit of [int()] a digit field is refused. *)
Lemma int_of_str_long s :
  all_digits s -> ~ convertible s -> int_of_str s = Raise ValueError.
Proof.
  intros H Hc. apply all_digits_chars in H as [Hn H].
  unfold int_of_str.
  rewrite (skip_chars_digits _ H), (scan_sign_digits _ H), (scan_digitpart_digits Hn H).
  unfold convertible in Hc. apply Nat.nle_gt, Nat.ltb_lt in Hc. rewrite Hc. reflexivity.
Qed.



Lemma strip_digits s : all_digits s -> strip s = s.
Proof.
  intro H. apply all_digits_chars in H as [_ H].
  unfold strip. rewrite (strip_chars_digits _ H). apply to_of_string.
Qed.

Lemma digits_value_nonneg ds : forallb is_digit ds = true -> 0 <= digits_value ds.
Proof.
  unfold digits_value.
  assert (forall acc, 0 <= acc -> forallb is_digit ds = true ->
            0 <= fold_left (fun a c => 10 * a + digit_val c) ds acc) as G.
  { induction ds as [|c ds IH]; intros acc Ha H; cbn [fold_left]; [exact Ha|].
    simpl in H. apply andb_true_iff in H as [Hc Hds].
    apply IH; [|exact Hds]. destruct (digit_facts c Hc) as (_ & _ & Hv & _). lia. }
  apply G. lia.
Qed.

Lemma float_of_str_digits s :
  all_digits s -> float_of_str s = Ok (float_of_decimal false (number s) 0).
Proof.
  intro H. apply all_digits_chars in H as [Hn H].
  unfold float_of_str, number.
  rewrite (skip_chars_digits _ H), (scan_sign_digits _ H).
  assert (map to_lower (of_string s) = of_string s) as ->.
  { revert H. generalize (of_string s). intros l H.
    induction l as [|c l IH]; [reflexivity|].
    simpl in H. apply andb_true_iff in H as [Hc Hl].
    simpl. rewrite (IH Hl). destruct (digit_facts c Hc) as (_ & -> & _). reflexivity. }
  destruct (of_string s) as [|c l] eqn:E; [congruence|].
  simpl in H. apply andb_true_iff in H as [Hc Hl].
  destruct (digit_facts c Hc) as (_ & _ & _ & _ & _ & _ & _ & _ & Hi & Hnn & _).
  assert (chars_eqb (c :: l) (of_string "inf") = false) as ->.
  { unfold chars_eqb. simpl. rewrite Hi. reflexivity. }
  assert (chars_eqb (c :: l) (of_string "infinity") = false) as ->.
  { unfold chars_eqb. simpl. rewrite Hi. reflexivity. }
  assert (chars_eqb (c :: l) (of_string "nan") = false) as ->.
  { unfold chars_eqb. simpl. rewrite Hnn. reflexivity. }
  cbn [orb]. unfold scan_number.
  rewrite (@scan_digitpart_digits (c :: l)) by (try discriminate; simpl; rewrite Hc, Hl; reflexivity).
  cbn [scan_exponent]. rewrite app_nil_r. reflexivity.
Qed.












Lemma number_below s : all_digits s -> 0 <= number s.
Proof. intros [_ H]. apply digits_value_nonneg. exact H. Qed.

(** ** Strings that are no duration *)

Lemma lstrip_chars_blank w : forallb is_space w = true -> lstrip_chars w = [].
Proof.
  induction w as [|c w IH]; simpl; [reflexivity|].
  intro H. apply andb_prop in H as [-> H]. auto.
Qed.

Lemma strip_empty_of_empty s : is_empty s = true -> is_empty (strip s) = true.
Proof. destruct s; [reflexivity|discriminate]. Qed.

Lemma empty_or_blank s : is_empty s || is_empty (strip s) = is_empty (strip s).
Proof.
  destruct (is_empty s) eqn:E; [|reflexivity].
  rewrite (@strip_empty_of_empty _ E). reflexivity.
Qed.






























(** ** File sizes *)

Lemma unit_cases unit k :
  unit_index unit = Some k ->
  0 <= k <= 3 /\
  multiplier unit = 1024 ^ k /\
  float_of_int (multiplier unit) = Ok (S754_finite false 4503599627370496 (10 * k - 52)).
Proof.
  unfold unit_index, multiplier.
  destruct (String.eqb unit "B"); [intro H; injection H as <-; repeat split; lia|].
  destruct (String.eqb unit "KB"); [intro H; injection H as <-; repeat split; lia|].
  destruct (String.eqb unit "MB"); [intro H; injection H as <-; repeat split; lia|].
  destruct (String.eqb unit "GB"); [intro H; injection H as <-; repeat split; lia|].
  discriminate.
Qed.

Lemma is_empty_strip s : is_empty (strip s) = false -> is_empty s = false.
Proof. destruct s; [intro H; exact H|reflexivity]. Qed.

(** [parse_filesize_input] once [float()] has read the magnitude as the
    binary64 [x]: the scaled value, or the exception of [int()] that nothing
    in the function handles. *)
Lemma parse_filesize_of_float size_str unit k x :
  unit_index unit = Some k ->
  is_empty (strip size_str) = false ->
  float_of_str (strip size_str) = Ok x ->
  parse_filesize_input size_str unit =
    match x with
    | S754_zero _ => Ok (Some 0)
    | S754_finite s m e =>
        if magnitude_bits m e + 10 * k <=? 1024
        then Ok (Some (scaled_trunc s m (e + 10 * k)))
        else Raise OverflowError
    | S754_infinity _ => Raise OverflowError
    | S754_nan => Raise ValueError
    end.
Proof.
  intros Hu He Hx. pose proof (float_of_str_valid _ Hx) as Hv.
  destruct (unit_cases _ Hu) as (Hk & _ & Hf).
  unfold parse_filesize_input. rewrite He, (is_empty_strip _ He), Hx. cbn [orb bind try_except].
  unfold float_mul_int. rewrite Hf. cbn [bind].
  destruct x as [s|s| |s m e]; try reflexivity.
  simpl in Hv.
  destruct (@SFmul_pow2 s m e (10 * k) Hv ltac:(lia)) as (z & j & Hj & Hz & ->).
  destruct (magnitude_bits m e + 10 * k <=? 1024); [|reflexivity].
  rewrite int_of_float_scaled. cbn [bind].
  rewrite (@scaled_trunc_shift s m z j (e + 10 * k) Hj Hz). reflexivity.
Qed.

Lemma scaled_trunc_whole p t : 0 <= t -> scaled_trunc false p t = Zpos p * 2 ^ t.
Proof.
  intro Ht. unfold scaled_trunc, cond_Zopp.
  destruct (0 <=? t) eqn:E; [reflexivity|]. apply Z.leb_gt in E. lia.
Qed.

Lemma pow_1024 k : 0 <= k -> 2 ^ (10 * k) = 1024 ^ k.
Proof. intro Hk. rewrite Z.pow_mul_r by lia. reflexivity. Qed.

(** A whole number below [2^53] is scaled without any rounding. *)
Lemma parse_filesize_whole s unit k :
  unit_index unit = Some k -> all_digits s -> number s < 2 ^ 53 ->
  parse_filesize_input s unit = Ok (Some (number s * 1024 ^ k)).
Proof.
  intros Hu Hd Hn. destruct (unit_cases _ Hu) as (Hk & _ & _).
  pose proof (number_below Hd) as H0.
  assert (is_empty (strip s) = false) as He.
  { rewrite (strip_digits Hd). destruct Hd as [Hne _]. destruct s; [congruence|reflexivity]. }
  pose proof (float_of_str_digits Hd) as Hx. rewrite <- (strip_digits Hd) in Hx at 1.
  unfold float_of_decimal in Hx.
  destruct (number s) as [|p|p] eqn:En; try lia.
  - rewrite (@parse_filesize_of_float s unit k _ Hu He Hx); reflexivity.
  - change (0 <=? 0) with true in Hx. cbv iota in Hx.
    rewrite Z.pow_0_r, Z.mul_1_r in Hx.
    destruct (@binary_round_small false p Hn) as (m & j & Hj & Hm & Hr & Hb).
    rewrite Hr in Hx.
    rewrite (@parse_filesize_of_float s unit k _ Hu He Hx).
    pose proof (@digits2_scaled p m j Hj Hm) as Hdm.
    pose proof (digits2_bounds p) as [Bl Bu].
    assert (Zpos (digits2_pos p) <= 53) as Hd53.
    { assert (Zpos (digits2_pos p) - 1 < 53); [|lia].
      apply (Z.pow_lt_mono_r_iff 2); lia. }
    unfold magnitude_bits.
    destruct (Zpos (digits2_pos m) + - j + 10 * k <=? 1024) eqn:E;
      [|apply Z.leb_gt in E; lia].
    replace (- j + 10 * k) with (10 * k - j) by lia.
    rewrite (@scaled_trunc_shift false p m j (10 * k) Hj Hm).
    rewrite scaled_trunc_whole, pow_1024 by lia. reflexivity.
Qed.

Lemma float_of_str_not_empty s x : float_of_str s = Ok x -> is_empty s = false.
Proof. destruct s; [discriminate|reflexivity]. Qed.

(** C9, amended.  Once [float()] has read the magnitude as the finite
    binary64 value x (the double nearest to the typed decimal), and for a
    unit of index k in B, KB, MB, GB: the result is x * 1024^k rounded
    towards zero, computed without further rounding, as long as the product
    stays below 2^1024; a zero gives 0.  A whole number below 2^53 written
    in digits gives exactly that number times 1024^k, and "1.5" MB gives
    1572864. *)
Theorem parse_filesize_scales_binary64 :
  (forall size_str unit k s m e,
     unit_index unit = Some k ->
     float_of_str (strip size_str) = Ok (S754_finite s m e) ->
     magnitude_bits m e + 10 * k <= 1024 ->
     parse_filesize_input size_str unit = Ok (Some (scaled_trunc s m (e + 10 * k)))) /\
  (forall size_str unit k sign,
     unit_index unit = Some k ->
     float_of_str (strip size_str) = Ok (S754_zero sign) ->
     parse_filesize_input size_str unit = Ok (Some 0)) /\
  (forall s unit k,
     unit_index unit = Some k -> all_digits s -> number s < 2 ^ 53 ->
     parse_filesize_input s unit = Ok (Some (number s * 1024 ^ k))) /\
  parse_filesize_input "1.5" "MB" = Ok (Some 1572864).
Proof.
  split; [|split; [|split]].
  - intros size_str unit k s m e Hu Hx Hb.
    rewrite (@parse_filesize_of_float size_str unit k _ Hu (float_of_str_not_empty _ Hx) Hx).
    apply Z.leb_le in Hb. rewrite Hb. reflexivity.
  - intros size_str unit k sign Hu Hx.
    rewrite (@parse_filesize_of_float size_str unit k _ Hu (float_of_str_not_empty _ Hx) Hx).
    reflexivity.
  - intros. apply parse_filesize_whole; assumption.
  - vm_compute. reflexivity.
Qed.

(** ** The claims on concrete inputs *)

(** C3 on the form "duration >= 600": the filter sent to the server carries
    the strict modifier with the value 600. *)
Lemma duration_operator_server_mapping_witness :
  exists c,
    sf_duration (build_scene_filter worker_duration_ge_600) = Some c /\
    modifier c = "GREATER_THAN" /\ value c = 600 /\ value2 c = None.
Proof.
  destruct (@duration_operator_server_mapping GreaterOrEqual form_duration_ge_600
              worker_duration_ge_600)
    as (c & Hc & Hm & Hv & _ & Hn); try (vm_compute; reflexivity).
  exists c. split; [exact Hc|]. split; [exact Hm|]. split.
  - assert (parse_duration_input (strip (duration_value1_edit form_duration_ge_600))
            = Ok (Some 600)) as Hp by (vm_compute; reflexivity).
    rewrite Hp in Hv. injection Hv as Hv. symmetry. exact Hv.
  - apply Hn. discriminate.
Defined.

(** C1 as stated fails: with the threshold 100 B, a scene of exactly 100
    bytes satisfies both non-strict comparisons, yet the handler shows an
    empty table under ">=" and under "<=". *)
Lemma filesize_threshold_scene_rejected :
  _filesize (sized_scene "1" 100) = Some 100 /\
  parse_filesize_input "100" "B" = Ok (Some 100) /\
  exact_holds GreaterOrEqual 100 100 None = true /\
  exact_holds LessOrEqual 100 100 None = true /\
  _on_scenes_found form_size_ge_100 (__init__ []) [sized_scene "1" 100]
    = Ok (Done (setScenes (__init__ []) [])) /\
  _on_scenes_found form_size_le_100 (__init__ []) [sized_scene "1" 100]
    = Ok (Done (setScenes (__init__ []) [])).
Proof. repeat split; vm_compute; reflexivity. Qed.

(** C1 amended, on the form "file size >= 100 B" and scenes of 100, 50 and
    200 bytes: the page size is 10000 and only the 200-byte scene is kept. *)
Lemma filesize_filter_page_size_and_predicate_witness :
  filter_per_page (build_vars worker_size_ge_100) = 10000 /\
  exists v1 v2,
    parse_filesize_input (strip (filesize_value1_edit form_size_ge_100))
                         (filesize_unit1_combo form_size_ge_100) = Ok (Some v1) /\
    (GreaterOrEqual = Between ->
       exists b, v2 = Some b /\
         parse_filesize_input (strip (filesize_value2_edit form_size_ge_100))
                              (filesize_unit2_combo form_size_ge_100) = Ok (Some b)) /\
    [sized_scene "3" 200] =
      filter (fun s => match _filesize s with
                       | Some fs => client_holds GreaterOrEqual fs v1 v2
                       | None => false
                       end)
             [sized_scene "1" 100; sized_scene "2" 50; sized_scene "3" 200].
Proof.
  destruct (@filesize_filter_page_size_and_predicate GreaterOrEqual form_size_ge_100
              worker_size_ge_100 (__init__ [])
              (select_all (setScenes (__init__ []) [sized_scene "3" 200]) true)
              [sized_scene "1" 100; sized_scene "2" 50; sized_scene "3" 200]
              eq_refl eq_refl) as [Hpage Hfilter].
  split.
  - apply Hpage. vm_compute. reflexivity.
  - apply Hfilter. vm_compute. reflexivity.
Defined.

(** C10 on three records, the second already tagged, the third answered
    with another scene's identifier: one count each, three in all. *)
Example tag_run_summary :
  fst (ApplyTagWorker_run no_print no_print
         (GraphQLClient (answering (updated_response "1")))
         [raw_scene "1" [] None []; raw_scene "2" [tag "7" "t"] None [];
          raw_scene "3" [] None []]
         (Some "7") false offline)
  = Ok {| updated := 1; already := 1; skipped_deleted := 0; failed := 1 |}.
Proof. vm_compute. reflexivity. Qed.

(** C4 on a scene tagged "3" that receives the tag "7", and on a scene that
    already has it. *)
Lemma tag_apply_per_record_witness :
  (exists o w',
     apply_tag_scene no_print no_print
       (GraphQLClient (answering (updated_response "1"))) (Some "7") false
       (raw_scene "1" [tag "3" "x"] None []) offline
     = (Ok o, {| world := w';
                 sent := [SetTagIds (Some "1") [Some "3"; Some "7"]] |})) /\
  apply_tag_scene no_print no_print
    (GraphQLClient (answering (updated_response "2"))) (Some "7") false
    (raw_scene "2" [tag "7" "t"] None []) offline
  = (Ok AlreadySatisfied, offline).
Proof.
  split.
  - destruct (@tag_apply_per_record unit no_print no_print
                (GraphQLClient (answering (updated_response "1"))) (Some "7") false
                (raw_scene "1" [tag "3" "x"] None []) offline)
      as (_ & _ & H & _).
    destruct H as (o & w' & Hstep & _).
    + simpl. intros [K|[]]. discriminate.
    + reflexivity.
    + exists o, w'. exact Hstep.
  - destruct (@tag_apply_per_record unit no_print no_print
                (GraphQLClient (answering (updated_response "2"))) (Some "7") false
                (raw_scene "2" [tag "7" "t"] None []) offline)
      as (H & _).
    apply H. simpl. left. reflexivity.
Defined.

Lemma foreign_key_text_occurs :
  occurs_ignoring_case "FOREIGN KEY" "FOREIGN KEY constraint failed".
Proof.
  exists [], (of_string "FOREIGN KEY"), (of_string " constraint failed").
  split; reflexivity.
Qed.

Lemma foreign_key_response_text :
  error_text no_print no_print foreign_key_response "FOREIGN KEY constraint failed".
Proof.
  eexists. split; [reflexivity|]. right.
  exists [JObj [("message", JStr "FOREIGN KEY constraint failed")]],
         ["FOREIGN KEY constraint failed"].
  split; [reflexivity|]. split; [|reflexivity].
  constructor; [|constructor].
  eexists. split; [reflexivity|]. left. reflexivity.
Qed.

Lemma foreign_key_null_response_text :
  error_text no_print no_print foreign_key_null_response "FOREIGN KEY constraint failed".
Proof.
  eexists. split; [reflexivity|]. right.
  exists [JObj [("message", JStr "FOREIGN KEY constraint failed")]],
         ["FOREIGN KEY constraint failed"].
  split; [reflexivity|]. split; [|reflexivity].
  constructor; [|constructor].
  eexists. split; [reflexivity|]. left. reflexivity.
Qed.

(** C2.  The claim fails on the code at two replies a server can send.
    On a reply whose error text is "FOREIGN KEY constraint failed" and whose
    sceneUpdate is null, the tag-apply, rename and performer-assign runs
    through [GraphQLClient] count the record failed, not skipped: reading
    the id of the null result raises inside the try, before the branch
    written for FOREIGN KEY errors is reached.  On the FOREIGN KEY reply the
    studio-assign run through [GraphQLClient] counts the record failed and
    sends nothing: it never reads an error text, and the method it calls is
    not one of the client.  The tag-apply run on the same reply without
    data counts the record skipped, as the claim says. *)
Theorem foreign_key_reply_counted_failed :
  error_text no_print no_print foreign_key_null_response "FOREIGN KEY constraint failed" /\
  error_text no_print no_print foreign_key_response "FOREIGN KEY constraint failed" /\
  occurs_ignoring_case "FOREIGN KEY" "FOREIGN KEY constraint failed" /\
  fst (ApplyTagWorker_run no_print no_print
         (GraphQLClient (answering foreign_key_null_response))
         [raw_scene "1" [] None []] (Some "7") false offline)
    = Ok {| updated := 0; already := 0; skipped_deleted := 0; failed := 1 |} /\
  fst (RenameSceneWorker_run no_print no_print
         (GraphQLClient (answering foreign_key_null_response))
         [raw_scene "1" [] None []] "t" false offline)
    = Ok {| updated := 0; already := 0; skipped_deleted := 0; failed := 1 |} /\
  fst (AssignPerformersWorker_run no_print no_print
         (GraphQLClient (answering foreign_key_null_response))
         [raw_scene "1" [] None []] [Some "5"] false offline)
    = Ok {| updated := 0; already := 0; skipped_deleted := 0; failed := 1 |} /\
  AssignStudioWorker_run (GraphQLClient (answering foreign_key_response))
    [raw_scene "1" [] None []] (Some "9") false offline
    = (Ok {| updated := 0; already := 0; skipped_deleted := 0; failed := 1 |}, offline) /\
  fst (ApplyTagWorker_run no_print no_print
         (GraphQLClient (answering foreign_key_response))
         [raw_scene "1" [] None []] (Some "7") false offline)
    = Ok {| updated := 0; already := 0; skipped_deleted := 1; failed := 0 |}.
Proof.
  split; [apply foreign_key_null_response_text|].
  split; [apply foreign_key_response_text|].
  split; [apply foreign_key_text_occurs|].
  repeat split; vm_compute; reflexivity.
Qed.

(** The shared response handling on the FOREIGN KEY response through a
    client with both methods, and the studio worker on it. *)
Lemma bulk_error_outcomes_witness :
  (exists o,
     mutate no_print no_print (duck_client foreign_key_response)
       (SetTagIds (Some "1") [Some "7"]) (Some "1") offline
     = (Ok o, {| world := tt; sent := [SetTagIds (Some "1") [Some "7"]] |}) /\
     o = SkippedMissingReference) /\
  (exists o n',
     assign_studio_scene (duck_client foreign_key_response) (Some "9") false
       (raw_scene "1" [] None []) offline = (Ok o, n') /\
     o = Failed).
Proof.
  destruct (@bulk_error_outcomes unit no_print no_print (duck_client foreign_key_response)
              [raw_scene "1" [] None []] (Some "7") (Some "9") [] "t")
    as (_ & _ & _ & Hmut & Hstudio & _).
  split.
  - specialize (Hmut (SetTagIds (Some "1") [Some "7"]) (Some "1") offline).
    simpl in Hmut.
    destruct (Hmut "FOREIGN KEY constraint failed") as (o & Ho & Hskip & _).
    + eexists. split; [reflexivity|]. left. reflexivity.
    + apply foreign_key_response_text.
    + exists o. split; [exact Ho|]. apply Hskip. apply foreign_key_text_occurs.
  - destruct (Hstudio (raw_scene "1" [] None []) offline eq_refl eq_refl)
      as (o & n' & Ho & _ & Hfail).
    exists o, n'. split; [exact Ho|].
    specialize (Hfail _ eq_refl). simpl in Hfail.
    apply (Hfail _ eq_refl). reflexivity.
Defined.

(** C6 on a table of two rows: sorting by file size up and then down keeps
    each bit with its record, and a sort on the selector column changes
    nothing. *)
Lemma sort_carries_selection_witness :
  Permutation (rows (sort (sort two_rows 11 AscendingOrder) 11 DescendingOrder))
              (rows two_rows) /\
  sort two_rows 0 AscendingOrder = two_rows.
Proof.
  destruct (@sort_carries_selection two_rows eq_refl) as (_ & _ & Hback & Hselector).
  split.
  - apply Hback.
  - apply Hselector. reflexivity.
Defined.

(** C7 on a table built from two scenes, ticked as a whole and sorted, and
    on a selection by identifier. *)
Lemma selection_vector_stays_aligned_witness :
  aligned (sort (select_all (__init__ [sized_scene "1" 300; sized_scene "2" 100]) true)
                11 DescendingOrder) /\
  exists m', select_by_ids two_rows [Some "2"] = Ok m'.
Proof.
  destruct selection_vector_stays_aligned as (Hreach & _ & _ & Hids).
  split.
  - apply Hreach. eapply reach_step; [eapply reach_step; [apply reach_init|]|].
    + apply step_select_all.
    + apply step_sort.
  - apply Hids. reflexivity.
Defined.

(** C5 as stated fails on a scene whose first file has no path and height
    0: the stored path is the second file's, and there is no label. *)
Lemma first_file_without_path_counterexample :
  map f_path (scene_files odd_scene) = [None; Some "/b.mp4"] /\
  _path (normalize_scene odd_scene) = Some "/b.mp4" /\
  _height (normalize_scene odd_scene) = Some 0 /\
  _resolution (normalize_scene odd_scene) = None.
Proof. repeat split. Qed.

(** The scenario of the specification: sizes 100 and 250, durations 10 and
    40, heights 720 and 1080. *)
Example normalizer_two_file_scenario :
  _filesize (normalize_scene two_file_scene) = Some 250 /\
  _duration (normalize_scene two_file_scene) = Some (round_Z 40) /\
  _height (normalize_scene two_file_scene) = Some 1080 /\
  _resolution (normalize_scene two_file_scene) = Some "1080p" /\
  _path (normalize_scene two_file_scene) = Some "/a.mp4".
Proof. repeat split. Qed.



(** C9 as stated fails: 312.6109956 GB is 335663500617.9999... bytes, and
    the code returns 335663500618. *)
Lemma filesize_rounding_counterexample :
  scan_number (of_string "312.6109956")
    = Some (of_string "312", of_string "6109956", []) /\
  exact_filesize (digits_value (of_string "3126109956")) (-7) 3 = 335663500617 /\
  parse_filesize_input "312.6109956" "GB" = Ok (Some 335663500618).
Proof. repeat split; vm_compute; reflexivity. Qed.

(** C9 amended, on "1.5" MB (the float 1.5 is [6755399441055744 * 2^-52]),
    on "0.0" KB and on the whole number "500" MB. *)
Lemma parse_filesize_scales_binary64_witness :
  parse_filesize_input "1.5" "MB"
    = Ok (Some (scaled_trunc false 6755399441055744 (-52 + 10 * 2))) /\
  parse_filesize_input "0.0" "KB" = Ok (Some 0) /\
  parse_filesize_input "500" "MB" = Ok (Some (number "500" * 1024 ^ 2)).
Proof.
  destruct parse_filesize_scales_binary64 as (Hfloat & Hzero & Hwhole & _).
  split; [|split].
  - apply (Hfloat "1.5" "MB" 2 false 6755399441055744%positive (-52));
      vm_compute; try reflexivity. discriminate.
  - apply (Hzero "0.0" "KB" 1 false); vm_compute; reflexivity.
  - apply Hwhole; [reflexivity| |vm_compute; reflexivity].
    split; [discriminate|reflexivity].
Defined.

(* ================================================================== *)
(** * Further properties of the code *)
(* ================================================================== *)

Import Builtins Display Lookup Settings Properties Examples.
Open Scope string_scope.
Open Scope Z_scope.

(** ** White space around typed values *)

Lemma lstrip_chars_app l x :
  lstrip_chars (l ++ x)%list =
  match lstrip_chars l with
  | [] => lstrip_chars x
  | r => (r ++ x)%list
  end.
Proof.
  induction l as [|c l IH]; simpl; [destruct (lstrip_chars x); reflexivity|].
  destruct (is_space c); [exact IH|reflexivity].
Qed.

Lemma lstrip_chars_pad w l :
  forallb is_space w = true -> lstrip_chars (w ++ l)%list = lstrip_chars l.
Proof.
  intro H. rewrite lstrip_chars_app, (lstrip_chars_blank w H).
  destruct (lstrip_chars l); reflexivity.
Qed.

Lemma forallb_rev {A} (p : A -> bool) l : forallb p (rev l) = forallb p l.
Proof.
  induction l as [|a l IH]; simpl; [reflexivity|].
  rewrite forallb_app, IH. simpl. rewrite andb_true_r. apply andb_comm.
Qed.

Lemma strip_chars_pad w1 l w2 :
  forallb is_space w1 = true -> forallb is_space w2 = true ->
  strip_chars (w1 ++ l ++ w2)%list = strip_chars l.
Proof.
  intros H1 H2. unfold strip_chars. rewrite (lstrip_chars_pad w1 _ H1).
  rewrite lstrip_chars_app.
  destruct (lstrip_chars l) as [|c r] eqn:E.
  - rewrite (lstrip_chars_blank w2 H2). reflexivity.
  - rewrite rev_app_distr. rewrite lstrip_chars_pad; [reflexivity|].
    rewrite forallb_rev. exact H2.
Qed.

Lemma strip_pad pre s post :
  blank pre -> blank post -> strip (pre ++ s ++ post) = strip s.
Proof.
  intros H1 H2. unfold strip. rewrite !of_string_app.
  rewrite (strip_chars_pad _ _ _ H1 H2). reflexivity.
Qed.

Lemma strip_blank s : blank s -> strip s = "".
Proof.
  intro H. unfold strip, strip_chars. rewrite (lstrip_chars_blank _ H). reflexivity.
Qed.

(** X1.  White space before and after the typed text changes nothing for
    [parse_duration_input] and [parse_filesize_input], and white space alone
    gives the invalid result, with no exception. *)
Theorem parsers_ignore_surrounding_space (pre s post : string) :
  blank pre -> blank post ->
  parse_duration_input (pre ++ s ++ post) = parse_duration_input s /\
  (forall unit, parse_filesize_input (pre ++ s ++ post) unit
                = parse_filesize_input s unit) /\
  (blank s ->
   parse_duration_input s = Ok None /\
   forall unit, parse_filesize_input s unit = Ok None).
Proof.
  intros H1 H2.
  pose proof (strip_pad s H1 H2) as E.
  split; [|split].
  - unfold parse_duration_input. rewrite !empty_or_blank, E. reflexivity.
  - intro unit. unfold parse_filesize_input. rewrite !empty_or_blank, E. reflexivity.
  - intro Hs. pose proof (strip_blank Hs) as Es. split.
    + unfold parse_duration_input. rewrite empty_or_blank, Es. reflexivity.
    + intro unit. unfold parse_filesize_input. rewrite empty_or_blank, Es. reflexivity.
Qed.

Lemma parsers_ignore_surrounding_space_witness :
  parse_duration_input (" " ++ "10:30" ++ "  ") = parse_duration_input "10:30" /\
  parse_filesize_input (" " ++ "1.5" ++ "  ") "MB" = parse_filesize_input "1.5" "MB" /\
  parse_duration_input "   " = Ok None.
Proof.
  destruct (@parsers_ignore_surrounding_space " " "10:30" "  ") as (A & _ & _);
    [reflexivity|reflexivity|].
  destruct (@parsers_ignore_surrounding_space " " "1.5" "  ") as (_ & B & _);
    [reflexivity|reflexivity|].
  destruct (@parsers_ignore_surrounding_space "" "   " "") as (_ & _ & C);
    [reflexivity|reflexivity|].
  split; [exact A|]. split; [apply B|]. apply C. reflexivity.
Defined.

(** ** Exceptions that leave [parse_duration_input] *)



(** ** [human_duration] *)

Lemma of_string_snoc x c :
  of_string (x ++ String c EmptyString) = (of_string x ++ [c])%list.
Proof. rewrite of_string_app. reflexivity. Qed.

Lemma ends_with_neq (x : string) (c d : ascii) (y : string) :
  c <> d -> (x ++ String c EmptyString) <> (y ++ String d EmptyString).
Proof.
  intros Hcd H. apply (f_equal of_string) in H. rewrite !of_string_snoc in H.
  apply app_inj_tail in H. destruct H as [_ H]. contradiction.
Qed.

Lemma append_assoc (a b c : string) : ((a ++ b) ++ c) = (a ++ (b ++ c)).
Proof. induction a as [|x a IH]; simpl; [reflexivity|]. rewrite IH. reflexivity. Qed.

Lemma seconds_text_known (x : string) : (x ++ "s") <> "Unknown".
Proof. apply (@ends_with_neq x "s" "n" "Unknow"). discriminate. Qed.

(** X3.  [human_duration] gives [Unknown] exactly for no duration, a NaN or an
    infinity, or a duration that truncates to a negative number of seconds. *)
Theorem human_duration_unknown (seconds : option pyfloat) :
  human_duration seconds = "Unknown" <->
  match seconds with
  | None => True
  | Some f =>
      match int_of_float f with
      | Ok total_secs => total_secs < 0
      | Raise _ => True
      end
  end.
Proof.
  unfold human_duration. destruct seconds as [f|]; [|tauto].
  destruct (int_of_float f) as [t|e]; [|tauto].
  destruct (t <? 0) eqn:E.
  - apply Z.ltb_lt in E. tauto.
  - apply Z.ltb_ge in E. split; [|lia]. intro H. exfalso.
    destruct (0 <? t / 3600).
    + rewrite <- !append_assoc in H. exact (seconds_text_known _ H).
    + destruct (0 <? t mod 3600 / 60).
      * rewrite <- !append_assoc in H. exact (seconds_text_known _ H).
      * exact (seconds_text_known _ H).
Qed.

(** X4.  For h * 3600 + m * 60 + s seconds, with m and s below 60,
    [human_duration] prints h, m and s; it leaves out the hours when h is 0,
    and the minutes too when both are 0. *)
Theorem human_duration_parts (f : pyfloat) (h m s : Z) :
  int_of_float f = Ok (h * 3600 + m * 60 + s) ->
  0 <= h -> 0 <= m < 60 -> 0 <= s < 60 ->
  human_duration (Some f) =
    if 0 <? h then
      str_of_int h ++ "h " ++ str_of_int m ++ "m " ++ str_of_int s ++ "s"
    else if 0 <? m then str_of_int m ++ "m " ++ str_of_int s ++ "s"
    else str_of_int s ++ "s".
Proof.
  intros Hf Hh Hm Hs. unfold human_duration. rewrite Hf.
  set (t := h * 3600 + m * 60 + s).
  assert (t / 3600 = h) as E1.
  { symmetry. apply (Z.div_unique t 3600 h (m * 60 + s)); [left|subst t]; lia. }
  assert (t mod 3600 = m * 60 + s) as E2.
  { symmetry. apply (Z.mod_unique t 3600 h (m * 60 + s)); [left|subst t]; lia. }
  assert (t mod 60 = s) as E3.
  { symmetry. apply (Z.mod_unique t 60 (h * 60 + m) s); [left|subst t]; lia. }
  assert ((m * 60 + s) / 60 = m) as E4.
  { symmetry. apply (Z.div_unique (m * 60 + s) 60 m s); [left|]; lia. }
  destruct (t <? 0) eqn:E; [apply Z.ltb_lt in E; subst t; lia|].
  rewrite E1, E2, E3, E4. reflexivity.
Qed.

Lemma human_duration_parts_witness :
  human_duration (Some (round_Z 5445)) = "1h 30m 45s" /\
  human_duration (Some (round_Z 125)) = "2m 5s".
Proof.
  split.
  - apply (@human_duration_parts (round_Z 5445) 1 30 45); [reflexivity|lia|lia|lia].
  - apply (@human_duration_parts (round_Z 125) 0 2 5); [reflexivity|lia|lia|lia].
Defined.

(** ** [human_size] *)

(** Rounding a mantissa that sits above the smallest exponent keeps the
    sign and gives no zero. *)
Lemma binary_round_aux_signed s m e l :
  0 <= m -> e <= fexp prec emax (Zdigits2 m + e) -> -1074 < e ->
  (exists m' e', binary_round_aux prec emax s m e l = S754_finite s m' e') \/
  binary_round_aux prec emax s m e l = S754_infinity s.
Proof.
  intros Hm He Hlow. unfold binary_round_aux.
  pose proof (shr_fexp_canonical l Hm He) as [H1 C1].
  pose proof (shr_fexp_m e l Hm) as [_ S1]. cbv zeta in S1.
  destruct (shr_fexp prec emax m e l) as [r1 e1]. simpl fst in *. simpl snd in *.
  pose proof (@canonical_after_rounding (shr_m r1) e1 (loc_of_shr_record r1) H1 C1)
    as [H2 C2].
  cbv zeta in H2, C2.
  assert (0 <= round_nearest_even (shr_m r1) (loc_of_shr_record r1)) as Hr.
  { destruct (round_nearest_even_cases (shr_m r1) (loc_of_shr_record r1)) as [-> | ->]; lia. }
  pose proof (shr_fexp_m e1 loc_Exact Hr) as [_ S2]. cbv zeta in S2.
  destruct (shr_fexp prec emax (round_nearest_even (shr_m r1) (loc_of_shr_record r1))
              e1 loc_Exact) as [r2 e2]. simpl fst in *. simpl snd in *.
  destruct (shr_m r2) as [|p|p]; try lia.
  - exfalso. unfold canonical_at in C2. simpl Zdigits2 in C2.
    rewrite fexp_eq in C2. lia.
  - destruct (e2 <=? emax - prec); [left; eauto|right; reflexivity].
Qed.

Lemma binary_round_signed s p :
  (exists m e, binary_round prec emax s p 0 = S754_finite s m e) \/
  binary_round prec emax s p 0 = S754_infinity s.
Proof.
  unfold binary_round, shl_align.
  pose proof (digits2_bounds p) as [Bl Bu].
  assert (0 < Zpos (digits2_pos p)) as Hd by lia.
  destruct (fexp prec emax (Zpos (digits2_pos p) + 0) - 0) as [|d|d] eqn:E.
  - apply binary_round_aux_signed; [lia| |lia]. simpl Zdigits2. lia.
  - apply binary_round_aux_signed; [lia| |lia]. simpl Zdigits2. lia.
  - rewrite fexp_eq in E.
    apply binary_round_aux_signed; [lia| |rewrite fexp_eq; lia]. simpl Zdigits2.
    rewrite (@digits2_scaled p (PosDef.Pos.iter xO p d) (Zpos d))
      by (try lia; apply pos_iter_xO).
    rewrite !fexp_eq in *. lia.
Qed.

(** [float(n)] has the sign of [n]. *)
Lemma float_of_int_sign n b :
  float_of_int n = Ok b ->
  float_cmp_int b 0 = Some (n ?= 0).
Proof.
  unfold float_of_int, round_Z, binary_normalize.
  destruct n as [|p|p].
  - intro H. injection H as <-. reflexivity.
  - destruct (binary_round_signed false p) as [(m & e & ->) | ->]; [|discriminate].
    intro H. injection H as <-. simpl.
    destruct (0 <=? e) eqn:E; [|reflexivity].
    apply Z.leb_le in E.
    assert (0 < 2 ^ e) by (apply Z.pow_pos_nonneg; lia).
    f_equal. apply Z.compare_gt_iff. destruct (2 ^ e); lia.
  - destruct (binary_round_signed true p) as [(m & e & ->) | ->]; [|discriminate].
    intro H. injection H as <-. simpl.
    destruct (0 <=? e) eqn:E; [|reflexivity].
    apply Z.leb_le in E.
    assert (0 < 2 ^ e) by (apply Z.pow_pos_nonneg; lia).
    f_equal. apply Z.compare_lt_iff. destruct (2 ^ e); lia.
Qed.

Lemma scale_down_unit rest : forall b unit,
  In (snd (scale_down b unit rest)) (unit :: rest).
Proof.
  induction rest as [|next rest IH]; intros b unit; simpl; [auto|].
  destruct (at_least_1024 b); [right; apply IH|left; reflexivity].
Qed.

Lemma size_text_known (x unit : string) :
  In unit ["B"; "KB"; "MB"; "GB"; "TB"; "PB"] -> (x ++ " " ++ unit) <> "Unknown".
Proof.
  intros Hu H.
  assert (exists y, unit = y ++ "B") as (y & ->).
  { simpl in Hu.
    destruct Hu as [<-|[<-|[<-|[<-|[<-|[<-|[]]]]]]];
      [exists ""|exists "K"|exists "M"|exists "G"|exists "T"|exists "P"]; reflexivity. }
  rewrite <- !append_assoc in H.
  exact (@ends_with_neq _ "B" "n" "Unknow" ltac:(discriminate) H).
Qed.

(** X5.  [human_size] gives [Unknown] exactly for no size, a negative size, or
    a size too large for a float. *)
Theorem human_size_unknown (num_bytes : option Z) :
  human_size num_bytes = "Unknown" <->
  match num_bytes with
  | None => True
  | Some n => n < 0 \/ float_of_int n = Raise OverflowError
  end.
Proof.
  unfold human_size. destruct num_bytes as [n|]; [|tauto].
  destruct (float_of_int n) as [b|e] eqn:Ef.
  - rewrite (float_of_int_sign _ Ef).
    destruct (n ?= 0) eqn:Ec.
    + apply Z.compare_eq_iff in Ec. split; [|intros [K|K]; [lia|discriminate]].
      intro H. exfalso.
      pose proof (scale_down_unit ["KB"; "MB"; "GB"; "TB"; "PB"] b "B") as Hu.
      destruct (scale_down b "B" _) as [b' unit]. exact (size_text_known _ Hu H).
    + apply Z.compare_lt_iff in Ec. tauto.
    + apply Z.compare_gt_iff in Ec. split; [|intros [K|K]; [lia|discriminate]].
      intro H. exfalso.
      pose proof (scale_down_unit ["KB"; "MB"; "GB"; "TB"; "PB"] b "B") as Hu.
      destruct (scale_down b "B" _) as [b' unit]. exact (size_text_known _ Hu H).
  - split; [intros _; right|reflexivity].
    unfold float_of_int in Ef |- *. destruct (round_Z n); congruence.
Qed.

Lemma human_size_unknown_witness :
  human_size (Some (-1)) = "Unknown" /\ human_size (Some (2 ^ 1024)) = "Unknown".
Proof.
  split.
  - apply (proj2 (human_size_unknown (Some (-1)))). left. lia.
  - apply (proj2 (human_size_unknown (Some (2 ^ 1024)))). right. vm_compute. reflexivity.
Defined.

(** A check on every whole number from 1 to 1023. *)
Lemma below_1024 (P : Z -> bool) :
  forallb P (map Z.of_nat (seq 1 1023)) = true ->
  forall k, 1 <= k < 1024 -> P k = true.
Proof.
  intros H k Hk. rewrite forallb_forall in H. apply H.
  replace k with (Z.of_nat (Z.to_nat k)) by lia.
  apply in_map, in_seq. lia.
Qed.

(** X6.  k units, for a whole k from 1 to 1023 and each unit from B to PB, are
    shown as k.00 and the unit; for B, KB, MB and GB this is what
    [parse_filesize_input] reads from k typed with that unit. *)
Theorem human_size_whole_units (k : Z) (i : nat) (unit : string) :
  1 <= k < 1024 ->
  nth_error size_units i = Some unit ->
  human_size (Some (k * 1024 ^ Z.of_nat i)) = str_of_int k ++ ".00 " ++ unit /\
  ((i <= 3)%nat ->
   parse_filesize_input (str_of_int k) unit = Ok (Some (k * 1024 ^ Z.of_nat i))).
Proof.
  intros Hk Hu.
  assert (shows_whole k i unit = true /\ ((i <= 3)%nat -> reads_whole k i unit = true))
    as [Hs Hr].
  { do 6 (destruct i as [|i];
          [injection Hu as <-;
           split; [revert k Hk; apply below_1024; vm_compute; reflexivity
                  |intro Hi; try lia;
                   revert k Hk; apply below_1024; vm_compute; reflexivity]|]).
    destruct i; discriminate. }
  split.
  - apply String.eqb_eq. exact Hs.
  - intro Hi. specialize (Hr Hi). unfold reads_whole in Hr.
    destruct (parse_filesize_input (str_of_int k) unit) as [[n|]|e]; try discriminate.
    apply Z.eqb_eq in Hr. subst n. reflexivity.
Qed.

Lemma human_size_whole_units_witness :
  human_size (Some (500 * 1024 ^ 2)) = "500.00 MB" /\
  parse_filesize_input "500" "MB" = Ok (Some (500 * 1024 ^ 2)).
Proof.
  destruct (@human_size_whole_units 500 2 "MB") as [A B]; [lia|reflexivity|].
  split; [exact A|]. apply B. lia.
Defined.

(** ** Ticking rows *)

Lemma selected_all_true (scenes : list scene) : forall (checked : list bool),
  List.length checked = List.length scenes ->
  map fst (filter snd (combine scenes (map (fun _ => true) checked))) = scenes.
Proof.
  induction scenes as [|s tl IH]; intros [|c cs] H; simpl in *; try reflexivity; try lia.
  f_equal. apply IH. lia.
Qed.

Lemma selected_all_false (scenes : list scene) : forall (checked : list bool),
  map fst (filter snd (combine scenes (map (fun _ => false) checked))) = [].
Proof.
  induction scenes as [|s tl IH]; intros [|c cs]; simpl; try reflexivity. apply IH.
Qed.

(** X7.  On an aligned table [select_all] with [True] makes
    [get_selected_scenes] return all records, with [False] none; the records
    stay as they are. *)
Theorem select_all_ticks_every_row (m : model) :
  aligned m ->
  get_selected_scenes (select_all m true) = _scenes m /\
  get_selected_scenes (select_all m false) = [] /\
  forall val, _scenes (select_all m val) = _scenes m.
Proof.
  unfold aligned. intro Ha. split; [|split].
  - unfold get_selected_scenes, select_all.
    destruct (_checked m) as [|c cs] eqn:E.
    + rewrite E. destruct (_scenes m); [reflexivity|discriminate].
    + cbn [_scenes _checked with_checked]. apply selected_all_true. exact Ha.
  - unfold get_selected_scenes, select_all.
    destruct (_checked m) as [|c cs] eqn:E.
    + rewrite E. destruct (_scenes m); reflexivity.
    + cbn [_scenes _checked with_checked]. apply selected_all_false.
  - intro val. apply select_all_scenes.
Qed.

Lemma select_all_ticks_every_row_witness :
  get_selected_scenes (select_all two_rows true) = _scenes two_rows /\
  get_selected_scenes (select_all two_rows false) = [].
Proof.
  destruct (@select_all_ticks_every_row two_rows) as (A & B & _); [reflexivity|].
  split; assumption.
Defined.

Lemma ticks_of_length (l : list scene) :
  map (fun _ : bool => true) (repeat false (List.length l)) = map (fun _ => true) l.
Proof. induction l as [|x l IH]; simpl; [reflexivity|]. f_equal. exact IH. Qed.

(** X8.  [_on_scenes_found] leaves every shown record ticked; the shown
    records are fetched ones, in fetch order, all of them when the file-size
    filter is off; the visible columns are kept. *)
Theorem found_scenes_shown_ticked (f : form) (tm m' : model) (scenes : list scene) :
  _on_scenes_found f tm scenes = Ok (Done m') ->
  get_selected_scenes m' = _scenes m' /\
  _checked m' = map (fun _ => true) (_scenes m') /\
  (exists keep, _scenes m' = filter keep scenes) /\
  (enable_filesize_filter_checkbox f = false -> _scenes m' = scenes) /\
  _visible_columns m' = _visible_columns tm.
Proof.
  unfold _on_scenes_found. intro H.
  assert (exists l, m' = select_all (setScenes tm l) true /\
                    (exists keep, l = filter keep scenes) /\
                    (enable_filesize_filter_checkbox f = false -> l = scenes))
    as (l & -> & Hk & Hn).
  { destruct (enable_filesize_filter_checkbox f).
    - destruct (read_filesize f) as [[t|[[op v1] v2]]|e]; simpl in H; try discriminate.
      injection H as <-. eexists. split; [reflexivity|]. split; [eauto|discriminate].
    - simpl in H. injection H as <-. exists scenes. split; [reflexivity|].
      split; [|reflexivity]. exists (fun _ => true).
      symmetry. apply forallb_filter_id. apply forallb_forall. reflexivity. }
  destruct (@select_all_ticks_every_row (setScenes tm l) (aligned_setScenes tm l))
    as (A & _ & B).
  rewrite A, B. cbn [setScenes _scenes].
  split; [reflexivity|]. split; [|split; [exact Hk|split; [exact Hn|]]].
  - unfold select_all, setScenes, all_false. cbn [_checked _scenes with_checked].
    destruct l as [|s l]; [reflexivity|].
    cbn [List.length repeat _checked with_checked map]. f_equal. apply ticks_of_length.
  - unfold select_all, setScenes. cbn [_checked].
    destruct (all_false (List.length l)); reflexivity.
Qed.

Lemma found_scenes_shown_ticked_witness :
  exists m',
    _on_scenes_found form_size_ge_100 (__init__ [])
      [sized_scene "1" 100; sized_scene "2" 300] = Ok (Done m') /\
    get_selected_scenes m' = _scenes m' /\ _scenes m' = [sized_scene "2" 300].
Proof.
  eexists. split; [vm_compute; reflexivity|].
  split; [|reflexivity].
  refine (proj1 (@found_scenes_shown_ticked form_size_ge_100 (__init__ []) _
                   [sized_scene "1" 100; sized_scene "2" 300] _)).
  vm_compute. reflexivity.
Defined.

(** ** Writing one position of a list *)

Lemma set_item_spec {A} (l : list A) : forall i v l',
  set_item l i v = Ok l' ->
  (i < List.length l)%nat /\ l' = (firstn i l ++ v :: skipn (S i) l)%list.
Proof.
  induction l as [|x l IH]; intros i v l' H; simpl in H; [discriminate|].
  destruct i as [|i].
  - injection H as <-. simpl. split; [lia|reflexivity].
  - destruct (set_item l i v) as [tl'|e] eqn:E; simpl in H; [|discriminate].
    injection H as <-. destruct (IH _ _ _ E) as [Hi ->]. simpl. split; [lia|reflexivity].
Qed.

Lemma set_item_nth {A} (l : list A) i v l' :
  set_item l i v = Ok l' ->
  nth_error l' i = Some v /\
  forall j, j <> i -> nth_error l' j = nth_error l j.
Proof.
  intro H. destruct (set_item_spec _ _ _ H) as [Hi ->]. split.
  - rewrite nth_error_app2 by (rewrite length_firstn; lia).
    rewrite length_firstn. replace (i - Nat.min i (List.length l))%nat with 0%nat by lia.
    reflexivity.
  - intros j Hj. destruct (Nat.lt_ge_cases j i) as [Hlt|Hge].
    + rewrite nth_error_app1 by (rewrite length_firstn; lia).
      rewrite nth_error_firstn.
      destruct (Nat.ltb_spec j i); [reflexivity|lia].
    + rewrite nth_error_app2 by (rewrite length_firstn; lia).
      rewrite length_firstn. replace (Nat.min i (List.length l)) with i by lia.
      destruct (j - i)%nat as [|k] eqn:Ek; [lia|]. cbn [nth_error].
      rewrite nth_error_skipn. f_equal. lia.
Qed.

Lemma mark_ids_spec id_set scenes : forall i checked checked',
  mark_ids id_set scenes i checked = Ok checked' ->
  checked' = (firstn i checked
              ++ map (fun s => existsb (pyid_eqb (scene_id s)) id_set) scenes
              ++ skipn (i + List.length scenes) checked)%list.
Proof.
  induction scenes as [|s tl IH]; intros i checked checked' H; simpl in H.
  - injection H as <-. simpl. rewrite Nat.add_0_r. symmetry. apply firstn_skipn.
  - destruct (set_item checked i _) as [c1|e] eqn:E; simpl in H; [|discriminate].
    destruct (set_item_spec _ _ _ E) as [Hi ->].
    rewrite (IH _ _ _ H). cbn [map List.length].
    rewrite firstn_app, firstn_firstn, length_firstn.
    replace (Nat.min (S i) i) with i by lia.
    replace (S i - Nat.min i (List.length checked))%nat with 1%nat by lia.
    cbn [firstn]. rewrite <- app_assoc. cbn [app]. f_equal. f_equal. f_equal.
    rewrite skipn_app, length_firstn.
    replace (Nat.min i (List.length checked)) with i by lia.
    rewrite skipn_firstn_comm.
    replace (i - (S i + List.length tl))%nat with 0%nat by lia. cbn [firstn app].
    replace (S i + List.length tl - i)%nat with (S (List.length tl)) by lia.
    change (skipn (S (List.length tl)) (existsb (pyid_eqb (scene_id s)) id_set
                                          :: skipn (S i) checked))
      with (skipn (List.length tl) (skipn (S i) checked)).
    rewrite skipn_skipn. f_equal. lia.
Qed.

Lemma selected_by_map (keep : scene -> bool) (scenes : list scene) :
  map fst (filter snd (combine scenes (map keep scenes))) = filter keep scenes.
Proof.
  induction scenes as [|s tl IH]; simpl; [reflexivity|].
  destruct (keep s); simpl; rewrite IH; reflexivity.
Qed.

(** X9.  After [select_by_ids] on an aligned table a row is ticked exactly
    when its id is in the set; [get_selected_scenes] returns those records in
    table order. *)
Theorem select_by_ids_ticks_members (m m' : model) (id_set : list pyid) :
  aligned m ->
  select_by_ids m id_set = Ok m' ->
  let member := fun s => existsb (pyid_eqb (scene_id s)) id_set in
  _scenes m' = _scenes m /\
  _checked m' = map member (_scenes m) /\
  get_selected_scenes m' = filter member (_scenes m).
Proof.
  intros Ha H member. unfold aligned in Ha.
  assert (_scenes m' = _scenes m /\ _checked m' = map member (_scenes m)) as [Hs Hc].
  { unfold select_by_ids in H. destruct (_checked m) as [|c cs] eqn:E.
    - injection H as <-. split; [reflexivity|]. rewrite E.
      destruct (_scenes m); [reflexivity|discriminate].
    - destruct (mark_ids id_set (_scenes m) 0 (c :: cs)) as [c'|e] eqn:Em;
        simpl in H; [|discriminate].
      injection H as <-. split; [reflexivity|].
      cbn [_checked with_checked]. rewrite (mark_ids_spec _ _ _ _ Em).
      cbn [firstn app Nat.add]. rewrite <- Ha, skipn_all. apply app_nil_r. }
  split; [exact Hs|]. split; [exact Hc|].
  unfold get_selected_scenes. rewrite Hs, Hc. apply selected_by_map.
Qed.

Lemma select_by_ids_ticks_members_witness :
  exists m', select_by_ids two_rows [Some "1"] = Ok m' /\
             _checked m' = [true; false] /\
             get_selected_scenes m' = [sized_scene "1" 300].
Proof.
  eexists. split; [vm_compute; reflexivity|].
  refine (proj2 (@select_by_ids_ticks_members two_rows _ [Some "1"] _ _)).
  - reflexivity.
  - vm_compute. reflexivity.
Defined.

(** The bit a toggle writes. *)
Lemma setData_inv (m m' : model) index value role flag :
  setData m index value role = Ok (flag, m') ->
  (flag = false /\ m' = m) \/
  (flag = true /\
   exists row column checked,
     index = Some (row, column) /\
     nth_error (_visible_columns m) column = Some 0 /\
     role = CheckStateRole /\
     set_item (_checked m) row
       (match value with
        | StateValue Checked | IntValue 2 => true
        | _ => false
        end) = Ok checked /\
     m' = with_checked m checked).
Proof.
  unfold setData. intro H.
  destruct index as [[row column]|]; [|injection H as <- <-; left; split; reflexivity].
  unfold item in H.
  destruct (nth_error (_visible_columns m) column) as [actual_col|] eqn:Ec;
    simpl in H; [|discriminate].
  destruct (actual_col =? 0) eqn:E0; [|injection H as <- <-; left; split; reflexivity].
  apply Z.eqb_eq in E0. subst actual_col.
  destruct role; try (injection H as <- <-; left; split; reflexivity).
  destruct (set_item (_checked m) row _) as [checked|e] eqn:E; simpl in H; [|discriminate].
  injection H as <- <-. right. split; [reflexivity|].
  exists row, column, checked. repeat split; assumption.
Qed.

(** X10.  [setData] leaves records and columns alone; returning [False] it
    changes nothing, returning [True] it has written the bit of the addressed
    row of the Select column, and no other bit. *)
Theorem setData_writes_one_bit (m m' : model) (index : QModelIndex) (value : variant)
    (role : ItemDataRole) (flag : bool) :
  setData m index value role = Ok (flag, m') ->
  _scenes m' = _scenes m /\
  _visible_columns m' = _visible_columns m /\
  (flag = false -> m' = m) /\
  (flag = true ->
   exists row column,
     index = Some (row, column) /\
     nth_error (_visible_columns m) column = Some 0 /\
     role = CheckStateRole /\
     nth_error (_checked m') row
       = Some (match value with
               | StateValue Checked | IntValue 2 => true
               | _ => false
               end) /\
     forall r, r <> row -> nth_error (_checked m') r = nth_error (_checked m) r).
Proof.
  intro H.
  destruct (setData_inv _ _ _ _ H)
    as [[-> ->] | (-> & row & column & checked & -> & Hc & -> & Hs & ->)].
  - repeat split; try reflexivity. discriminate.
  - cbn [_scenes _visible_columns _checked with_checked].
    split; [reflexivity|]. split; [reflexivity|]. split; [discriminate|].
    intros _. exists row, column.
    destruct (set_item_nth _ _ _ Hs) as [Hn Ho].
    repeat split; assumption.
Qed.

Lemma setData_writes_one_bit_witness :
  exists m', setData two_rows (Some (0%nat, 0%nat)) (IntValue 2) CheckStateRole
               = Ok (true, m') /\
             _checked m' = [true; true] /\ _scenes m' = _scenes two_rows.
Proof.
  eexists. split; [vm_compute; reflexivity|]. split; [reflexivity|].
  refine (proj1 (@setData_writes_one_bit two_rows _ (Some (0%nat, 0%nat)) (IntValue 2)
                   CheckStateRole true _)).
  vm_compute. reflexivity.
Defined.

(** X11.  Through any sequence of sorts [get_selected_scenes] returns the same
    records up to their order. *)
Theorem sort_keeps_ticked_scenes (m : model) (requests : list (Z * SortOrder)) :
  Permutation (get_selected_scenes (sorts m requests)) (get_selected_scenes m) /\
  List.length (get_selected_scenes (sorts m requests))
    = List.length (get_selected_scenes m).
Proof.
  assert (Permutation (get_selected_scenes (sorts m requests)) (get_selected_scenes m))
    as H.
  { unfold get_selected_scenes.
    apply Permutation_map.
    pose proof (rows_sorts requests m) as Hp. unfold rows in Hp.
    revert Hp. generalize (combine (_scenes (sorts m requests)) (_checked (sorts m requests))).
    generalize (combine (_scenes m) (_checked m)).
    intros l1 l2 Hp. induction Hp as [|x a b Hab IH|x y a|a b c Hab IH1 Hbc IH2]; simpl.
    - constructor.
    - destruct (snd x); [constructor|]; exact IH.
    - destruct (snd x), (snd y); try reflexivity. apply perm_swap.
    - etransitivity; eassumption. }
  split; [exact H|]. apply Permutation_length. exact H.
Qed.

(** X12.  After a toggle that [setData] accepts, [data] reads the new state
    back at that index; the other rows, and every displayed text, are as
    before. *)
Theorem ticked_state_reads_back (m m' : model) (row column : nat) (value : variant) :
  aligned m ->
  setData m (Some (row, column)) value CheckStateRole = Ok (true, m') ->
  data m' (Some (row, column)) CheckStateRole
    = Ok (StateCell (match value with
                     | StateValue Checked | IntValue 2 => Checked
                     | _ => Unchecked
                     end)) /\
  (forall r c role, r <> row ->
     data m' (Some (r, c)) role = data m (Some (r, c)) role) /\
  (forall index, data m' index DisplayRole = data m index DisplayRole).
Proof.
  intros Ha H.
  destruct (setData_inv _ _ _ _ H)
    as [[K _] | (_ & row' & column' & checked & Hi & Hc & _ & Hs & ->)];
    [discriminate|].
  injection Hi as <- <-.
  destruct (set_item_nth _ _ _ Hs) as [Hn Ho].
  destruct (set_item_spec _ _ _ Hs) as [Hr _].
  unfold aligned in Ha.
  split; [|split].
  - unfold data, item. cbn [_scenes _visible_columns _checked with_checked].
    destruct (nth_error (_scenes m) row) as [scene|] eqn:Es;
      [|apply nth_error_None in Es; lia].
    rewrite Hc. cbn [bind]. rewrite Hn. cbn [bind].
    destruct value as [[]|z|]; try reflexivity.
    destruct z as [|[[]|[]|]|]; reflexivity.
  - intros r c role Hrow. unfold data, item.
    cbn [_scenes _visible_columns _checked with_checked].
    rewrite (Ho r Hrow). reflexivity.
  - intros [[r c]|]; [|reflexivity].
    unfold data. cbn [_scenes _visible_columns _checked with_checked]. reflexivity.
Qed.

Lemma ticked_state_reads_back_witness :
  exists m', setData two_rows (Some (0%nat, 0%nat)) (IntValue 2) CheckStateRole
               = Ok (true, m') /\
             data m' (Some (0%nat, 0%nat)) CheckStateRole = Ok (StateCell Checked) /\
             data two_rows (Some (0%nat, 0%nat)) CheckStateRole
               = Ok (StateCell Unchecked).
Proof.
  eexists. split; [vm_compute; reflexivity|]. split; [|reflexivity].
  refine (proj1 (@ticked_state_reads_back two_rows _ 0 0 (IntValue 2) _ _)).
  - reflexivity.
  - vm_compute. reflexivity.
Defined.

(** ** Cells inside and outside the table *)

Lemma data_cell_ok (m : model) (scene : scene) (r : nat) (role : ItemDataRole)
    (actual_col : Z) :
  (exists b, nth_error (_checked m) r = Some b) ->
  exists cell,
    match role, actual_col with
    | CheckStateRole, 0 =>
        checked <- item (_checked m) r ;;
        Ok (StateCell (if checked : bool then Checked else Unchecked))
    | DisplayRole, 1 => Ok (TextCell (scene_id scene))
    | DisplayRole, 2 => Ok (TextCell (scene_title scene))
    | DisplayRole, 3 =>
        match scene_studio scene with
        | Some studio => Ok (TextCell (ref_name studio))
        | None => Ok (TextCell (Some ""))
        end
    | DisplayRole, 4 => Ok (TextCell (Some (shown_names (scene_performers scene))))
    | DisplayRole, 5 => Ok (TextCell (Some (shown_names (scene_tags scene))))
    | DisplayRole, 6 => Ok (TextCell (scene_date scene))
    | DisplayRole, 7 => Ok (TextCell (_path scene))
    | DisplayRole, 8 => Ok (TextCell (Some (human_duration (_duration scene))))
    | DisplayRole, 9 =>
        match _width scene, _height scene with
        | Some w, Some h =>
            if negb (w =? 0) && negb (h =? 0)
            then Ok (TextCell (Some (str_of_int w ++ "x" ++ str_of_int h)))
            else Ok (TextCell (Some ""))
        | _, _ => Ok (TextCell (Some ""))
        end
    | DisplayRole, 10 => Ok (TextCell (_resolution scene))
    | DisplayRole, 11 =>
        match _filesize scene with
        | None => Ok (TextCell (Some ""))
        | Some fs => Ok (TextCell (Some (human_size (Some fs))))
        end
    | _, _ => Ok NoData
    end = Ok cell.
Proof.
  intros (b & Hb). unfold item. rewrite Hb. cbn [bind].
  destruct role;
    (destruct actual_col as [|p|p]; [eauto| |eauto]);
    do 4 (try destruct p as [p|p|]); eauto;
    repeat match goal with
           | |- context [match ?x with _ => _ end] => destruct x
           end; eauto.
Qed.

(** X13.  On an aligned table [data] answers every index below [rowCount] and
    [columnCount] without raising; a valid index beyond them raises
    [IndexError], an invalid one gives nothing. *)
Theorem data_answers_inside_the_table (m : model) (r c : nat) (role : ItemDataRole) :
  aligned m ->
  ((r < rowCount m)%nat -> (c < columnCount m)%nat ->
   exists cell, data m (Some (r, c)) role = Ok cell) /\
  ((rowCount m <= r)%nat \/ (columnCount m <= c)%nat ->
   data m (Some (r, c)) role = Raise IndexError) /\
  data m None role = Ok NoData.
Proof.
  unfold aligned, rowCount, columnCount. intro Ha. split; [|split; [|reflexivity]].
  - intros Hr Hc. unfold data, item.
    destruct (nth_error (_scenes m) r) as [scene|] eqn:Es;
      [|apply nth_error_None in Es; lia].
    destruct (nth_error (_visible_columns m) c) as [actual_col|] eqn:Ec;
      [|apply nth_error_None in Ec; lia].
    cbn [bind]. apply data_cell_ok.
    destruct (nth_error (_checked m) r) as [b|] eqn:Eb; [eauto|].
    apply nth_error_None in Eb. lia.
  - intros [Hr|Hc]; unfold data, item.
    + apply nth_error_None in Hr. rewrite Hr. reflexivity.
    + apply nth_error_None in Hc. rewrite Hc.
      destruct (nth_error (_scenes m) r); reflexivity.
Qed.

Lemma data_answers_inside_the_table_witness :
  (exists cell, data two_rows (Some (1%nat, 11%nat)) DisplayRole = Ok cell) /\
  data two_rows (Some (1%nat, 11%nat)) DisplayRole = Ok (TextCell (Some "100.00 B")) /\
  data two_rows (Some (2%nat, 0%nat)) DisplayRole = Raise IndexError.
Proof.
  destruct (@data_answers_inside_the_table two_rows 1 11 DisplayRole) as (A & _ & _);
    [reflexivity|].
  destruct (@data_answers_inside_the_table two_rows 2 0 DisplayRole) as (_ & B & _);
    [reflexivity|].
  split; [apply A; vm_compute; lia|]. split; [vm_compute; reflexivity|].
  apply B. left. vm_compute. lia.
Defined.

(** ** Order and stability of the sort *)

Section SortFacts.
Context {A : Type}.
Variable lt : A -> A -> bool.
  (** The items the order is good on. *)
Variable dom : A -> Prop.
Hypothesis lt_irrefl : forall a, dom a -> lt a a = false.
Hypothesis lt_trans : forall a b c, dom a -> dom b -> dom c ->
    lt a b = true -> lt b c = true -> lt a c = true.
Hypothesis le_trans : forall a b c, dom a -> dom b -> dom c ->
    lt b a = false -> lt c b = false -> lt c a = false.

Lemma lt_asym a b : dom a -> dom b -> lt a b = true -> lt b a = false.
  Proof.
    intros Ha Hb H. destruct (lt b a) eqn:E; [|reflexivity].
    pose proof (lt_trans Ha Hb Ha H E) as K. rewrite (lt_irrefl Ha) in K. discriminate.
  Qed.

Lemma insert_by_dom x l : dom x -> Forall dom l -> Forall dom (insert_by lt x l).
  Proof.
    intros Hx Hl. apply (Permutation_Forall (Permutation_sym (insert_by_perm lt x l))).
    constructor; assumption.
  Qed.

Lemma insert_by_sorted x l :
    dom x -> Forall dom l -> StronglySorted (not_after lt) l -> StronglySorted (not_after lt) (insert_by lt x l).
  Proof.
    intros Hx Hl Hs. induction Hs as [|y l Hs IH Hy]; simpl.
    - constructor; constructor.
    - inversion Hl as [|? ? Dy Dl]; subst.
      destruct (lt x y) eqn:E.
      + constructor; [constructor; assumption|].
        constructor; [exact (lt_asym Hx Dy E)|].
        rewrite Forall_forall in Hy, Dl |- *. intros z Hz. unfold not_after in *.
        destruct (lt z x) eqn:Ez; [|reflexivity].
        rewrite <- (Hy z Hz). symmetry. apply (lt_trans (Dl z Hz) Hx Dy Ez E).
      + constructor; [apply IH; assumption|].
        apply (Permutation_Forall (Permutation_sym (insert_by_perm lt x l))).
        constructor; assumption.
  Qed.

Lemma stable_sort_acc l : forall acc,
    Forall dom l -> Forall dom acc -> StronglySorted (not_after lt) acc ->
    let r := fold_left (fun acc x => insert_by lt x acc) l acc in
    Forall dom r /\ StronglySorted (not_after lt) r.
  Proof.
    induction l as [|x l IH]; intros acc Hl Ha Hs; simpl; [auto|].
    inversion Hl as [|? ? Dx Dl]; subst.
    apply IH; [assumption|apply insert_by_dom; assumption|apply insert_by_sorted; assumption].
  Qed.

Lemma stable_sort_sorted l :
    Forall dom l -> StronglySorted (not_after lt) (stable_sort lt l).
  Proof.
    intro Hl. apply (@stable_sort_acc l [] Hl); constructor.
  Qed.

  (** A later item goes behind every earlier item it ties with. *)
Lemma insert_by_stable k x l :
    dom k -> dom x -> Forall dom l -> StronglySorted (not_after lt) l ->
    filter (tied lt k) (insert_by lt x l)
    = (filter (tied lt k) l ++ (if tied lt k x then [x] else []))%list.
  Proof.
    intros Hk Hx Hl Hs. induction Hs as [|y l Hs IH Hy]; simpl; [reflexivity|].
    inversion Hl as [|? ? Dy Dl]; subst.
    destruct (lt x y) eqn:E.
    - cbn [filter]. destruct (tied lt k x) eqn:Ex.
      + (* nothing from [y] on ties with [k] *)
        assert (forall z, In z (y :: l) -> tied lt k z = false) as Hnone.
        { intros z Hz. unfold tied in *. apply andb_prop in Ex as [E1 E2].
          apply negb_true_iff in E1, E2.
          assert (dom z) as Dz.
          { destruct Hz as [<-|Hz]; [assumption|].
            rewrite Forall_forall in Dl. auto. }
          assert (lt z y = false) as Hzy.
          { destruct Hz as [<-|Hz]; [apply (lt_irrefl Dy)|].
            rewrite Forall_forall in Hy. apply Hy. exact Hz. }
          (* x < z, hence k < z *)
          assert (lt x z = true) as Hxz.
          { destruct (lt x z) eqn:Exz; [reflexivity|].
            rewrite (le_trans Dy Dz Hx Hzy Exz) in E. discriminate. }
          assert (lt k z = true) as Hkz.
          { destruct (lt k z) eqn:Ekz; [reflexivity|].
            rewrite (le_trans Dz Hk Hx Ekz E2) in Hxz. discriminate. }
          rewrite Hkz. reflexivity. }
        rewrite (Hnone y (or_introl eq_refl)).
        assert (filter (tied lt k) l = []) as ->.
        { clear -Hnone. induction l as [|z l IH]; simpl; [reflexivity|].
          rewrite (Hnone z (or_intror (or_introl eq_refl))).
          apply IH. intros w [<-|Hw]; apply Hnone; [left|right; right]; auto. }
        reflexivity.
      + rewrite app_nil_r. reflexivity.
    - cbn [filter]. rewrite (IH Dl). destruct (tied lt k y); reflexivity.
  Qed.

Lemma stable_sort_stable_acc k l : forall acc,
    dom k -> Forall dom l -> Forall dom acc -> StronglySorted (not_after lt) acc ->
    filter (tied lt k) (fold_left (fun acc x => insert_by lt x acc) l acc)
    = (filter (tied lt k) acc ++ filter (tied lt k) l)%list.
  Proof.
    induction l as [|x l IH]; intros acc Hk Hl Ha Hs; simpl;
      [rewrite app_nil_r; reflexivity|].
    inversion Hl as [|? ? Dx Dl]; subst.
    rewrite IH; [|assumption|assumption|apply insert_by_dom; assumption
                 |apply insert_by_sorted; assumption].
    rewrite (insert_by_stable Hk Dx Ha Hs), <- app_assoc.
    destruct (tied lt k x); reflexivity.
  Qed.

Lemma stable_sort_stable k l :
    dom k -> Forall dom l ->
    filter (tied lt k) (stable_sort lt l) = filter (tied lt k) l.
  Proof.
    intros Hk Hl. unfold stable_sort.
    rewrite (@stable_sort_stable_acc k l [] Hk Hl (Forall_nil _) (SSorted_nil _)). reflexivity.
  Qed.
End SortFacts.

Lemma StronglySorted_snoc {A} (R : A -> A -> Prop) l x :
  StronglySorted R l -> Forall (fun y => R y x) l -> StronglySorted R (l ++ [x]).
Proof.
  induction 1 as [|y l Hs IH Hy]; intro Hx; simpl.
  - constructor; constructor.
  - inversion Hx as [|? ? Hyx Hlx]; subst.
    constructor; [apply IH; assumption|].
    apply Forall_app. split; [assumption|constructor; [assumption|constructor]].
Qed.

Lemma StronglySorted_rev {A} (R : A -> A -> Prop) l :
  StronglySorted R l -> StronglySorted (fun a b => R b a) (rev l).
Proof.
  induction 1 as [|y l Hs IH Hy]; simpl; [constructor|].
  apply StronglySorted_snoc; [exact IH|].
  apply Forall_rev. exact Hy.
Qed.

Lemma StronglySorted_map {A B} (R : B -> B -> Prop) (f : A -> B) l :
  StronglySorted (fun a b => R (f a) (f b)) l -> StronglySorted R (map f l).
Proof.
  induction 1 as [|y l Hs IH Hy]; simpl; constructor; [exact IH|].
  apply Forall_map. exact Hy.
Qed.

(** Sorting commutes with a map the key factors through. *)
Lemma map_insert_by {A B} (lt : B -> B -> bool) (f : A -> B) x l :
  map f (insert_by (fun a b => lt (f a) (f b)) x l) = insert_by lt (f x) (map f l).
Proof.
  induction l as [|y l IH]; simpl; [reflexivity|].
  destruct (lt (f x) (f y)); simpl; [reflexivity|]. rewrite IH. reflexivity.
Qed.

Lemma map_stable_sort {A B} (lt : B -> B -> bool) (f : A -> B) l :
  map f (stable_sort (fun a b => lt (f a) (f b)) l) = stable_sort lt (map f l).
Proof.
  unfold stable_sort.
  assert (forall acc, map f (fold_left (fun acc x => insert_by (fun a b => lt (f a) (f b)) x acc) l acc)
            = fold_left (fun acc x => insert_by lt x acc) (map f l) (map f acc)) as H.
  { induction l as [|x l IH]; intro acc; simpl; [reflexivity|].
    rewrite IH, map_insert_by. reflexivity. }
  apply (H []).
Qed.

Lemma map_sort_by_key {A B K} (lt : K -> K -> bool) (key : B -> K) (f : A -> B)
    reverse l :
  map f (sort_by_key lt (fun a => key (f a)) reverse l)
  = sort_by_key lt key reverse (map f l).
Proof.
  unfold sort_by_key. cbv beta zeta. destruct reverse.
  - rewrite map_rev.
    rewrite (map_stable_sort (fun a b => lt (key a) (key b)) f (rev l)).
    rewrite map_rev. reflexivity.
  - apply (map_stable_sort (fun a b => lt (key a) (key b)) f l).
Qed.

(** The keys of the items, once every key is computed. *)
Lemma keyed_Ok actual_col : forall combined items,
  keyed actual_col combined = Ok items ->
  items = map (fun it : scene * bool * nat => (row_key actual_col (fst it), it)) combined /\
  Forall (fun it : scene * bool * nat =>
            sort_key actual_col (fst (fst it)) = Ok (row_key actual_col (fst it)))
         combined.
Proof.
  unfold keyed. induction combined as [|it tl IH]; intros items H; simpl in H.
  - injection H as <-. split; [reflexivity|constructor].
  - destruct (sort_key actual_col (fst (fst it))) as [k|e] eqn:Ek; simpl in H; [|discriminate].
    destruct (map_result _ tl) as [ys|e] eqn:E; simpl in H; [|discriminate].
    injection H as <-. destruct (IH ys eq_refl) as [-> Hf].
    assert (row_key actual_col (fst it) = k) as Hk by (unfold row_key; rewrite Ek; reflexivity).
    split.
    + simpl. rewrite Hk. reflexivity.
    + constructor; [rewrite Hk; exact Ek|exact Hf].
Qed.

Lemma keyed_all_Ok actual_col : forall combined,
  Forall (fun it : scene * bool * nat => exists k, sort_key actual_col (fst (fst it)) = Ok k)
         combined ->
  exists items, keyed actual_col combined = Ok items.
Proof.
  unfold keyed. induction combined as [|it tl IH]; intro H; simpl.
  - eexists. reflexivity.
  - inversion H as [|? ? (k & Hk) Htl]; subst. rewrite Hk. simpl.
    destruct (IH Htl) as (items & ->). simpl. eexists. reflexivity.
Qed.

(** Sorting the table is sorting its rows by the key of the column, unless
    a key raises and the table stays as it was. *)
Lemma rows_sort_eq (m : model) (column actual_col : Z) (order : SortOrder) :
  0 <= column ->
  nth_error (_visible_columns m) (Z.to_nat column) = Some actual_col ->
  actual_col <> 0 ->
  match keyed actual_col (zip3 (_scenes m) (_checked m)) with
  | Ok _ =>
      sort_call m column order = (Ok tt, sort m column order) /\
      rows (sort m column order)
      = sort_by_key key_lt (row_key actual_col)
          (match order with DescendingOrder => true | _ => false end) (rows m)
  | Raise e => sort_call m column order = (Raise e, m)
  end.
Proof.
  intros Hc Hn H0. unfold sort, sort_call.
  assert (Z.to_nat column < List.length (_visible_columns m))%nat as Hlen
    by (apply nth_error_Some; congruence).
  destruct ((column <? 0) || _) eqn:E.
  { apply orb_prop in E. destruct E as [E|E]; [apply Z.ltb_lt in E|apply Z.leb_le in E]; lia. }
  rewrite Hn. destruct (actual_col =? 0) eqn:E0; [apply Z.eqb_eq in E0; contradiction|].
  destruct (keyed actual_col (zip3 (_scenes m) (_checked m))) as [items|e] eqn:Ek;
    [|reflexivity].
  split; [reflexivity|].
  destruct (keyed_Ok _ _ Ek) as [-> _].
  cbn [snd]. unfold rows at 1. cbn [_scenes _checked].
  rewrite <- sorted_rows.
  set (g := fun it : scene * bool * nat => (row_key actual_col (fst it), it)).
  rewrite <- (map_sort_by_key key_lt (@fst sort_key_t (scene * bool * nat)) g).
  rewrite (map_map g snd). rewrite map_id.
  change (fun a : scene * bool * nat => fst (g a))
    with (fun it : scene * bool * nat => row_key actual_col (fst it)).
  change (fun it : scene * bool * nat => fst it) with (@fst (scene * bool) nat).
  rewrite (map_sort_by_key key_lt (row_key actual_col) (@fst (scene * bool) nat)).
  f_equal. unfold zip3, rows. apply map_fst_combine.
  rewrite length_seq, length_combine. lia.
Qed.

(** *** The order of each kind of keys *)

Lemma string_compare_refl s : (s ?= s)%string = Eq.
Proof.
  pose proof (String.compare_antisym s s) as H.
  destruct (s ?= s)%string; simpl in H; congruence.
Qed.

Lemma ascii_compare_lt_trans a b c :
  (a ?= b)%char = Lt -> (b ?= c)%char = Lt -> (a ?= c)%char = Lt.
Proof.
  unfold Ascii.compare. intros H1 H2.
  apply N.compare_lt_iff in H1, H2. apply N.compare_lt_iff.
  eapply N.lt_trans; eassumption.
Qed.

Lemma string_compare_lt_trans a : forall b c,
  (a ?= b)%string = Lt -> (b ?= c)%string = Lt -> (a ?= c)%string = Lt.
Proof.
  induction a as [|x a IH]; intros [|y b] [|z c]; simpl; try discriminate; try reflexivity.
  destruct (x ?= y)%char eqn:Exy; try discriminate.
  - apply Ascii.compare_eq_iff in Exy. subst y.
    destruct (x ?= z)%char; try discriminate; [apply IH|reflexivity].
  - intros _. destruct (y ?= z)%char eqn:Eyz; try discriminate.
    + apply Ascii.compare_eq_iff in Eyz. subst z. rewrite Exy. reflexivity.
    + rewrite (ascii_compare_lt_trans _ _ _ Exy Eyz). reflexivity.
Qed.

Lemma string_ltb_lt a b : String.ltb a b = true <-> (a ?= b)%string = Lt.
Proof. unfold String.ltb. destruct (a ?= b)%string; split; congruence. Qed.

Lemma string_ltb_ge a b :
  String.ltb b a = false <-> (a ?= b)%string = Lt \/ a = b.
Proof.
  unfold String.ltb. rewrite (String.compare_antisym b a).
  destruct (a ?= b)%string eqn:E; simpl; split; intro H; try congruence; auto.
  - right. apply String.compare_eq_iff. exact E.
  - destruct H as [H|H]; [discriminate|]. subst b.
    rewrite string_compare_refl in E. discriminate.
Qed.

Lemma float_sign_rank x :
  x <> S754_nan ->
  (match float_cmp_int x 0 with Some Lt => true | _ => false end = true
   <-> rank_lt (key_rank (KFloat x)) (0, 0, 0)) /\
  (match float_cmp_int x 0 with Some Gt => true | _ => false end = true
   <-> rank_lt (0, 0, 0) (key_rank (KFloat x))).
Proof.
  intro Hx. unfold key_rank, rank_lt.
  destruct x as [sx|sx| |sx mx ex]; try contradiction.
  - destruct sx; simpl; split; split; try discriminate; lia.
  - destruct sx; simpl; split; split; try discriminate; try reflexivity; lia.
  - assert (float_cmp_int (S754_finite sx mx ex) 0 = Some (if sx then Lt else Gt)) as ->.
    { simpl. destruct (0 <=? ex) eqn:E.
      - apply Z.leb_le in E. assert (0 < 2 ^ ex) by (apply Z.pow_pos_nonneg; lia).
        f_equal. destruct sx; simpl.
        + apply Z.compare_lt_iff. destruct (2 ^ ex); lia.
        + apply Z.compare_gt_iff. destruct (2 ^ ex); lia.
      - destruct sx; reflexivity. }
    destruct sx; simpl; split; split; try discriminate; try reflexivity; lia.
Qed.

Lemma rank_of_duration_key a b :
  in_class DurationKeys a -> in_class DurationKeys b ->
  (key_lt a b = true <-> rank_lt (key_rank a) (key_rank b)).
Proof.
  destruct a as [x|x|x], b as [y|y|y]; simpl in_class; try tauto.
  - intros -> ->. unfold rank_lt. simpl. split; [discriminate|lia].
  - intros -> Hy. apply (float_sign_rank Hy).
  - intros Hx ->. apply (float_sign_rank Hx).
  - intros Hx Hy. cbn [key_lt]. unfold float_lt. unfold key_rank.
    destruct (float_rank x) as [rx|] eqn:Ex; [|destruct x as [|[]| |[]]; simpl in Ex; congruence].
    destruct (float_rank y) as [ry|] eqn:Ey; [|destruct y as [|[]| |[]]; simpl in Ey; congruence].
    split.
    + intro H. apply SFltb_rank in H. destruct H as (a & b & Ha & Hb & Hab). congruence.
    + intro H. apply SFltb_rank. eauto.
Qed.

Lemma rank_lt_order :
  (forall a, ~ rank_lt a a) /\
  (forall a b c, rank_lt a b -> rank_lt b c -> rank_lt a c) /\
  (forall a b c, ~ rank_lt b a -> ~ rank_lt c b -> ~ rank_lt c a).
Proof.
  unfold rank_lt. repeat split.
  - intros [[a1 a2] a3]. lia.
  - intros [[a1 a2] a3] [[b1 b2] b3] [[c1 c2] c3]. lia.
  - intros [[a1 a2] a3] [[b1 b2] b3] [[c1 c2] c3]. lia.
Qed.

Lemma key_lt_false_rank a b :
  in_class DurationKeys a -> in_class DurationKeys b ->
  (key_lt a b = false <-> ~ rank_lt (key_rank a) (key_rank b)).
Proof.
  intros Ha Hb. pose proof (rank_of_duration_key a b Ha Hb) as H.
  destruct (key_lt a b); split; intro K; try congruence.
  - exfalso. apply K. apply H. reflexivity.
  - intro R. apply H in R. discriminate.
Qed.

(** Within each kind of keys, [<] is a strict weak order. *)
Lemma key_lt_order (c : key_class) : strict_weak_order (in_class c).
Proof.
  destruct c; unfold strict_weak_order.
  - split; [|split].
    + intros [x|x|x] H; try contradiction. apply Z.ltb_irrefl.
    + intros [x|x|x] [y|y|y] [z|z|z]; simpl; try tauto. intros _ _ _.
      rewrite !Z.ltb_lt. lia.
    + intros [x|x|x] [y|y|y] [z|z|z]; simpl; try tauto. intros _ _ _.
      rewrite !Z.ltb_ge. lia.
  - split; [|split].
    + intros [x|x|x] H; try contradiction. simpl.
      unfold String.ltb. rewrite string_compare_refl. reflexivity.
    + intros [x|x|x] [y|y|y] [z|z|z]; simpl; try tauto. intros _ _ _ H1 H2.
      apply string_ltb_lt in H1, H2. apply string_ltb_lt.
      eapply string_compare_lt_trans; eassumption.
    + intros [x|x|x] [y|y|y] [z|z|z]; simpl; try tauto. intros _ _ _ H1 H2.
      apply string_ltb_ge in H1, H2. apply string_ltb_ge.
      destruct H1 as [H1| ->], H2 as [H2| ->]; auto.
      left. eapply string_compare_lt_trans; eassumption.
  - destruct rank_lt_order as (Ri & Rt & Rn). split; [|split].
    + intros a Ha. apply (key_lt_false_rank a a Ha Ha). apply Ri.
    + intros a b c Ha Hb Hc H1 H2.
      apply (rank_of_duration_key a b Ha Hb) in H1.
      apply (rank_of_duration_key b c Hb Hc) in H2.
      apply (rank_of_duration_key a c Ha Hc). eapply Rt; eassumption.
    + intros a b c Ha Hb Hc H1 H2.
      apply (key_lt_false_rank b a Hb Ha) in H1.
      apply (key_lt_false_rank c b Hc Hb) in H2.
      apply (key_lt_false_rank c a Hc Ha). eapply Rn; eassumption.
Qed.

(** The keys of one column are of one kind. *)
Lemma column_class (actual_col : Z) :
  exists c, forall r, (actual_col = 8 -> _duration (fst r) <> Some S754_nan) ->
                      in_class c (row_key actual_col r).
Proof.
  assert (forall r, _duration (fst r) <> Some S754_nan ->
                    in_class DurationKeys (row_key 8 r)) as H8.
  { intros r Hs. unfold row_key. simpl. destruct (_duration (fst r)) as [f|] eqn:Ed; [|reflexivity].
    destruct (float_truthy f); [|reflexivity]. simpl. intro K. apply Hs. rewrite K. reflexivity. }
  assert (forall r, in_class IntKeys (row_key 10 r)) as H10.
  { intro r. unfold row_key. simpl. destruct (_resolution (fst r)) as [res|]; [|exact I].
    destruct (is_empty res); exact I. }
  assert (forall r, in_class StrKeys (row_key 3 r)) as H3.
  { intro r. unfold row_key. simpl. destruct (scene_studio (fst r)) as [st|]; [|exact I].
    destruct (ref_name st); exact I. }
  destruct actual_col as [|p|p]; [exists StrKeys; intros; exact I| |exists StrKeys; intros; exact I].
  do 4 (try destruct p as [p|p|]);
    first [ exists StrKeys; intros s Hs; exact I
          | exists IntKeys; intros s Hs; exact I
          | exists StrKeys; intros s Hs; apply H3
          | exists IntKeys; intros s Hs; apply H10
          | exists DurationKeys; intros s Hs; exact (H8 s (Hs eq_refl)) ].
Qed.

Lemma rows_in_class (m : model) (actual_col : Z) (c : key_class) :
  (actual_col = 8 -> no_nan_duration m) ->
  (forall r, (actual_col = 8 -> _duration (fst r) <> Some S754_nan) ->
             in_class c (row_key actual_col r)) ->
  Forall (fun r => in_class c (row_key actual_col r)) (rows m).
Proof.
  intros Hn Hc. apply Forall_forall. intros [s b] Hin.
  apply Hc. intro E8. apply (Hn E8). unfold rows in Hin. eapply in_combine_l. exact Hin.
Qed.

(** In every column but Studio the key function returns; in the Studio
    column it returns for a record without studio or with a named one. *)
Lemma sort_key_returns (actual_col : Z) (s : scene) :
  (actual_col = 3 ->
   forall studio, scene_studio s = Some studio -> ref_name studio <> None) ->
  exists k, sort_key actual_col s = Ok k.
Proof.
  intro H3.
  destruct actual_col as [|p|p]; [eexists; reflexivity| |eexists; reflexivity].
  do 4 (try destruct p as [p|p|]); try (eexists; reflexivity); simpl;
    first [ destruct (_resolution s) as [res|]; [destruct (is_empty res)|];
            eexists; reflexivity
          | destruct (_duration s) as [f|]; eexists; reflexivity
          | destruct (scene_studio s) as [st|] eqn:Es; [|eexists; reflexivity];
            specialize (H3 eq_refl st eq_refl);
            destruct (ref_name st); [eexists; reflexivity|contradiction] ].
Qed.

Lemma map_result_Ok {A B} (f : A -> result B) (g : A -> B) : forall l,
  Forall (fun x => f x = Ok (g x)) l -> map_result f l = Ok (map g l).
Proof.
  induction l as [|x l IH]; intro H; [reflexivity|].
  inversion H as [|? ? Hx Hl]; subst. simpl. rewrite Hx. simpl.
  rewrite (IH Hl). reflexivity.
Qed.

(** X14.  On a table of ASCII text [sort] on a column other than Select
    returns, and the keys of the rows are then in ascending, respectively
    descending, order; in the Studio column when every studio has a name, in
    the Duration column when no duration is a NaN. *)
Theorem sort_puts_keys_in_order (m : model) (column actual_col : Z) (order : SortOrder) :
  0 <= column ->
  nth_error (_visible_columns m) (Z.to_nat column) = Some actual_col ->
  actual_col <> 0 ->
  plain_table m ->
  (actual_col = 3 -> named_studios m) ->
  (actual_col = 8 -> no_nan_duration m) ->
  fst (sort_call m column order) = Ok tt /\
  exists keys,
    map_result (fun r => sort_key actual_col (fst r)) (rows (sort m column order))
      = Ok keys /\
    match order with
    | AscendingOrder => ascending keys
    | DescendingOrder => descending keys
    end.
Proof.
  intros Hc Hn H0 _ Hnamed Hnan.
  pose proof (rows_sort_eq m order Hc Hn H0) as Hsort.
  assert (Forall (fun it : scene * bool * nat =>
                    exists k, sort_key actual_col (fst (fst it)) = Ok k)
                 (zip3 (_scenes m) (_checked m))) as Hret.
  { apply Forall_forall. intros [[s b] i] Hin. simpl.
    apply sort_key_returns. intros E3 studio Hst.
    apply (Hnamed E3 s studio); [|exact Hst].
    unfold zip3 in Hin. apply in_combine_l in Hin. apply in_combine_l in Hin. exact Hin. }
  destruct (keyed_all_Ok _ Hret) as (items & Hk). rewrite Hk in Hsort.
  destruct Hsort as [Hcall Hrows]. split; [rewrite Hcall; reflexivity|].
  exists (map (row_key actual_col) (rows (sort m column order))). split.
  - apply map_result_Ok.
    destruct (keyed_Ok _ _ Hk) as [_ Hf].
    assert (Forall (fun r : scene * bool => sort_key actual_col (fst r)
                                            = Ok (row_key actual_col r)) (rows m)) as Hm.
    { unfold rows. rewrite <- (rows_zip3 (_scenes m) (_checked m)).
      apply Forall_map. exact Hf. }
    apply (Permutation_Forall (Permutation_sym (rows_sort m column order))). exact Hm.
  - rewrite Hrows.
    destruct (column_class actual_col) as (c & Hcls).
    pose proof (@rows_in_class m actual_col c Hnan Hcls) as Hd.
    destruct (key_lt_order c) as (Oi & Ot & On).
    set (lt := fun a b : scene * bool => key_lt (row_key actual_col a) (row_key actual_col b)).
    set (dom := fun r : scene * bool => in_class c (row_key actual_col r)).
    assert (forall l, Forall dom l ->
              StronglySorted (fun a b => lt b a = false) (stable_sort lt l)) as Hsorted.
    { intros l Hl. apply (@stable_sort_sorted _ lt dom); [| |exact Hl].
      - intros a Ha. apply Oi. exact Ha.
      - intros x y z Hx Hy Hz. apply Ot; assumption. }
    unfold sort_by_key. fold lt.
    destruct order.
    + unfold ascending. apply StronglySorted_map. apply Hsorted. exact Hd.
    + unfold descending. apply StronglySorted_map.
      apply (StronglySorted_rev (R := fun a b => lt b a = false)).
      apply Hsorted. apply Forall_rev. exact Hd.
Qed.

Lemma plain_two_rows : plain_table two_rows.
Proof.
  intros s [<-|[<-|[]]]; unfold plain_scene; simpl;
    (split; [reflexivity|]); (split; [try exact I; reflexivity|]);
    (split; [exact I|]); (split; [exact I|]); (split; [exact I|]);
    (split; [intros st E; discriminate E|intros r [[]|[]]]).
Qed.

Lemma plain_studio_rows : plain_table studio_rows.
Proof.
  intros s [<-|[<-|[]]]; unfold plain_scene; simpl;
    (split; [reflexivity|]); (split; [reflexivity|]);
    (split; [exact I|]); (split; [exact I|]); (split; [exact I|]);
    (split; [intros st E|intros r [[]|[]]]).
  - injection E as <-. reflexivity.
  - discriminate E.
Qed.

Lemma sort_puts_keys_in_order_witness :
  (exists keys,
     map_result (fun r => sort_key 11 (fst r)) (rows (sort two_rows 11 AscendingOrder))
       = Ok keys /\ ascending keys) /\
  map_result (fun r => sort_key 11 (fst r)) (rows (sort two_rows 11 AscendingOrder))
    = Ok [KInt 100; KInt 300] /\
  (exists keys,
     map_result (fun r => sort_key 11 (fst r)) (rows (sort two_rows 11 DescendingOrder))
       = Ok keys /\ descending keys) /\
  (exists keys,
     map_result (fun r => sort_key 8 (fst r)) (rows (sort two_rows 8 AscendingOrder))
       = Ok keys /\ ascending keys) /\
  fst (sort_call studio_rows 3 AscendingOrder) = Ok tt /\
  (exists keys,
     map_result (fun r => sort_key 3 (fst r)) (rows (sort studio_rows 3 AscendingOrder))
       = Ok keys /\ ascending keys).
Proof.
  assert (no_nan_duration two_rows) as Hd.
  { intros s [<-|[<-|[]]]; simpl; discriminate. }
  assert (named_studios studio_rows) as Hs.
  { intros s st [<-|[<-|[]]] E; simpl in E; [|discriminate].
    injection E as <-. discriminate. }
  split; [|split; [reflexivity|split; [|split; [|split]]]].
  - apply (@sort_puts_keys_in_order two_rows 11 11 AscendingOrder);
      [lia|reflexivity|lia|exact plain_two_rows|intro; lia|intro; lia].
  - apply (@sort_puts_keys_in_order two_rows 11 11 DescendingOrder);
      [lia|reflexivity|lia|exact plain_two_rows|intro; lia|intro; lia].
  - apply (@sort_puts_keys_in_order two_rows 8 8 AscendingOrder);
      [lia|reflexivity|lia|exact plain_two_rows|intro; lia|intro; exact Hd].
  - apply (@sort_puts_keys_in_order studio_rows 3 3 AscendingOrder);
      [lia|reflexivity|lia|exact plain_studio_rows|intro; exact Hs|intro; lia].
  - apply (@sort_puts_keys_in_order studio_rows 3 3 AscendingOrder);
      [lia|reflexivity|lia|exact plain_studio_rows|intro; exact Hs|intro; lia].
Defined.

(** X15.  [sort] is stable in both directions: rows whose keys tie with the
    key of a given row keep their relative order. *)
Theorem sort_keeps_ties_in_place (m : model) (column actual_col : Z) (order : SortOrder)
    (r0 : scene * bool) :
  0 <= column ->
  nth_error (_visible_columns m) (Z.to_nat column) = Some actual_col ->
  actual_col <> 0 ->
  (actual_col = 8 -> no_nan_duration m) ->
  In r0 (rows m) ->
  let tied := fun r => ties (row_key actual_col r0) (row_key actual_col r) in
  filter tied (rows (sort m column order)) = filter tied (rows m).
Proof.
  intros Hc Hn H0 Hnan Hin tied. subst tied.
  pose proof (rows_sort_eq m order Hc Hn H0) as Hsort.
  destruct (keyed actual_col (zip3 (_scenes m) (_checked m))) as [items|e];
    [|unfold sort; rewrite Hsort; reflexivity].
  destruct Hsort as [_ ->].
  destruct (column_class actual_col) as (c & Hcls).
  pose proof (@rows_in_class m actual_col c Hnan Hcls) as Hd.
  destruct (key_lt_order c) as (Oi & Ot & On).
  set (lt := fun a b : scene * bool => key_lt (row_key actual_col a) (row_key actual_col b)).
  set (dom := fun r : scene * bool => in_class c (row_key actual_col r)).
  assert (dom r0) as D0 by (rewrite Forall_forall in Hd; apply Hd; exact Hin).
  assert (forall l, Forall dom l ->
            filter (fun a => negb (lt r0 a) && negb (lt a r0)) (stable_sort lt l)
            = filter (fun a => negb (lt r0 a) && negb (lt a r0)) l) as Hstable.
  { intros l Hl. apply (@stable_sort_stable _ lt dom); try assumption.
    - intros a Ha. apply Oi. exact Ha.
    - intros x y z Hx Hy Hz. apply Ot; assumption.
    - intros x y z Hx Hy Hz. apply On; assumption. }
  unfold sort_by_key. fold lt. unfold ties. fold (lt r0).
  change (fun r : scene * bool =>
            negb (lt r0 r) && negb (key_lt (row_key actual_col r) (row_key actual_col r0)))
    with (fun a : scene * bool => negb (lt r0 a) && negb (lt a r0)).
  destruct order.
  - apply Hstable. exact Hd.
  - rewrite filter_rev, Hstable by (apply Forall_rev; exact Hd).
    rewrite filter_rev. apply rev_involutive.
Qed.

Lemma sort_keeps_ties_in_place_witness :
  let tied := fun r => ties (KInt 300) (row_key 11 r) in
  rows (sort tied_rows 11 AscendingOrder)
    = [(sized_scene "2" 100, true); (sized_scene "1" 300, false);
       (sized_scene "3" 300, true)] /\
  filter tied (rows (sort tied_rows 11 AscendingOrder))
    = [(sized_scene "1" 300, false); (sized_scene "3" 300, true)] /\
  filter tied (rows (sort tied_rows 11 DescendingOrder)) = filter tied (rows tied_rows).
Proof.
  assert (11 = 8 -> no_nan_duration tied_rows) as Hn by (intro; lia).
  intro tied. split; [reflexivity|]. split.
  - transitivity (filter tied (rows tied_rows)); [|reflexivity].
    apply (@sort_keeps_ties_in_place tied_rows 11 11 AscendingOrder
             (sized_scene "1" 300, false));
      [lia|reflexivity|lia|exact Hn|left; reflexivity].
  - apply (@sort_keeps_ties_in_place tied_rows 11 11 DescendingOrder
             (sized_scene "1" 300, false));
      [lia|reflexivity|lia|exact Hn|left; reflexivity].
Defined.

(** ** More on the bulk runs *)

Section RunFacts.
Variable World : Type.
Variables json_dumps py_str : json -> string.

  (** A run whose steps do not touch the network. *)
Lemma for_each_preview (step : scene -> M World outcome) (preview : scene -> outcome) :
    (forall s n, step s n = (Ok (preview s), n)) ->
    forall scenes acc n,
      for_each scenes (fun s acc => bindM (step s) (fun o => ret (bump o acc))) acc n
      = (Ok (fold_left (fun a o => bump o a) (map preview scenes) acc), n).
  Proof.
    intros Hs scenes. induction scenes as [|s tl IH]; intros acc n; [reflexivity|].
    cbn [for_each map fold_left]. unfold bindM at 1. unfold bindM at 1.
    rewrite Hs. unfold ret at 1. apply IH.
  Qed.

  (** A run whose steps send what [requests] says and end as [expected]
      allows. *)
Lemma for_each_trace (step : scene -> M World outcome)
      (requests : scene -> list request) (expected : scene -> outcome -> Prop) :
    (forall s n, exists o n1, step s n = (Ok o, n1) /\
                              sent n1 = (sent n ++ requests s)%list /\
                              expected s o) ->
    forall scenes acc n,
    exists os n',
      for_each scenes (fun s acc => bindM (step s) (fun o => ret (bump o acc))) acc n
        = (Ok (fold_left (fun a o => bump o a) os acc), n') /\
      sent n' = (sent n ++ flat_map requests scenes)%list /\
      Forall2 expected scenes os.
  Proof.
    intros Hs scenes. induction scenes as [|s tl IH]; intros acc n.
    - exists [], n. split; [reflexivity|]. simpl. rewrite app_nil_r.
      split; [reflexivity|constructor].
    - cbn [for_each]. unfold bindM at 1. unfold bindM at 1.
      destruct (Hs s n) as (o & n1 & -> & H1 & He). unfold ret at 1.
      destruct (IH (bump o acc) n1) as (os & n' & -> & H2 & Hf).
      exists (o :: os), n'. split; [reflexivity|].
      rewrite H2, H1. cbn [flat_map]. rewrite app_assoc.
      split; [reflexivity|constructor; assumption].
  Qed.

Lemma flat_map_if {A B} (p : A -> bool) (f : A -> B) l :
    flat_map (fun x => if p x then [f x] else []) l = map f (filter p l).
  Proof.
    induction l as [|x l IH]; simpl; [reflexivity|].
    destruct (p x); simpl; rewrite IH; reflexivity.
  Qed.

Lemma count_map_filter (o : outcome) (preview : scene -> outcome) scenes :
    count o (map preview scenes)
    = List.length (filter (fun s => outcome_eqb o (preview s)) scenes).
  Proof.
    unfold count. induction scenes as [|s tl IH]; simpl; [reflexivity|].
    destruct (outcome_eqb o (preview s)); simpl; rewrite IH; reflexivity.
  Qed.

Lemma lacks_tag_existsb tag_id s :
    existsb (pyid_eqb tag_id) (current_ids (scene_tags s)) = negb (lacks_tag tag_id s).
  Proof.
    unfold lacks_tag.
    destruct (in_dec pyid_eq_dec tag_id (current_ids (scene_tags s))) as [Hin|Hn]; simpl.
    - apply existsb_pyid_In. exact Hin.
    - destruct (existsb _ _) eqn:E; [|reflexivity].
      apply existsb_pyid_In in E. contradiction.
  Qed.

  (** The four steps in a dry run. *)
Lemma dry_steps (c : client World) tag_id studio_id performer_ids new_title s n :
    apply_tag_scene json_dumps py_str c tag_id true s n = (Ok (tag_preview tag_id s), n) /\
    rename_scene json_dumps py_str c new_title true s n = (Ok Updated, n) /\
    assign_performers_scene json_dumps py_str c performer_ids true s n
      = (Ok (performer_preview performer_ids s), n) /\
    assign_studio_scene c studio_id true s n = (Ok (studio_preview studio_id s), n).
  Proof.
    repeat split.
    - unfold apply_tag_scene, tag_preview. rewrite lacks_tag_existsb.
      destruct (lacks_tag tag_id s); reflexivity.
    - unfold assign_performers_scene, performer_preview, lacks_performer.
      destruct (forallb _ _); reflexivity.
    - unfold assign_studio_scene, studio_preview, current_studio.
      destruct (pyid_falsy (scene_id s)); [reflexivity|].
      destruct (pyid_eqb _ _); reflexivity.
  Qed.

Lemma tally_spec os :
    updated (tally os) = count Updated os /\
    already (tally os) = count AlreadySatisfied os /\
    skipped_deleted (tally os) = count SkippedMissingReference os /\
    failed (tally os) = count Failed os.
  Proof. apply (tally_counts os summary0). Qed.

Lemma count_absent (o : outcome) os :
    (forall x, In x os -> x <> o) -> count o os = 0%nat.
  Proof.
    intro H. unfold count. induction os as [|x os IH]; simpl; [reflexivity|].
    destruct (outcome_eqb o x) eqn:E.
    - exfalso. apply (H x (or_introl eq_refl)). destruct o, x; simpl in E; congruence.
    - apply IH. intros y Hy. apply H. right. exact Hy.
  Qed.

Lemma count_none (o : outcome) (scenes : list scene) os
      (expected : scene -> outcome -> Prop) :
    Forall2 expected scenes os ->
    (forall s, ~ expected s o) ->
    count o os = 0%nat.
  Proof.
    intros Hf Hn. apply count_absent. intros x Hx Heq. subst x.
    induction Hf as [|s y tl os Hy Hf IH]; [contradiction|].
    destruct Hx as [->|Hx]; [exact (Hn s Hy)|auto].
  Qed.

Lemma tally_all_updated (scenes : list scene) : forall acc,
    fold_left (fun a o => bump o a) (map (fun _ : scene => Updated) scenes) acc
    = {| updated := (updated acc + List.length scenes)%nat; already := already acc;
         skipped_deleted := skipped_deleted acc; failed := failed acc |}.
  Proof.
    induction scenes as [|s tl IH]; intro acc; simpl.
    - rewrite Nat.add_0_r. destruct acc; reflexivity.
    - rewrite IH. simpl. f_equal. lia.
  Qed.

(** X16.  In a dry run the four bulk workers leave the network as it was;
    nothing is counted failed, a rename run counts every record updated, a tag
    run those that lack the tag. *)
Theorem dry_run_leaves_network_alone (c : client World) (scenes : list scene)
      (tag_id studio_id : pyid) (performer_ids : list pyid) (new_title : string)
      (n : net World) :
    ApplyTagWorker_run json_dumps py_str c scenes tag_id true n
      = (Ok (tally (map (tag_preview tag_id) scenes)), n) /\
    RenameSceneWorker_run json_dumps py_str c scenes new_title true n
      = (Ok {| updated := List.length scenes; already := 0;
               skipped_deleted := 0; failed := 0 |}, n) /\
    AssignPerformersWorker_run json_dumps py_str c scenes performer_ids true n
      = (Ok (tally (map (performer_preview performer_ids) scenes)), n) /\
    AssignStudioWorker_run c scenes studio_id true n
      = (Ok (tally (map (studio_preview studio_id) scenes)), n) /\
    failed (tally (map (tag_preview tag_id) scenes)) = 0%nat /\
    failed (tally (map (performer_preview performer_ids) scenes)) = 0%nat /\
    failed (tally (map (studio_preview studio_id) scenes)) = 0%nat /\
    updated (tally (map (tag_preview tag_id) scenes))
      = List.length (filter (lacks_tag tag_id) scenes).
  Proof.
    split; [|split; [|split; [|split; [|split; [|split; [|split]]]]]].
    - apply for_each_preview. intros s n0.
      apply (dry_steps c tag_id studio_id performer_ids new_title s n0).
    - unfold RenameSceneWorker_run.
      rewrite (for_each_preview (fun s => rename_scene json_dumps py_str c new_title true s)
                 (fun _ => Updated)).
      + rewrite tally_all_updated. reflexivity.
      + intros s n0. apply (dry_steps c tag_id studio_id performer_ids new_title s n0).
    - apply for_each_preview. intros s n0.
      apply (dry_steps c tag_id studio_id performer_ids new_title s n0).
    - apply for_each_preview. intros s n0.
      apply (dry_steps c tag_id studio_id performer_ids new_title s n0).
    - destruct (tally_spec (map (tag_preview tag_id) scenes)) as (_ & _ & _ & ->).
      apply count_absent. intros x Hx. apply in_map_iff in Hx as (s & <- & _).
      unfold tag_preview. destruct (lacks_tag tag_id s); discriminate.
    - destruct (tally_spec (map (performer_preview performer_ids) scenes)) as (_ & _ & _ & ->).
      apply count_absent. intros x Hx. apply in_map_iff in Hx as (s & <- & _).
      unfold performer_preview. destruct (lacks_performer performer_ids s); discriminate.
    - destruct (tally_spec (map (studio_preview studio_id) scenes)) as (_ & _ & _ & ->).
      apply count_absent. intros x Hx. apply in_map_iff in Hx as (s & <- & _).
      unfold studio_preview. destruct (pyid_falsy _); [discriminate|].
      destruct (pyid_eqb _ _); discriminate.
    - destruct (tally_spec (map (tag_preview tag_id) scenes)) as (-> & _).
      rewrite count_map_filter. f_equal. apply filter_ext. intro s.
      unfold tag_preview. destruct (lacks_tag tag_id s); reflexivity.
  Qed.

(** X17.  Outside a dry run a rename run sends one title update per record, in
    order, whatever the answers; no record is counted already satisfied, and
    the counters add up to the number of records. *)
Theorem rename_run_sends_every_record (c : client World) (scenes : list scene)
      (new_title : string) (n : net World) :
    exists sm n',
      RenameSceneWorker_run json_dumps py_str c scenes new_title false n = (Ok sm, n') /\
      sent n' = (sent n ++ map (fun s => SetTitle (scene_id s) new_title) scenes)%list /\
      already sm = 0%nat /\
      total sm = List.length scenes.
  Proof.
    destruct (@for_each_trace
                (fun s => rename_scene json_dumps py_str c new_title false s)
                (fun s => [SetTitle (scene_id s) new_title])
                (fun _ o => o <> AlreadySatisfied)) with (scenes := scenes)
                (acc := summary0) (n := n) as (os & n' & Hr & Hs & Hf).
    { intros s n0. unfold rename_scene.
      unfold mutate, catch, bindM, send, lift, ret.
      destruct (call c _ (world n0)) as [[resp|e] w'].
      - destruct (classify_response json_dumps py_str resp (scene_id s)) as [o|e] eqn:Ec.
        + eexists _, _. split; [reflexivity|]. split; [reflexivity|].
          intros ->. unfold classify_response in Ec.
          repeat match type of Ec with
                 | context [bind ?x _] => destruct x; simpl in Ec; try discriminate
                 | context [if ?b then _ else _] => destruct b; simpl in Ec; try discriminate
                 end.
        + eexists _, _. split; [reflexivity|]. split; [reflexivity|discriminate].
      - eexists _, _. split; [reflexivity|]. split; [reflexivity|discriminate]. }
    unfold RenameSceneWorker_run. rewrite Hr. eexists _, n'.
    split; [reflexivity|]. split; [|split].
    - rewrite Hs. f_equal.
    - destruct (tally_counts os summary0) as (_ & -> & _). simpl.
      apply (@count_none AlreadySatisfied scenes os _ Hf). intros s K. apply K. reflexivity.
    - pose proof (tally_counts os summary0) as (H1 & H2 & H3 & H4). cbv zeta in *.
      unfold total. rewrite H1, H2, H3, H4. simpl.
      rewrite (Forall2_length Hf), <- (count_total os). lia.
  Qed.

Lemma lacks_performer_incl performer_ids s :
    lacks_performer performer_ids s = false
    <-> incl performer_ids (current_ids (scene_performers s)).
  Proof.
    unfold lacks_performer. rewrite negb_false_iff, forallb_forall. split.
    - intros H x Hx. apply existsb_pyid_In. apply H. exact Hx.
    - intros H x Hx. apply existsb_pyid_In. apply H. exact Hx.
  Qed.

Lemma list_set_unites performer_ids s :
    unites_performers performer_ids s
      (SetPerformerIds (scene_id s)
         (list_set (current_ids (scene_performers s) ++ performer_ids)%list)).
  Proof.
    eexists. split; [reflexivity|]. split; [apply NoDup_nodup|].
    intro x. unfold list_set. rewrite nodup_In, in_app_iff. reflexivity.
  Qed.

Lemma performer_step (c : client World) performer_ids s n :
    exists o n1,
      assign_performers_scene json_dumps py_str c performer_ids false s n = (Ok o, n1) /\
      sent n1 = (sent n ++ if lacks_performer performer_ids s
                           then [SetPerformerIds (scene_id s)
                                   (list_set (current_ids (scene_performers s)
                                              ++ performer_ids)%list)]
                           else [])%list.
  Proof.
    unfold assign_performers_scene, lacks_performer.
    destruct (forallb _ _); cbn [negb].
    - exists AlreadySatisfied, n. split; [reflexivity|]. rewrite app_nil_r. reflexivity.
    - destruct (mutate_sends json_dumps py_str c
                  (SetPerformerIds (scene_id s)
                     (list_set (current_ids (scene_performers s) ++ performer_ids)%list))
                  (scene_id s) n) as (o & w' & ->).
      eexists _, _. split; reflexivity.
  Qed.

(** X18.  A record that has all performers to assign is left alone; otherwise
    the request sets its performers to the current and the new identifiers,
    each once; a run sends one such request per record that lacks a performer,
    in order. *)
Theorem performer_run_unites_ids (c : client World) (performer_ids : list pyid)
      (n : net World) :
    (forall s dry_run,
       incl performer_ids (current_ids (scene_performers s)) ->
       assign_performers_scene json_dumps py_str c performer_ids dry_run s n
         = (Ok AlreadySatisfied, n)) /\
    (forall s,
       ~ incl performer_ids (current_ids (scene_performers s)) ->
       exists o w' rq,
         assign_performers_scene json_dumps py_str c performer_ids false s n
           = (Ok o, {| world := w'; sent := (sent n ++ [rq])%list |}) /\
         unites_performers performer_ids s rq) /\
    (forall scenes,
       exists sm n' requests,
         AssignPerformersWorker_run json_dumps py_str c scenes performer_ids false n
           = (Ok sm, n') /\
         sent n' = (sent n ++ requests)%list /\
         Forall2 (unites_performers performer_ids)
                 (filter (lacks_performer performer_ids) scenes) requests).
  Proof.
    split; [|split].
    - intros s dry_run Hi. apply lacks_performer_incl in Hi.
      unfold assign_performers_scene. unfold lacks_performer in Hi.
      apply negb_false_iff in Hi. rewrite Hi. reflexivity.
    - intros s Hn.
      assert (lacks_performer performer_ids s = true) as Hl.
      { destruct (lacks_performer performer_ids s) eqn:E; [reflexivity|].
        apply lacks_performer_incl in E. contradiction. }
      unfold assign_performers_scene. unfold lacks_performer in Hl.
      apply negb_true_iff in Hl. rewrite Hl.
      destruct (mutate_sends json_dumps py_str c
                  (SetPerformerIds (scene_id s)
                     (list_set (current_ids (scene_performers s) ++ performer_ids)%list))
                  (scene_id s) n) as (o & w' & ->).
      eexists _, _, _. split; [reflexivity|]. apply list_set_unites.
    - intro scenes.
      destruct (@for_each_trace
                  (fun s => assign_performers_scene json_dumps py_str c performer_ids false s)
                  (fun s => if lacks_performer performer_ids s
                            then [SetPerformerIds (scene_id s)
                                    (list_set (current_ids (scene_performers s)
                                               ++ performer_ids)%list)]
                            else [])
                  (fun _ _ => True)) with (scenes := scenes) (acc := summary0) (n := n)
        as (os & n' & Hr & Hs & _).
      { intros s n0. destruct (performer_step c performer_ids s n0) as (o & n1 & H1 & H2).
        exists o, n1. auto. }
      unfold AssignPerformersWorker_run. rewrite Hr. eexists _, n', _.
      split; [reflexivity|]. split; [exact Hs|].
      rewrite flat_map_if. clear.
      induction scenes as [|s tl IH]; simpl; [constructor|].
      destruct (lacks_performer performer_ids s); [|exact IH].
      simpl. constructor; [apply list_set_unites|exact IH].
  Qed.

Lemma studio_step (c : client World) studio_id s n :
    match call_graphql c with
    | Some method =>
        exists o n1,
          assign_studio_scene c studio_id false s n = (Ok o, n1) /\
          sent n1 = (sent n ++ if needs_studio studio_id s
                               then [SetStudioId (scene_id s) studio_id] else [])%list
    | None =>
        assign_studio_scene c studio_id false s n = (Ok (studio_blocked studio_id s), n)
    end.
  Proof.
    unfold assign_studio_scene, needs_studio, studio_blocked, studio_preview, current_studio.
    destruct (call_graphql c) as [method|] eqn:Em.
    - destruct (pyid_falsy (scene_id s)); cbn [negb andb].
      { eexists _, n. split; [reflexivity|]. rewrite app_nil_r. reflexivity. }
      destruct (pyid_eqb _ studio_id); cbn [negb].
      { eexists _, n. split; [reflexivity|]. rewrite app_nil_r. reflexivity. }
      unfold bindM, _assign_studio_to_scene, catch, bindM, send, lift, ret. rewrite Em.
      destruct (method _ (world n)) as [[resp|e] w'].
      + match goal with |- context [match ?r with Ok _ => _ | Raise _ => _ end] =>
          destruct r as [b|e] end; eexists _, _; split; reflexivity.
      + eexists _, _; split; reflexivity.
    - destruct (pyid_falsy (scene_id s)); [reflexivity|].
      destruct (pyid_eqb _ studio_id); [reflexivity|].
      unfold bindM, _assign_studio_to_scene, catch, bindM, send, lift, ret. rewrite Em.
      reflexivity.
  Qed.

(** X19.  A studio run sends one request per record with an id and another
    studio, through [call_graphql]; a client without that method, as
    [GraphQLClient], sends nothing, and those records are counted failed. *)
Theorem studio_run_needs_call_graphql (c : client World) (scenes : list scene)
      (studio_id : pyid) (n : net World) :
    (forall method,
       call_graphql c = Some method ->
       exists sm n',
         AssignStudioWorker_run c scenes studio_id false n = (Ok sm, n') /\
         sent n' = (sent n ++ map (fun s => SetStudioId (scene_id s) studio_id)
                                  (filter (needs_studio studio_id) scenes))%list) /\
    (call_graphql c = None ->
       AssignStudioWorker_run c scenes studio_id false n
         = (Ok (tally (map (studio_blocked studio_id) scenes)), n) /\
       updated (tally (map (studio_blocked studio_id) scenes)) = 0%nat /\
       failed (tally (map (studio_blocked studio_id) scenes))
         = List.length (filter (needs_studio studio_id) scenes)).
  Proof.
    split.
    - intros method Hm.
      destruct (@for_each_trace
                  (fun s => assign_studio_scene c studio_id false s)
                  (fun s => if needs_studio studio_id s
                            then [SetStudioId (scene_id s) studio_id] else [])
                  (fun _ _ => True)) with (scenes := scenes) (acc := summary0) (n := n)
        as (os & n' & Hr & Hs & _).
      { intros s n0. pose proof (studio_step c studio_id s n0) as H. rewrite Hm in H.
        destruct H as (o & n1 & H1 & H2). exists o, n1. auto. }
      unfold AssignStudioWorker_run. rewrite Hr. eexists _, n'.
      split; [reflexivity|]. rewrite Hs, flat_map_if. reflexivity.
    - intro Hm. split; [|split].
      + apply for_each_preview. intros s n0.
        pose proof (studio_step c studio_id s n0) as H. rewrite Hm in H. exact H.
      + destruct (tally_spec (map (studio_blocked studio_id) scenes)) as (-> & _).
        apply count_absent. intros x Hx. apply in_map_iff in Hx as (s & <- & _).
        unfold studio_blocked. destruct (studio_preview studio_id s); discriminate.
      + destruct (tally_spec (map (studio_blocked studio_id) scenes)) as (_ & _ & _ & ->).
        rewrite count_map_filter. f_equal. apply filter_ext. intro s.
        unfold studio_blocked, studio_preview, needs_studio.
        destruct (pyid_falsy (scene_id s)); [reflexivity|].
        destruct (pyid_eqb _ _); reflexivity.
  Qed.
End RunFacts.

Lemma performer_run_unites_ids_witness :
  exists o w' rq,
    assign_performers_scene no_print no_print (duck_client (updated_response "1"))
      [Some "5"; Some "3"] false
      (raw_scene "1" [] None []) offline
      = (Ok o, {| world := w'; sent := ([] ++ [rq])%list |}) /\
    unites_performers [Some "5"; Some "3"] (raw_scene "1" [] None []) rq.
Proof.
  apply (proj1 (proj2 (@performer_run_unites_ids unit no_print no_print
                         (duck_client (updated_response "1"))
                         [Some "5"; Some "3"] offline))).
  intro H. specialize (H (Some "5") (or_introl eq_refl)). simpl in H. exact H.
Defined.

Lemma studio_run_needs_call_graphql_witness :
  fst (AssignStudioWorker_run (GraphQLClient (answering (updated_response "1")))
         [raw_scene "1" [] None []; raw_scene "2" [] (Some (tag "9" "s")) []]
         (Some "9") false offline)
    = Ok {| updated := 0; already := 1; skipped_deleted := 0; failed := 1 |} /\
  snd (AssignStudioWorker_run (GraphQLClient (answering (updated_response "1")))
         [raw_scene "1" [] None []; raw_scene "2" [] (Some (tag "9" "s")) []]
         (Some "9") false offline) = offline /\
  exists sm n',
    AssignStudioWorker_run (duck_client (updated_response "1"))
      [raw_scene "1" [] None []; raw_scene "2" [] (Some (tag "9" "s")) []]
      (Some "9") false offline = (Ok sm, n') /\
    sent n' = [SetStudioId (Some "1") (Some "9")].
Proof.
  pose proof (@studio_run_needs_call_graphql unit
                (GraphQLClient (answering (updated_response "1")))
                [raw_scene "1" [] None []; raw_scene "2" [] (Some (tag "9" "s")) []]
                (Some "9") offline) as [_ H].
  destruct (H eq_refl) as (Hr & _).
  split; [rewrite Hr; reflexivity|]. split; [rewrite Hr; reflexivity|].
  pose proof (@studio_run_needs_call_graphql unit
                (duck_client (updated_response "1"))
                [raw_scene "1" [] None []; raw_scene "2" [] (Some (tag "9" "s")) []]
                (Some "9") offline) as [K _].
  exact (K _ eq_refl).
Defined.

(** ** Looking a tag up *)

Lemma cut_chars_first sep pre post :
  existsb (Ascii.eqb sep) pre = false ->
  cut_chars sep (pre ++ sep :: post)%list = Some (pre, post).
Proof.
  induction pre as [|c pre IH]; simpl; intro H.
  - rewrite Ascii.eqb_refl. reflexivity.
  - apply orb_false_iff in H as [Hc Hp]. rewrite Ascii.eqb_sym, Hc, (IH Hp). reflexivity.
Qed.

Lemma cut_chars_none sep l :
  existsb (Ascii.eqb sep) l = false -> cut_chars sep l = None.
Proof.
  induction l as [|c l IH]; simpl; intro H; [reflexivity|].
  apply orb_false_iff in H as [Hc Hp]. rewrite Ascii.eqb_sym, Hc, (IH Hp). reflexivity.
Qed.

(** The first cut is at the first separator; the rest is left whole. *)
Lemma split_once_first sep a b :
  char_in sep a = false ->
  split_once sep (a ++ String sep b) = [a; b].
Proof.
  intro H. unfold split_once. rewrite of_string_app.
  change (of_string (String sep b)) with (sep :: of_string b).
  rewrite (@cut_chars_first sep (of_string a) (of_string b) H), !to_of_string. reflexivity.
Qed.

Lemma startswith_app p s : startswith (p ++ s) p = true.
Proof.
  unfold startswith. rewrite of_string_app. apply prefix_chars_spec. eauto.
Qed.

Section LookupFacts.
Variable World : Type.
Variable call : query -> World -> result json * World.

Lemma not_found_text tag_name :
    startswith ("TAG_NOT_FOUND:" ++ tag_name) "TAG_NOT_FOUND:" = true /\
    split_once ":" ("TAG_NOT_FOUND:" ++ tag_name) = ["TAG_NOT_FOUND"; tag_name].
  Proof.
    split; [apply startswith_app|].
    apply (@split_once_first ":" "TAG_NOT_FOUND" tag_name). reflexivity.
  Qed.

(** X20.  When the server counts no tag of the name, the worker emits
    [TAG_NOT_FOUND:] and the name, and [_on_tag_error] gets exactly that name
    back from the text, whatever characters it has. *)
Theorem missing_tag_name_comes_back (tag_name : string) (resp : json) (w w' : World) :
    call (FindTags tag_name) w = (Ok resp, w') ->
    counts_no_tag resp ->
    FetchTagWorker_run call tag_name w
      = (error_signal (Message ("TAG_NOT_FOUND:" ++ tag_name)), w') /\
    forall reply_yes st w2,
      _on_tag_error call ("TAG_NOT_FOUND:" ++ tag_name) false reply_yes st w2
        = (Ok ([TagMissing tag_name], st), w2) /\
      _on_tag_error call ("TAG_NOT_FOUND:" ++ tag_name) true false st w2
        = (Ok ([CreateTagQuestion tag_name], st), w2) /\
      _on_tag_error call ("TAG_NOT_FOUND:" ++ tag_name) true true st w2
        = match create_tag call tag_name w2 with
          | (Ok created_id, w3) =>
              (Ok ([CreateTagQuestion tag_name; TagCreated tag_name created_id],
                   {| last_tag_id := created_id; last_tag_name := JStr tag_name |}), w3)
          | (Raise e, w3) => (Ok ([CreateTagQuestion tag_name; CreateFailed e], st), w3)
          end.
  Proof.
    intros Hc (o & d & found & count & -> & Hd & Hf & Hn & H0).
    split.
    - unfold FetchTagWorker_run. rewrite Hc. f_equal.
      unfold find_tag. cbn [bind json_contains json_item]. rewrite Hd.
      cbn [bind json_contains json_item negb]. rewrite Hf.
      cbn [bind json_contains json_item negb]. rewrite Hn. cbn [bind]. rewrite H0.
      reflexivity.
    - intros reply_yes st w2. destruct (not_found_text tag_name) as [Hs Hp].
      unfold _on_tag_error. rewrite Hs, Hp. repeat split; reflexivity.
  Qed.

(** X21.  [create_tag] returns only a truthy id, read at [data.tagCreate.id];
    it passes an exception of the call on and raises [RuntimeError] on a
    response without such an id. *)
Theorem create_tag_returns_real_id (tag_name : string) (w : World) :
    (forall created_id w',
       create_tag call tag_name w = (Ok created_id, w') ->
       json_truthy created_id = true /\
       exists o d tc,
         call (TagCreate tag_name) w = (Ok (JObj o), w') /\
         assoc "data" o = Some (JObj d) /\
         assoc "tagCreate" d = Some (JObj tc) /\
         assoc "id" tc = Some created_id) /\
    (forall e w',
       call (TagCreate tag_name) w = (Raise e, w') ->
       create_tag call tag_name w = (Raise e, w')) /\
    (forall o w',
       call (TagCreate tag_name) w = (Ok (JObj o), w') ->
       assoc "data" o = None \/
       (exists d, assoc "data" o = Some (JObj d) /\
          (assoc "tagCreate" d = None \/
           exists tc, assoc "tagCreate" d = Some (JObj tc) /\
             match assoc "id" tc with
             | Some i => json_truthy i = false
             | None => True
             end)) ->
       create_tag call tag_name w = (Raise RuntimeError, w')).
  Proof.
    split; [|split].
    - intros created_id w' H. unfold create_tag in H.
      destruct (call (TagCreate tag_name) w) as [[resp|e] w1] eqn:Ec;
        cbn [bind] in H; [|discriminate].
      injection H as H <-.
      destruct resp as [|b|z|s|l|o]; cbn [json_contains bind] in H; try discriminate.
      + destruct (str_in "data" s); cbn [bind json_item] in H; discriminate.
      + destruct (existsb _ l); cbn [bind json_item] in H; discriminate.
      + destruct (assoc "data" o) as [dv|] eqn:Ed; cbn [bind json_item] in H;
          [|discriminate].
        rewrite Ed in H. cbn [bind] in H.
        destruct dv as [|b|z|s|l|d]; cbn [json_get bind] in H; try discriminate.
        destruct (assoc "tagCreate" d) as [tcv|] eqn:Et; cbn [bind json_get] in H.
        * destruct tcv as [|b|z|s|l|tc]; cbn [json_get bind] in H; try discriminate.
          destruct (assoc "id" tc) as [i|] eqn:Ei; cbn [bind json_truthy] in H;
            [|discriminate].
          destruct (json_truthy i) eqn:Ti; cbn [bind json_item] in H; [|discriminate].
          rewrite Et in H. cbn [bind json_item] in H. rewrite Ei in H.
          injection H as <-. split; [exact Ti|]. exists o, d, tc. repeat split; assumption.
        * cbn [assoc json_truthy bind] in H. discriminate.
    - intros e w' H. unfold create_tag. rewrite H. reflexivity.
    - intros o w' H Hno. unfold create_tag. rewrite H. f_equal.
      cbn [bind json_contains].
      destruct Hno as [Hd | (d & Hd & [Ht | (tc & Ht & Hi)])]; rewrite Hd.
      + reflexivity.
      + cbn [bind json_item]. rewrite Hd. cbn [bind json_get]. rewrite Ht. reflexivity.
      + cbn [bind json_item]. rewrite Hd. cbn [bind json_get]. rewrite Ht.
        cbn [bind json_get]. destruct (assoc "id" tc) as [i|]; [|reflexivity].
        cbn [bind]. rewrite Hi. reflexivity.
  Qed.
End LookupFacts.

Lemma missing_tag_name_comes_back_witness :
  let answer := fun (_ : query) (w : unit) =>
    (Ok (JObj [("data", JObj [("findTags", JObj [("count", JNum 0); ("tags", JArr [])])])]),
     w) in
  FetchTagWorker_run answer "series:part 1" tt
    = (error_signal (Message "TAG_NOT_FOUND:series:part 1"), tt) /\
  _on_tag_error answer "TAG_NOT_FOUND:series:part 1" true false
      {| last_tag_id := JNull; last_tag_name := JNull |} tt
    = (Ok ([CreateTagQuestion "series:part 1"],
           {| last_tag_id := JNull; last_tag_name := JNull |}), tt).
Proof.
  intro answer.
  destruct (@missing_tag_name_comes_back unit answer "series:part 1"
              (JObj [("data", JObj [("findTags", JObj [("count", JNum 0);
                                                      ("tags", JArr [])])])]) tt tt)
    as [A B]; [reflexivity| |].
  - eexists _, _, _, _. repeat split; reflexivity.
  - split; [exact A|].
    apply (B false {| last_tag_id := JNull; last_tag_name := JNull |} tt).
Defined.

Lemma create_tag_returns_real_id_witness :
  let answer := fun (_ : query) (w : unit) =>
    (Ok (JObj [("data", JObj [("tagCreate", JObj [("id", JStr "41")])])]), w) in
  create_tag answer "new" tt = (Ok (JStr "41"), tt) /\
  json_truthy (JStr "41") = true /\
  create_tag (fun (_ : query) (w : unit) => (Ok (JObj [("data", JObj [])]), w)) "new" tt
    = (Raise RuntimeError, tt).
Proof.
  intro answer. split; [reflexivity|]. split.
  - apply (proj1 (@create_tag_returns_real_id unit answer "new" tt) (JStr "41") tt).
    reflexivity.
  - apply (proj2 (proj2 (@create_tag_returns_real_id unit
                           (fun (_ : query) (w : unit) => (Ok (JObj [("data", JObj [])]), w))
                           "new" tt)) [("data", JObj [])] tt); [reflexivity|].
    right. exists []. split; [reflexivity|]. left. reflexivity.
Defined.

(** ** The column dialog *)

Lemma int_in_In x l : int_in x l = true <-> In x l.
Proof.
  unfold int_in. rewrite existsb_exists. split.
  - intros (y & Hy & E). apply Z.eqb_eq in E. subst. exact Hy.
  - intro H. exists x. split; [exact H|apply Z.eqb_refl].
Qed.

Lemma filter_data_column_id l :
  ~ In 0 l -> filter data_column l = l.
Proof.
  induction l as [|y l IH]; simpl; intro H; [reflexivity|].
  unfold data_column at 1. destruct (y =? 0) eqn:E.
  - apply Z.eqb_eq in E. subst. exfalso. apply H. left. reflexivity.
  - simpl. f_equal. apply IH. intro K. apply H. right. exact K.
Qed.

Lemma list_remove_zero l :
  In 0 l ->
  exists r, list_remove 0 l = Ok r /\
            filter data_column r = filter data_column l /\
            count_occ Z.eq_dec l 0 = S (count_occ Z.eq_dec r 0).
Proof.
  induction l as [|y l IH]; intro H; [contradiction|].
  cbn [list_remove]. destruct (y =? 0) eqn:E.
  - apply Z.eqb_eq in E. subst y. exists l. split; [reflexivity|].
    split; [reflexivity|]. cbn [count_occ].
    destruct (Z.eq_dec 0 0); [reflexivity|contradiction].
  - destruct H as [H|H]; [apply Z.eqb_neq in E; contradiction|].
    destruct (IH H) as (r & -> & Hf & Hc). exists (y :: r). split; [reflexivity|].
    cbn [filter count_occ]. rewrite Hf.
    split; [reflexivity|]. apply Z.eqb_neq in E.
    destruct (Z.eq_dec y 0); [contradiction|exact Hc].
Qed.

Lemma item_at_head {A} (x : A) l : item_at (x :: l) 0 = Ok x.
Proof.
  assert ((Z.of_nat (List.length (x :: l)) <=? 0) = false) as H
    by (apply Z.leb_gt; cbn [List.length]; lia).
  unfold item_at. cbv zeta. change (0 <? 0) with false. cbv iota.
  rewrite H. reflexivity.
Qed.

Lemma get_index_of_head m rest :
  get_visible_column_index (set_visible_columns m (0 :: rest)) 0 = Some 0%nat.
Proof. reflexivity. Qed.

(** X22.  Accepting the column dialog never fails and puts the Select column
    first; the other ticked columns follow in dialog order. *)
Theorem accepted_columns_start_with_select (m : model) (items : list list_item) :
  exists rest,
    accept_columns m items = Ok (set_visible_columns m (0 :: rest)) /\
    filter data_column rest = filter data_column (ticked_columns items) /\
    ((count_occ Z.eq_dec (ticked_columns items) 0%Z <= 1)%nat ->
     rest = filter data_column (ticked_columns items)) /\
    get_visible_column_index (set_visible_columns m (0 :: rest)) 0 = Some 0%nat.
Proof.
  unfold accept_columns. fold (ticked_columns items).
  set (ticked := ticked_columns items).
  assert (forall r, count_occ Z.eq_dec r 0 = 0%nat -> r = filter data_column r) as Hz.
  { intros r Hr. symmetry. apply filter_data_column_id.
    apply (count_occ_not_In Z.eq_dec). exact Hr. }
  destruct (int_in 0 ticked) eqn:Ein; cbn [negb bind].
  - apply int_in_In in Ein.
    destruct ticked as [|first tl] eqn:Et; [contradiction|].
    rewrite item_at_head. cbn [bind]. destruct (first =? 0) eqn:E0; cbn [negb].
    + apply Z.eqb_eq in E0. subst first. exists tl. split; [reflexivity|].
      split; [reflexivity|]. split; [|reflexivity].
      intro Hc. change (filter data_column (0 :: tl)) with (filter data_column tl).
      apply Hz. simpl in Hc. destruct (Z.eq_dec 0 0); [lia|contradiction].
    + destruct (list_remove_zero (first :: tl) Ein) as (r & Hr & Hf & Hc).
      rewrite Hr. cbn [bind]. exists r. split; [reflexivity|].
      split; [exact Hf|]. split; [|reflexivity].
      intro H1. rewrite <- Hf. apply Hz. lia.
  - exists ticked. split; [reflexivity|]. split; [reflexivity|]. split; [|reflexivity].
    intros _. symmetry. apply filter_data_column_id. intro K.
    apply int_in_In in K. congruence.
Qed.

Lemma accepted_columns_start_with_select_witness :
  exists rest,
    accept_columns two_rows
      [ {| item_text := "Title"; item_data := 2; item_checked := true |};
        {| item_text := "Select"; item_data := 0; item_checked := true |};
        {| item_text := "ID"; item_data := 1; item_checked := false |};
        {| item_text := "Path"; item_data := 7; item_checked := true |} ]
      = Ok (set_visible_columns two_rows (0 :: rest)) /\
    rest = [2; 7].
Proof.
  destruct (accepted_columns_start_with_select two_rows
      [ {| item_text := "Title"; item_data := 2; item_checked := true |};
        {| item_text := "Select"; item_data := 0; item_checked := true |};
        {| item_text := "ID"; item_data := 1; item_checked := false |};
        {| item_text := "Path"; item_data := 7; item_checked := true |} ])
    as (rest & H & _ & Hr & _).
  exists rest. split; [exact H|]. apply Hr. simpl. lia.
Defined.

Lemma shown_items (visible : list Z) : forall shown,
  map_result
    (fun col_idx =>
       col_name <- item_at ALL_COLUMNS col_idx ;;
       Ok {| item_text := col_name; item_data := col_idx; item_checked := true |})
    visible = Ok shown ->
  map item_data shown = visible /\
  filter item_checked shown = shown /\
  filter (fun it => negb (item_checked it)) shown = [] /\
  Forall (fun it => item_at ALL_COLUMNS (item_data it) = Ok (item_text it)) shown /\
  map_result (item_at ALL_COLUMNS) visible = Ok (map item_text shown).
Proof.
  induction visible as [|c tl IH]; intros shown H; cbn [map_result bind] in H.
  - injection H as <-. repeat split; constructor.
  - destruct (item_at ALL_COLUMNS c) as [name|e] eqn:En; cbn [bind] in H; [|discriminate].
    destruct (map_result _ tl) as [rest|e] eqn:Er; cbn [bind] in H; [|discriminate].
    injection H as <-. destruct (IH rest eq_refl) as (H1 & H2 & H3 & H4 & H5).
    cbn [map filter item_checked item_data item_text negb map_result].
    rewrite H1, H2, H3, En. cbn [bind]. rewrite H5. cbn [bind].
    repeat split. constructor; [exact En|exact H4].
Qed.

Lemma hidden_items (visible : list Z) (cols : list (Z * string)) :
  let hidden :=
    flat_map
      (fun ic : Z * string =>
         let '(col_idx, col_name) := ic in
         if negb (int_in col_idx visible) && negb (col_idx =? 0)
         then [{| item_text := col_name; item_data := col_idx; item_checked := false |}]
         else []) cols in
  filter item_checked hidden = [] /\
  map item_data (filter (fun it => negb (item_checked it)) hidden)
    = filter (fun c => negb (int_in c visible) && data_column c) (map fst cols) /\
  Forall (fun it => In (item_data it, item_text it) cols) hidden.
Proof.
  induction cols as [|[c name] tl IH]; simpl; [repeat split; constructor|].
  destruct IH as (I1 & I2 & I3). unfold data_column at 1.
  assert (Forall (fun it => (c, name) = (item_data it, item_text it)
                            \/ In (item_data it, item_text it) tl)
                 (flat_map
                    (fun ic : Z * string =>
                       let '(col_idx, col_name) := ic in
                       if negb (int_in col_idx visible) && negb (col_idx =? 0)
                       then [{| item_text := col_name; item_data := col_idx;
                                item_checked := false |}]
                       else []) tl)) as I3'.
  { eapply Forall_impl; [|exact I3]. intros it H. right. exact H. }
  destruct (negb (int_in c visible) && negb (c =? 0)); simpl; repeat split;
    try assumption.
  - rewrite I2. reflexivity.
  - constructor; [left; reflexivity|exact I3'].
Qed.

Lemma enumerate_headers c name :
  In (c, name) (enumerate ALL_COLUMNS) -> item_at ALL_COLUMNS c = Ok name.
Proof.
  unfold enumerate, ALL_COLUMNS. cbn [List.length seq map combine].
  intro H. repeat (destruct H as [H|H]; [injection H as <- <-; reflexivity|]).
  contradiction.
Qed.

(** X23.  The column dialog shows the visible columns ticked and in order,
    then the hidden ones unticked, each under the header of its column;
    accepted unchanged it leaves a column list that starts with Select as it
    was. *)
Theorem column_dialog_round_trip (m : model) (items : list list_item) :
  dialog_items m = Ok items ->
  ticked_columns items = _visible_columns m /\
  map item_data (filter (fun it => negb (item_checked it)) items)
    = filter (fun c => negb (int_in c (_visible_columns m)) && data_column c)
             [0; 1; 2; 3; 4; 5; 6; 7; 8; 9; 10; 11] /\
  Forall (fun it => item_at ALL_COLUMNS (item_data it) = Ok (item_text it)) items /\
  get_visible_headers m = Ok (map item_text (filter item_checked items)) /\
  (forall tl, _visible_columns m = 0 :: tl ->
     accept_columns m items = Ok (set_visible_columns m (_visible_columns m))) /\
  (~ In 0 (_visible_columns m) ->
     accept_columns m items = Ok (set_visible_columns m (0 :: _visible_columns m))).
Proof.
  unfold dialog_items.
  pose proof (hidden_items (_visible_columns m) (enumerate ALL_COLUMNS)) as (H1 & H2 & H3).
  cbv zeta in H1, H2, H3. revert H1 H2 H3.
  generalize (flat_map
                (fun ic : Z * string =>
                   let '(col_idx, col_name) := ic in
                   if negb (int_in col_idx (_visible_columns m)) && negb (col_idx =? 0)
                   then [{| item_text := col_name; item_data := col_idx;
                            item_checked := false |}]
                   else []) (enumerate ALL_COLUMNS)).
  intros hidden H1 H2 H3 H.
  destruct (map_result _ (_visible_columns m)) as [shown|e] eqn:Es; cbn [bind] in H;
    [|discriminate].
  injection H as <-.
  destruct (shown_items _ Es) as (S1 & S2 & S3 & S4 & S5).
  assert (ticked_columns (shown ++ hidden)%list = _visible_columns m) as Ht.
  { unfold ticked_columns. rewrite filter_app, H1, app_nil_r, S2. exact S1. }
  split; [exact Ht|]. split; [|split; [|split; [|split]]].
  - rewrite filter_app, S3, app_nil_l, H2. reflexivity.
  - apply Forall_app. split; [exact S4|].
    eapply Forall_impl; [|exact H3]. intros it Hin. apply enumerate_headers. exact Hin.
  - unfold get_visible_headers. rewrite filter_app, H1, app_nil_r, S2. exact S5.
  - intros tl Hv. unfold accept_columns. fold (ticked_columns (shown ++ hidden)%list).
    rewrite Ht, Hv. cbn [int_in existsb Z.eqb orb negb bind].
    rewrite item_at_head. reflexivity.
  - intro Hn. unfold accept_columns. fold (ticked_columns (shown ++ hidden)%list).
    rewrite Ht. destruct (int_in 0 (_visible_columns m)) eqn:E.
    + apply int_in_In in E. contradiction.
    + reflexivity.
Qed.

Lemma column_dialog_round_trip_witness :
  exists items,
    dialog_items (set_visible_columns two_rows [0; 2; 7]) = Ok items /\
    ticked_columns items = [0; 2; 7] /\
    map item_data (filter (fun it => negb (item_checked it)) items)
      = [1; 3; 4; 5; 6; 8; 9; 10; 11] /\
    accept_columns (set_visible_columns two_rows [0; 2; 7]) items
      = Ok (set_visible_columns two_rows [0; 2; 7]).
Proof.
  eexists. split; [vm_compute; reflexivity|].
  match goal with |- ticked_columns ?i = _ /\ _ =>
    destruct (@column_dialog_round_trip (set_visible_columns two_rows [0; 2; 7]) i)
      as (A & B & _ & _ & C & _); [vm_compute; reflexivity|] end.
  split; [exact A|]. split; [exact B|]. exact (C _ eq_refl).
Defined.

(** ** From the ticked rows to the summary *)

Lemma selected_count (scenes : list scene) : forall checked,
  List.length (map fst (filter snd (combine scenes checked)))
  = count_occ bool_dec (firstn (List.length scenes) checked) true.
Proof.
  induction scenes as [|s tl IH]; intros [|c cs]; simpl; try reflexivity.
  destruct c; simpl; rewrite IH.
  - destruct (bool_dec true true); [reflexivity|contradiction].
  - destruct (bool_dec false true); [discriminate|reflexivity].
Qed.

Section StartFacts.
Variable World : Type.
Variables json_dumps py_str : json -> string.

(** X24.  The worker [on_apply_tag] starts gets the remembered tag id, not
    empty, and the ticked records, at least one; its summary adds up to the
    number of ticked rows. *)
Theorem tag_run_counts_ticked_rows (c : client World) (last_tag_id tag_id : pyid)
      (m : model) (dryrun_checkbox dry_run : bool) (selected : list scene)
      (n : net World) :
    aligned m ->
    on_apply_tag last_tag_id m dryrun_checkbox = Done (selected, tag_id, dry_run) ->
    tag_id = last_tag_id /\ pyid_falsy tag_id = false /\ dry_run = dryrun_checkbox /\
    selected = get_selected_scenes m /\ selected <> [] /\
    exists sm n',
      ApplyTagWorker_run json_dumps py_str c selected tag_id dry_run n = (Ok sm, n') /\
      total sm = count_occ bool_dec (_checked m) true.
  Proof.
    unfold on_apply_tag. intros Ha H.
    destruct (pyid_falsy last_tag_id) eqn:Ef; [discriminate|].
    destruct (get_selected_scenes m) as [|s tl] eqn:Es; [discriminate|].
    injection H as <- <- <-.
    split; [reflexivity|]. split; [exact Ef|]. split; [reflexivity|].
    split; [reflexivity|]. split; [discriminate|].
    destruct (@run_partition World
                (fun s0 => apply_tag_scene json_dumps py_str c last_tag_id
                             dryrun_checkbox s0)
                (fun s0 => never_raises_apply_tag_scene json_dumps py_str c last_tag_id
                             dryrun_checkbox s0) (s :: tl) n)
      as (sm & os & n' & Hr & _ & _ & Ht).
    exists sm, n'. split; [exact Hr|]. rewrite Ht, <- Es.
    unfold get_selected_scenes. rewrite selected_count.
    unfold aligned in Ha. rewrite <- Ha, firstn_all. reflexivity.
  Qed.
End StartFacts.

Lemma tag_run_counts_ticked_rows_witness :
  exists sm n',
    ApplyTagWorker_run no_print no_print (duck_client (updated_response "2"))
      [sized_scene "2" 100] (Some "7") false offline = (Ok sm, n') /\
    total sm = count_occ bool_dec (_checked two_rows) true.
Proof.
  refine (proj2 (proj2 (proj2 (proj2 (proj2
    (@tag_run_counts_ticked_rows unit no_print no_print
       (duck_client (updated_response "2")) (Some "7") (Some "7") two_rows false false
       [sized_scene "2" 100] offline _ _)))))); reflexivity.
Defined.

(** ** The two move buttons *)

Lemma take_out {A} (l1 l2 : list A) it :
  (firstn (List.length l1) (l1 ++ it :: l2) ++ skipn (S (List.length l1)) (l1 ++ it :: l2))%list
  = (l1 ++ l2)%list.
Proof.
  induction l1 as [|x l1 IH]; [reflexivity|].
  cbn [List.length app firstn]. change (skipn (S (S (List.length l1))) (x :: l1 ++ it :: l2))
    with (skipn (S (List.length l1)) (l1 ++ it :: l2)).
  cbn [app]. f_equal. exact IH.
Qed.

Lemma move_item_perm {A} (l : list A) row to : Permutation (move_item l row to) l.
Proof.
  unfold move_item. destruct (nth_error l row) as [it|] eqn:E; [|reflexivity].
  apply nth_error_split in E as (l1 & l2 & -> & <-).
  rewrite take_out.
  rewrite <- Permutation_middle.
  etransitivity; [|apply Permutation_middle].
  constructor. rewrite firstn_skipn. reflexivity.
Qed.

Lemma move_item_head {A} (l : list A) row to :
  (1 <= row)%nat -> (1 <= to)%nat -> hd_error (move_item l row to) = hd_error l.
Proof.
  intros Hr Ht. unfold move_item. destruct (nth_error l row) as [it|] eqn:E; [|reflexivity].
  destruct l as [|x l]; [destruct row; discriminate|].
  destruct row as [|row]; [lia|]. destruct to as [|to]; [lia|]. reflexivity.
Qed.

(** X25.  The two move buttons of the column dialog reorder rows without ever
    changing the first one. *)
Theorem move_buttons_keep_first_row {A} (items : list A) (current_row : Z) :
  let up := move_up items current_row in
  let down := move_down items current_row in
  hd_error (fst up) = hd_error items /\ Permutation (fst up) items /\
  hd_error (fst down) = hd_error items /\ Permutation (fst down) items /\
  (current_row <= 1 -> up = (items, current_row)) /\
  (current_row < 1 -> down = (items, current_row)).
Proof.
  unfold move_up, move_down. cbv zeta.
  destruct (1 <? current_row) eqn:Eu;
    destruct ((1 <=? current_row) && (current_row <? Z.of_nat (List.length items) - 1)) eqn:Ed;
    cbn [fst];
    repeat match goal with
           | |- _ /\ _ => split
           | |- hd_error (move_item _ _ _) = _ => apply move_item_head; lia
           | |- Permutation (move_item _ _ _) _ => apply move_item_perm
           | |- hd_error ?l = hd_error ?l => reflexivity
           | |- Permutation ?l ?l => reflexivity
           end;
    try (apply Z.ltb_lt in Eu); try (apply Z.ltb_ge in Eu);
    try (apply andb_prop in Ed as [E1 E2]; apply Z.leb_le in E1);
    try (intro; lia); try reflexivity; try (apply move_item_head; lia).
  all: intro; apply andb_false_iff in Ed as [E|E];
       [apply Z.leb_gt in E; try lia; reflexivity| reflexivity].
Qed.

Lemma move_buttons_keep_first_row_witness :
  move_up [0; 2; 7] 2 = ([0; 7; 2], 1) /\
  hd_error (fst (move_up [0; 2; 7] 2)) = Some 0 /\
  move_up [0; 2; 7] 1 = ([0; 2; 7], 1) /\
  move_down [0; 2; 7] 0 = ([0; 2; 7], 0).
Proof.
  destruct (@move_buttons_keep_first_row Z [0; 2; 7] 2) as (A & _).
  destruct (@move_buttons_keep_first_row Z [0; 2; 7] 1) as (_ & _ & _ & _ & B & _).
  destruct (@move_buttons_keep_first_row Z [0; 2; 7] 0) as (_ & _ & _ & _ & _ & C).
  split; [reflexivity|]. split; [exact A|]. split; [apply B; lia|apply C; lia].
Defined.

(** ** A search has a criterion *)






(** ** The Resolution column *)

Lemma checked_up_to (n : nat) (P : Z -> bool) :
  forallb P (map Z.of_nat (seq 1 n)) = true ->
  forall k, 1 <= k <= Z.of_nat n -> P k = true.
Proof.
  intros H k Hk. rewrite forallb_forall in H. apply H.
  replace k with (Z.of_nat (Z.to_nat k)) by lia.
  apply in_map, in_seq. lia.
Qed.

Lemma resolution_key_rank h : 0 < h -> resolution_key_of h = KInt (label_rank h).
Proof.
  intro Hh. unfold resolution_key_of, resolution_label, label_rank.
  destruct (2160 <=? h); [reflexivity|].
  destruct (1440 <=? h); [reflexivity|].
  destruct (1080 <=? h); [reflexivity|].
  destruct (720 <=? h); [reflexivity|].
  destruct (480 <=? h) eqn:E; [reflexivity|].
  apply Z.leb_gt in E. f_equal.
  assert ((try_except_all
             (int_of_str (replace "K" "000" (replace "p" "" (str_of_int h ++ "p")))) 0
           =? h) = true) as K.
  { revert h Hh E. intros h Hh E.
    apply (@checked_up_to 479
             (fun h => try_except_all
                         (int_of_str (replace "K" "000"
                                        (replace "p" "" (str_of_int h ++ "p")))) 0 =? h));
      [vm_compute; reflexivity|lia]. }
  apply Z.eqb_eq in K. exact K.
Qed.

Lemma label_not_empty h : is_empty (resolution_label h) = false.
Proof.
  unfold resolution_label.
  repeat match goal with |- context [if ?c then _ else _] => destruct c; [reflexivity|] end.
  rewrite is_empty_of_string, of_string_app.
  destruct (of_string (str_of_int h)); reflexivity.
Qed.

(** X27.  The key of the Resolution column is the number the label stands for:
    4000 for 4K, the threshold for the other labels, the height itself below
    480, and 0 when the height is missing or 0; it does not decrease when the
    height grows. *)
Theorem resolution_column_orders_by_height :
  (forall s h,
     _height (normalize_scene s) = Some h -> 0 < h ->
     sort_key 10 (normalize_scene s) = Ok (KInt (label_rank h))) /\
  (forall s,
     _height (normalize_scene s) = None \/ _height (normalize_scene s) = Some 0 ->
     sort_key 10 (normalize_scene s) = Ok (KInt 0)) /\
  (forall h1 h2, 0 < h1 <= h2 -> label_rank h1 <= label_rank h2).
Proof.
  split; [|split].
  - intros s h Hh Hpos. pose proof (resolution_key_rank Hpos) as K.
    unfold resolution_key_of in K.
    unfold normalize_scene in *. cbn [_height _resolution sort_key] in *.
    rewrite Hh. destruct (h =? 0) eqn:E0; [apply Z.eqb_eq in E0; lia|].
    rewrite label_not_empty. rewrite K. reflexivity.
  - intros s Hs. unfold normalize_scene in *. cbn [_height _resolution sort_key] in *.
    destruct Hs as [-> | ->]; reflexivity.
  - intros h1 h2 H. unfold label_rank.
    repeat match goal with
           | |- context [?a <=? ?b] => destruct (Z.leb_spec a b)
           end; lia.
Qed.

Lemma resolution_column_orders_by_height_witness :
  sort_key 10 (normalize_scene two_file_scene) = Ok (KInt (label_rank 1080)) /\
  label_rank 1080 = 1080 /\ label_rank 2160 = 4000 /\ label_rank 360 = 360.
Proof.
  split; [|repeat split].
  apply (proj1 resolution_column_orders_by_height two_file_scene 1080); [reflexivity|lia].
Defined.

(** ** The API key setting *)









